(** * PetCareApp: the pet life-cycle simulation, embedded and verified

    A shallow embedding of the simulation rules of the virtual-pet
    application: the day-advance of [src/pages/PetCare.jsx] (stat decay, the
    health rule, the insurance floor and billing), the care actions and
    their pricing ([PetCare.jsx] and [components/pet/CareActions.jsx]), the
    trick and toy shops, the evolution and death checks, and the adoption
    flow of [PetAdopt.jsx].

    Numbers.  JavaScript numbers are modelled by exact rationals [Q] where
    the program produces fractions (stats, coins, prices) and by [Z] where
    it only ever counts ([days_alive], [experience]).  [Math.random()] is a
    parameter of the handlers: a rational in the half-open interval from 0
    to 1, one per call of the source.

    Effects.  Event handlers close over a snapshot [pet] and issue calls to
    the entity store ([Pet.update], [Expense.create]), to
    [showNotification] and to React state setters.  A handler is embedded
    as a function from the snapshot to the list of calls it makes, in
    program order; [apply_effect] then interprets the calls on the store
    and on the state of the page. *)

From Stdlib Require Import ZArith QArith Qminmax Qround Lqa Lia.
From Stdlib Require Import List String Ascii Bool NArith.
Import ListNotations.

Local Open Scope Q_scope.

(* ================================================================== *)
(** ** JavaScript primitives *)

Module Js.

(** [a < b] on numbers. *)
Definition lt (a b : Q) : bool := negb (Qle_bool b a).
(** [a >= b] on numbers. *)
Definition ge (a b : Q) : bool := Qle_bool b a.
(** [a > b] on numbers. *)
Definition gt (a b : Q) : bool := negb (Qle_bool a b).

(** [Math.max], [Math.min], [Math.ceil], [Math.floor]. *)
Definition max (a b : Q) : Q := Qmax a b.
Definition min (a b : Q) : Q := Qmin a b.
Definition ceil (a : Q) : Q := inject_Z (Qceiling a).
Definition floor (a : Q) : Q := inject_Z (Qfloor a).
(** [Math.round]: the nearest integer, halves going up. *)
Definition round (a : Q) : Q := inject_Z (Qfloor (a + (1 # 2))).

(** [arr.includes(s)] on an array of strings. *)
Definition includes (l : list string) (s : string) : bool :=
  existsb (String.eqb s) l.

(** [a <= b] on numbers. *)
Definition le (a b : Q) : bool := Qle_bool a b.

(** [s.toLowerCase()] on the code units the program applies it to: the
    letters A to Z map to a to z and every other unit stays. *)
Definition lowerUnit (c : N) : N :=
  if ((65 <=? c) && (c <=? 90))%N then (c + 32)%N else c.

Definition lowerAscii (c : ascii) : ascii :=
  ascii_of_N (lowerUnit (N_of_ascii c)).

Fixpoint toLowerCase (s : string) : string :=
  match s with
  | EmptyString => EmptyString
  | String c s' => String (lowerAscii c) (toLowerCase s')
  end.

(** [s.replace(' ', '')]: a string pattern removes the first space only. *)
Fixpoint removeFirstSpace (s : string) : string :=
  match s with
  | EmptyString => EmptyString
  | String c s' =>
      if Ascii.eqb c " "%char then s' else String c (removeFirstSpace s')
  end.

(** Truthiness of a string: every string but the empty one. *)
Definition truthy (s : string) : bool :=
  match s with EmptyString => false | String _ _ => true end.

(** [arr.filter(p).length]. *)
Definition count (p : Q -> bool) (l : list Q) : nat :=
  List.length (List.filter p l).

End Js.

(* ================================================================== *)
(** ** Data model: the Pet and Expense entities *)

Inductive Stage : Type := egg | hatchling | grown.

Definition Stage_eqb (a b : Stage) : bool :=
  match a, b with
  | egg, egg | hatchling, hatchling | grown, grown => true
  | _, _ => false
  end.

(** The [species] enumeration of [Entities/Pet.js]; the ids of the [pets]
    table of the adoption page. *)
Inductive Species : Type := dragon | cerberus | kitsune | phoenix.

(** A pet name is a JavaScript string: a sequence of UTF-16 code units. *)
Definition Name := list N.

(** Identifiers are assigned by the entity store. *)
Definition PetId := N.

(** The Pet entity ([Entities/Pet.js] and the fields written by
    [handleAdopt]).  [last_fed] and [created_date] are timestamps in
    milliseconds; [last_fed] is absent until the first day-advance. *)
Record Pet : Type := mkPet {
  id : PetId;
  name : Name;
  species : Species;
  stage : Stage;
  hunger : Q;
  happiness : Q;
  energy : Q;
  hygiene : Q;
  health : Q;
  experience : Z;
  coins : Q;
  has_insurance : bool;
  last_fed : option Z;
  achievements : list string;
  color_variant : string;
  days_alive : Z;
  tricks : list string;
  toys : list string;
  created_date : Z
}.

(** The Expense entity as passed to [Expense.create]. *)
Record ExpenseData : Type := mkExpense {
  pet_id : PetId;
  type : string;
  amount : Q;
  description : string
}.

(** One [key: value] entry of the partial object handed to [Pet.update]. *)
Inductive Assign : Type :=
| SetDaysAlive (v : Z)
| SetLastFed (t : Z)
| SetExperience (v : Z)
| SetHunger (v : Q)
| SetHygiene (v : Q)
| SetEnergy (v : Q)
| SetHappiness (v : Q)
| SetHealth (v : Q)
| SetCoins (v : Q)
| SetStage (s : Stage)
| SetAchievements (l : list string)
| SetHasInsurance (b : bool)
| SetTricks (l : list string)
| SetToys (l : list string).

(** The [updates] object, as its assignments in program order: a later
    assignment to a key overrides an earlier one. *)
Definition Updates := list Assign.

Definition applyAssign (p : Pet) (a : Assign) : Pet :=
  let '(mkPet i n sp st hu ha en hy he ex co ins lf ach cv da tr ty cd) := p in
  match a with
  | SetDaysAlive v => mkPet i n sp st hu ha en hy he ex co ins lf ach cv v tr ty cd
  | SetLastFed t => mkPet i n sp st hu ha en hy he ex co ins (Some t) ach cv da tr ty cd
  | SetExperience v => mkPet i n sp st hu ha en hy he v co ins lf ach cv da tr ty cd
  | SetHunger v => mkPet i n sp st v ha en hy he ex co ins lf ach cv da tr ty cd
  | SetHygiene v => mkPet i n sp st hu ha en v he ex co ins lf ach cv da tr ty cd
  | SetEnergy v => mkPet i n sp st hu ha v hy he ex co ins lf ach cv da tr ty cd
  | SetHappiness v => mkPet i n sp st hu v en hy he ex co ins lf ach cv da tr ty cd
  | SetHealth v => mkPet i n sp st hu ha en hy v ex co ins lf ach cv da tr ty cd
  | SetCoins v => mkPet i n sp st hu ha en hy he ex v ins lf ach cv da tr ty cd
  | SetStage s => mkPet i n sp s hu ha en hy he ex co ins lf ach cv da tr ty cd
  | SetAchievements l => mkPet i n sp st hu ha en hy he ex co ins lf l cv da tr ty cd
  | SetHasInsurance b => mkPet i n sp st hu ha en hy he ex co b lf ach cv da tr ty cd
  | SetTricks l => mkPet i n sp st hu ha en hy he ex co ins lf ach cv da l ty cd
  | SetToys l => mkPet i n sp st hu ha en hy he ex co ins lf ach cv da tr l cd
  end.

(** [Pet.update(id, data)] on the record it addresses: the fields present
    in [data] are replaced, the others kept. *)
Definition applyUpdates (p : Pet) (u : Updates) : Pet :=
  fold_left applyAssign u p.

(** [updates.health]: the value the object holds under the key [health],
    or [None] while the key is absent ([undefined]). *)
Fixpoint get_health (u : Updates) : option Q :=
  match u with
  | [] => None
  | a :: u' =>
      match get_health u' with
      | Some v => Some v
      | None => match a with SetHealth v => Some v | _ => None end
      end
  end.

(** [updates.coins], likewise. *)
Fixpoint get_coins (u : Updates) : option Q :=
  match u with
  | [] => None
  | a :: u' =>
      match get_coins u' with
      | Some v => Some v
      | None => match a with SetCoins v => Some v | _ => None end
      end
  end.

(* ================================================================== *)
(** ** Effects of the event handlers *)

(** The messages passed to [showNotification]. *)
Inductive Note : Type :=
| InsuranceSaved            (* Insurance saved your pet from critical health! *)
| Hatched                   (* Your pet hatched into a hatchling! *)
| FullyGrown                (* Your pet is now fully grown! *)
| AchievementFirstMeal      (* Achievement: First Meal! *)
| Fed                       (* Yummy! Your pet is satisfied! *)
| Played                    (* Your pet had fun playing! *)
| Rested                    (* Your pet feels refreshed! *)
| Cleaned                   (* Sparkly clean! *)
| HealthChecked             (* Health check complete! *)
| AchievementWealthy        (* Achievement: Financial Genius! *)
| Earned (reward : Q)       (* You earned ${reward} coins! *)
| InsuranceActivated        (* Pet insurance activated! *)
| Performed (who : Name) (trick : string)
| Learned (trick : string)  (* Your pet learned ${trick.name}! *)
| Bought (toy : string).    (* You bought a ${toy.name}! *)

(** The snapshot taken by the death check ([setDeathStats]). *)
Record DeathStats : Type := mkDeathStats {
  ds_name : Name;
  daysLived : Z;
  ds_happiness : Q;
  totalSpent : Q;
  ds_achievements : nat;
  ds_coins : Q
}.

(** The calls a handler makes, apart from pure computation. *)
Inductive Effect : Type :=
| PetUpdate (target : PetId) (data : Updates)  (* updatePetMutation.mutate *)
| PetDelete (target : PetId)                   (* base44.entities.Pet.delete *)
| ExpenseCreate (e : ExpenseData)              (* base44.entities.Expense.create *)
| Notify (n : Note)                            (* showNotification *)
| RecordDeath (s : DeathStats)                 (* setDeathStats(..); setPetDied(true) *)
| SetIsEvolving (b : bool)
| SetPerformingTrick (t : option string).

(** The Expense records a run of effects creates. *)
Definition created_expenses (es : list Effect) : list ExpenseData :=
  flat_map (fun e => match e with ExpenseCreate x => [x] | _ => [] end) es.

(** The partial objects a run of effects hands to [Pet.update]. *)
Definition issued_updates (es : list Effect) : list Updates :=
  flat_map (fun e => match e with PetUpdate _ u => [u] | _ => [] end) es.

(* ================================================================== *)
(** ** Age-scaled prices ([PetCare.jsx], lines 112-122) *)

(** [getCostMultiplier]: 20% more every 5 days. *)
Definition getCostMultiplier (pet : Pet) : Q :=
  let ageGroup := (days_alive pet / 5)%Z in
  1 + inject_Z ageGroup * (2 # 10).

(** [getInsuranceCost]: half a coin more every 5 days. *)
Definition getInsuranceCost (pet : Pet) : Q :=
  let ageGroup := (days_alive pet / 5)%Z in
  (1 # 2) + inject_Z ageGroup * (1 # 2).

(* ================================================================== *)
(** ** The day-advance: [progressDay] ([PetCare.jsx], lines 164-226) *)

(** The values [Math.random()] returns to one run of [progressDay], in the
    order of the calls. *)
Record Draws : Type := mkDraws {
  rHunger : Q;
  rHygiene : Q;
  rEnergy : Q;
  rHealth : Q
}.

(** [Math.random()] lies in the half-open unit interval. *)
Definition unit_draw (r : Q) : Prop := 0 <= r /\ r < 1.

Definition draws_ok (d : Draws) : Prop :=
  unit_draw (rHunger d) /\ unit_draw (rHygiene d) /\
  unit_draw (rEnergy d) /\ unit_draw (rHealth d).

(** The four need stats the health rule looks at, in the order of the
    array literal [[pet.hunger, pet.happiness, pet.hygiene, pet.energy]]. *)
Definition needs (pet : Pet) : list Q :=
  [hunger pet; happiness pet; hygiene pet; energy pet].

Definition criticalStats (pet : Pet) : nat :=
  Js.count (fun s => Js.lt s 25) (needs pet).

Definition lowStats (pet : Pet) : nat :=
  Js.count (fun s => Js.lt s 50) (needs pet).

(** Lines 165-184: the counters and the decay of the four needs. *)
Definition decayUpdates (pet : Pet) (now : Z) (d : Draws) : Updates :=
  let ageMultiplier := 1 + inject_Z (days_alive pet / 15)%Z * (1 # 10) in
  let hungerDecay := (5 + rHunger d * 8) * ageMultiplier in
  let hygieneDecay := (4 + rHygiene d * 6) * ageMultiplier in
  let energyDecay := (3 + rEnergy d * 4) * ageMultiplier in
  let happinessDecay := 3 in
  [ SetDaysAlive (days_alive pet + 1)%Z;
    SetLastFed now;
    SetExperience (experience pet + 1)%Z;
    SetHunger (Js.max 0 (hunger pet - hungerDecay));
    SetHygiene (Js.max 0 (hygiene pet - hygieneDecay));
    SetEnergy (Js.max 0 (energy pet - energyDecay));
    SetHappiness (Js.max 0 (happiness pet - happinessDecay)) ].

(** Lines 186-202: the health rule.  It extends [updates] with a [health]
    entry in three of its four cases. *)
Definition healthRule (pet : Pet) (r : Q) (updates : Updates) : Updates :=
  if (2 <=? criticalStats pet)%nat then
    let healthDecay := 8 + r * 7 in
    updates ++ [SetHealth (Js.max 0 (health pet - healthDecay))]
  else if (3 <=? lowStats pet)%nat then
    let healthDecay := 3 + r * 4 in
    updates ++ [SetHealth (Js.max 0 (health pet - healthDecay))]
  else if (lowStats pet =? 0)%nat && Js.lt (health pet) 100 then
    updates ++ [SetHealth (Js.min 100 (health pet + 5))]
  else
    updates.

(** Line 206: [pet.has_insurance && updates.health < 20].  An absent
    [updates.health] is [undefined], and [undefined < 20] is false. *)
Definition insuranceEngages (pet : Pet) (updates : Updates) : bool :=
  has_insurance pet &&
  match get_health updates with
  | Some h => Js.lt h 20
  | None => false
  end.

(** The object handed to [updatePetMutation.mutate] at line 225. *)
Definition dayUpdates (pet : Pet) (now : Z) (d : Draws) : Updates :=
  let updates := decayUpdates pet now d in
  let updates := healthRule pet (rHealth d) updates in
  let updates :=
    if insuranceEngages pet updates then updates ++ [SetHealth 20]
    else updates in
  if has_insurance pet then
    updates ++ [SetCoins (Js.max 0 (coins pet - getInsuranceCost pet))]
  else updates.

Definition progressDay (pet : Pet) (now : Z) (d : Draws) : list Effect :=
  let updates := healthRule pet (rHealth d) (decayUpdates pet now d) in
  (if insuranceEngages pet updates then [Notify InsuranceSaved] else []) ++
  (if has_insurance pet then
     [ExpenseCreate (mkExpense (id pet) "insurance" (getInsuranceCost pet)
                               "Daily insurance payment")]
   else []) ++
  [PetUpdate (id pet) (dayUpdates pet now d)].


(* ================================================================== *)
(** ** Care actions ([CareActions.jsx] and [handleCareAction]) *)

(** The [actions] table of [CareActions.jsx]: identifier and base cost. *)
Module Act.
Inductive t : Type := feed | play | rest | clean | health.

Definition id (a : t) : string :=
  match a with
  | feed => "feed"
  | play => "play"
  | rest => "rest"
  | clean => "clean"
  | health => "health"
  end.

Definition cost (a : t) : Q :=
  match a with
  | feed => 10
  | play => 5
  | rest => 0
  | clean => 7
  | health => 15
  end.

Definition all : list t := [feed; play; rest; clean; health].
End Act.

(** The button row.  A button passes its action and the BASE cost to
    [onAction]; it is disabled, and its [onClick] never runs, while
    [disabled || !canAfford]. *)
Module CareActions.
Definition actualCost (a : Act.t) (costMultiplier : Q) : Q :=
  Js.ceil (Act.cost a * costMultiplier).

Definition canAfford (coins : Q) (a : Act.t) (costMultiplier : Q) : bool :=
  Js.ge coins (actualCost a costMultiplier).

Definition click (onAction : Act.t -> Q -> list Effect)
    (coins : Q) (disabled : bool) (costMultiplier : Q) (a : Act.t)
    : list Effect :=
  if disabled || negb (canAfford coins a costMultiplier) then []
  else onAction a (Act.cost a).
End CareActions.

(** [handleCareAction(action, baseCost)], lines 313-373.  The [switch]
    yields the stat entries, the achievements, the expense description and
    the notifications of the action. *)
Definition handleCareAction (pet : Pet) (action : Act.t) (baseCost : Q)
    : list Effect :=
  let cost := baseCost * getCostMultiplier pet in
  if Js.lt (coins pet) cost then [] else
  let updates := [SetCoins (coins pet - cost)] in
  let newAchievements := achievements pet in
  let '(updates, newAchievements, expenseDescription, notes) :=
    match action with
    | Act.feed =>
        let first := negb (Js.includes newAchievements "first_feed") in
        (updates ++ [SetHunger (Js.min 100 (hunger pet + 30));
                     SetEnergy (Js.min 100 (energy pet + 10))],
         if first then newAchievements ++ ["first_feed"%string]
         else newAchievements,
         "Fed pet"%string,
         (if first then [Notify AchievementFirstMeal] else [])
           ++ [Notify Fed])
    | Act.play =>
        (updates ++ [SetHappiness (Js.min 100 (happiness pet + 25));
                     SetEnergy (Js.max 0 (energy pet - 10))],
         newAchievements, "Played with pet"%string, [Notify Played])
    | Act.rest =>
        (updates ++ [SetEnergy (Js.min 100 (energy pet + 40));
                     SetHappiness (Js.min 100 (happiness pet + 5))],
         newAchievements, "Pet rest time"%string, [Notify Rested])
    | Act.clean =>
        (updates ++ [SetHygiene (Js.min 100 (hygiene pet + 35));
                     SetHappiness (Js.min 100 (happiness pet + 5))],
         newAchievements, "Cleaned pet"%string, [Notify Cleaned])
    | Act.health =>
        (updates ++ [SetHealth (Js.min 100 (health pet + 30))],
         newAchievements, "Health checkup"%string, [Notify HealthChecked])
    end in
  let updates := updates ++ [SetAchievements newAchievements] in
  notes ++
  (if Js.gt cost 0 then
     [ExpenseCreate (mkExpense (id pet) (Act.id action) cost
                               expenseDescription)]
   else []) ++
  [PetUpdate (id pet) updates].

(** A click on the button of [a], as [PetCare] mounts the row:
    [onAction={handleCareAction}], [coins={pet.coins}],
    [costMultiplier={getCostMultiplier()}]. *)
Definition careClick (pet : Pet) (isPending : bool) (a : Act.t)
    : list Effect :=
  CareActions.click (handleCareAction pet) (coins pet) isPending
                    (getCostMultiplier pet) a.

(* ================================================================== *)
(** ** Mini-game rewards and [handleGameComplete] *)

(** What a finished game knows when its [handleFinish] runs. *)
Inductive GameResult : Type :=
| TrashGame (r : Q)                    (* the draw of Math.random() *)
| WireGame (mistakes : Z)
| WindowGame (totalDirty remainingDirty : Z).

(** [WindowGame]: the percentage kept in [cleanPercentage]. *)
Definition cleanPercentage (totalDirty remainingDirty : Z) : Q :=
  let cleaned := (totalDirty - remainingDirty)%Z in
  if (0 <? totalDirty)%Z then
    Js.min 100 (Js.round (inject_Z cleaned / inject_Z totalDirty * 100))
  else 0.

(** The argument the game passes to [onComplete]. *)
Definition reward (g : GameResult) : Q :=
  match g with
  | TrashGame r => 5 + Js.floor (r * 6)
  | WireGame mistakes =>
      let baseReward := 30 in
      let penalty := inject_Z mistakes * 5 in
      Js.max (baseReward - penalty) 10
  | WindowGame totalDirty remainingDirty =>
      Js.round (cleanPercentage totalDirty remainingDirty * (25 # 100))
  end.

(** Lines 375-396. *)
Definition handleGameComplete (pet : Pet) (reward : Q) : list Effect :=
  let newCoins := coins pet + reward in
  let wealthy :=
    Js.ge newCoins 200 && negb (Js.includes (achievements pet) "wealthy") in
  let newAchievements :=
    if wealthy then achievements pet ++ ["wealthy"%string]
    else achievements pet in
  (if wealthy then [Notify AchievementWealthy] else []) ++
  [PetUpdate (id pet) [SetCoins newCoins; SetAchievements newAchievements];
   Notify (Earned reward)].

(* ================================================================== *)
(** ** Insurance purchase ([handleBuyInsurance], lines 398-418) *)

Definition handleBuyInsurance (pet : Pet) : list Effect :=
  if Js.lt (coins pet) 15 then [] else
  [ExpenseCreate (mkExpense (id pet) "insurance" 15
                            "Insurance activation fee");
   PetUpdate (id pet)
     [SetHasInsurance true;
      SetCoins (coins pet - 15);
      SetAchievements (achievements pet ++ ["insured"%string])];
   Notify InsuranceActivated].

(* ================================================================== *)
(** ** Tricks (lines 1151-1165 and 1370-1451) *)

(** The trick table of the Tricks modal. *)
Module Trick.
Inductive t : Type := roll | dead | dance | fireball.

Definition name (k : t) : string :=
  match k with
  | roll => "Roll Over"
  | dead => "Play Dead"
  | dance => "Dance"
  | fireball => "Fireball"
  end.

Definition id (k : t) : string :=
  match k with
  | roll => "roll"
  | dead => "dead"
  | dance => "dance"
  | fireball => "fireball"
  end.

Definition cost (k : t) : Q :=
  match k with
  | roll => 20
  | dead => 30
  | dance => 50
  | fireball => 100
  end.

Definition all : list t := [roll; dead; dance; fireball].
End Trick.

(** A click in the row of [trick] under Learn New Tricks.  A row whose
    [unlocked] flag is set renders a label and no button; otherwise the
    button is disabled while [pet.coins < trick.cost], and its handler
    tests [pet.coins >= trick.cost] once more. *)
Definition learnTrickClick (pet : Pet) (trick : Trick.t) : list Effect :=
  let unlocked := Js.includes (tricks pet) (Trick.id trick) in
  if unlocked then []
  else if Js.lt (coins pet) (Trick.cost trick) then []
  else if Js.ge (coins pet) (Trick.cost trick) then
    [PetUpdate (id pet)
       [SetCoins (coins pet - Trick.cost trick);
        SetTricks (tricks pet ++ [Trick.id trick])];
     Notify (Learned (Trick.name trick))]
  else [].

(** [onPerformTrick(trick)] and the Quick Perform handler (same body). *)
Definition onPerformTrick (pet : Pet) (performingTrick : option string)
    (trick : Trick.t) : list Effect :=
  if Js.ge (energy pet) 10
     && match performingTrick with None => true | Some _ => false end
  then
    [SetPerformingTrick (Some (Trick.id trick));
     PetUpdate (id pet)
       [SetHappiness (Js.min 100 (happiness pet + 15));
        SetEnergy (Js.max 0 (energy pet - 10));
        SetExperience (experience pet + 1)%Z];
     Notify (Performed (name pet) (Trick.name trick))]
  else [].

(** Perform buttons exist for the tricks found in [pet.tricks] only. *)
Definition performTrickClick (pet : Pet) (performingTrick : option string)
    (trick : Trick.t) : list Effect :=
  if Js.includes (tricks pet) (Trick.id trick)
  then onPerformTrick pet performingTrick trick
  else [].

(* ================================================================== *)
(** ** Toy shop (lines 1486-1525) *)

(** The toy table of the Toy Shop modal.  [ownedKey] is the literal the
    row passes to [pet.toys?.includes] for its [owned] flag. *)
Module Toy.
Inductive t : Type := ball | squeaky | wand | crown.

Definition name (k : t) : string :=
  match k with
  | ball => "Ball"
  | squeaky => "Squeaky Toy"
  | wand => "Magic Wand"
  | crown => "Golden Crown"
  end.

Definition cost (k : t) : Q :=
  match k with
  | ball => 10
  | squeaky => 20
  | wand => 40
  | crown => 100
  end.

Definition happiness (k : t) : Q :=
  match k with
  | ball => 5
  | squeaky => 10
  | wand => 15
  | crown => 25
  end.

Definition ownedKey (k : t) : string :=
  match k with
  | ball => "ball"
  | squeaky => "squeaky"
  | wand => "wand"
  | crown => "crown"
  end.

(** The identifier a purchase stores:
    [toy.name.toLowerCase().replace(' ', '')]. *)
Definition id (k : t) : string :=
  Js.removeFirstSpace (Js.toLowerCase (name k)).

Definition all : list t := [ball; squeaky; wand; crown].
End Toy.

(** A click in the row of [toy]: no button while [owned], a disabled one
    while [pet.coins < toy.cost]. *)
Definition buyToyClick (pet : Pet) (toy : Toy.t) : list Effect :=
  let owned := Js.includes (toys pet) (Toy.ownedKey toy) in
  if owned then []
  else if Js.lt (coins pet) (Toy.cost toy) then []
  else if Js.ge (coins pet) (Toy.cost toy) then
    [PetUpdate (id pet)
       [SetCoins (coins pet - Toy.cost toy);
        SetToys (toys pet ++ [Toy.id toy]);
        SetHappiness (Js.min 100 (happiness pet + Toy.happiness toy))];
     Notify (Bought (Toy.name toy))]
  else [].

(* ================================================================== *)
(** ** The death check and the evolution check (lines 242-306) *)

(** The effect on [[pet?.health, petDied, expenses]]. *)
Definition deathCheck (pet : Pet) (petDied : bool)
    (expenses : list ExpenseData) : list Effect :=
  if Js.le (health pet) 0 && negb petDied then
    let totalSpent := fold_left (fun sum exp => sum + amount exp) expenses 0 in
    [RecordDeath
       {| ds_name := name pet;
          daysLived := if (days_alive pet =? 0)%Z then 1%Z else days_alive pet;
          ds_happiness := happiness pet;
          totalSpent := Js.round totalSpent;
          ds_achievements := List.length (achievements pet);
          ds_coins := coins pet |}]
  else [].

(** The effect on [[pet?.experience, pet?.stage, isEvolving]].  The
    notification is issued by [onSuccess]; the timer it starts clears
    [isEvolving] a second later ([World.EvolveDebounce]). *)
Definition evolutionCheck (pet : Pet) (isEvolving : bool) : list Effect :=
  if isEvolving then []
  else if Stage_eqb (stage pet) egg && (3 <=? experience pet)%Z then
    [SetIsEvolving true;
     PetUpdate (id pet)
       [SetStage hatchling;
        SetExperience 0;
        SetAchievements (achievements pet ++ ["hatchling"%string])];
     Notify Hatched]
  else if Stage_eqb (stage pet) hatchling && (5 <=? experience pet)%Z then
    [SetIsEvolving true;
     PetUpdate (id pet)
       [SetStage grown;
        SetExperience (experience pet);
        SetAchievements (achievements pet ++ ["fully_grown"%string])];
     Notify FullyGrown]
  else [].

(** [handleAdoptNewPet] and a confirmed [handleResetPet]. *)
Definition handleAdoptNewPet (pet : Pet) : list Effect := [PetDelete (id pet)].
Definition handleResetPet (pet : Pet) : list Effect := [PetDelete (id pet)].

(* ================================================================== *)
(** ** The entity store ([api/base44Client.js]) *)

(** A stored Expense: the created fields and the identifier assigned. *)
Record Expense : Type := mkStored {
  expense_id : N;
  fields : ExpenseData
}.

Record Store : Type := mkStore {
  pets : list Pet;
  expenses : list Expense;
  next_id : N
}.

(** The object literal given to [Pet.create], awaiting the identifier and
    the creation date the store assigns. *)
Definition NewPet := PetId -> Z -> Pet.

(** The operations of [base44.entities], on their success path. *)
Module Base44.
Definition Pet_list (s : Store) : list Pet := pets s.

Definition Pet_create (s : Store) (data : NewPet) (now : Z) : Store :=
  mkStore (pets s ++ [data (next_id s) now]) (expenses s) (next_id s + 1)%N.

Definition Pet_update (s : Store) (target : PetId) (data : Updates) : Store :=
  mkStore
    (map (fun p => if (id p =? target)%N then applyUpdates p data else p)
         (pets s))
    (expenses s) (next_id s).

Definition Pet_delete (s : Store) (target : PetId) : Store :=
  mkStore (filter (fun p => negb (id p =? target)%N) (pets s))
          (expenses s) (next_id s).

Definition Expense_filter (s : Store) (owner : PetId) : list Expense :=
  filter (fun e => (pet_id (fields e) =? owner)%N) (expenses s).

Definition Expense_create (s : Store) (data : ExpenseData) : Store :=
  mkStore (pets s) (expenses s ++ [mkStored (next_id s) data])
          (next_id s + 1)%N.

Definition Expense_delete (s : Store) (target : N) : Store :=
  mkStore (pets s)
          (filter (fun e => negb (expense_id e =? target)%N) (expenses s))
          (next_id s).
End Base44.

(* ================================================================== *)
(** ** Adoption ([PetAdopt.jsx]) *)

Module PetAdopt.

(** The code units of an ASCII literal. *)
Definition units (s : string) : Name :=
  map N_of_ascii (list_ascii_of_string s).

(** The white space and line terminators of ECMAScript: what [trim]
    strips and what the class [\s] matches. *)
Definition isWhiteSpace (c : N) : bool :=
  ((9 <=? c) && (c <=? 13) || (c =? 32) || (c =? 160) || (c =? 5760)
   || (8192 <=? c) && (c <=? 8202) || (c =? 8232) || (c =? 8233)
   || (c =? 8239) || (c =? 8287) || (c =? 12288) || (c =? 65279))%N.

Fixpoint trimStart (s : Name) : Name :=
  match s with
  | [] => []
  | c :: s' => if isWhiteSpace c then trimStart s' else s
  end.

Definition trim (s : Name) : Name := rev (trimStart (rev (trimStart s))).

(** One unit of the class [[a-zA-Z0-9\s'-]]. *)
Definition nameUnit (c : N) : bool :=
  ((97 <=? c) && (c <=? 122) || (65 <=? c) && (c <=? 90)
   || (48 <=? c) && (c <=? 57) || isWhiteSpace c
   || (c =? 39) || (c =? 45))%N.

(** [validNamePattern.test(s)]: one or more units of the class. *)
Definition validNamePattern (s : Name) : bool :=
  match s with
  | [] => false
  | _ :: _ => forallb nameUnit s
  end.

Fixpoint startsWith (s word : Name) : bool :=
  match word, s with
  | [], _ => true
  | _ :: _, [] => false
  | w :: word', c :: s' => (w =? c)%N && startsWith s' word'
  end.

(** [s.includes(word)] on strings. *)
Fixpoint includes (s word : Name) : bool :=
  startsWith s word ||
  match s with
  | [] => false
  | _ :: s' => includes s' word
  end.

(** [s.toLowerCase()]; reached only once the pattern has passed, where
    the letters A to Z are the only units with a lower case. *)
Definition toLowerCase (s : Name) : Name := map Js.lowerUnit s.

Definition inappropriateWords : list Name :=
  [units "test123"; units "admin"; units "null"; units "undefined"].

(** [validatePetName]: the error message, or the empty string. *)
Definition validatePetName (name : Name) : string :=
  let trimmedName := trim name in
  match trimmedName with
  | [] => "Please enter a name for your pet"
  | _ :: _ =>
      if (List.length trimmedName <? 2)%nat then
        "Name must be at least 2 characters"
      else if (20 <? List.length trimmedName)%nat then
        "Name must be 20 characters or less"
      else if negb (validNamePattern trimmedName) then
        "Name can only contain letters, numbers, spaces, hyphens, and apostrophes"
      else if existsb (fun word => includes (toLowerCase trimmedName) word)
                      inappropriateWords then
        "Please choose a different name"
      else EmptyString
  end.

(** The component state [handleAdopt] reads. *)
Record Form : Type := mkForm {
  petName : Name;
  selectedPet : option Species;
  selectedColor : string
}.

(** Lines 213-220: the expenses of one existing pet, then the pet. *)
Definition deletePet (s : Store) (pet : Pet) : Store :=
  let expenses := Base44.Expense_filter s (id pet) in
  let s := fold_left (fun s expense =>
                        Base44.Expense_delete s (expense_id expense))
                     expenses s in
  Base44.Pet_delete s (id pet).

(** Lines 223-240: the pet [handleAdopt] creates. *)
Definition newPet (form : Form) (species : Species) : NewPet :=
  fun assigned now =>
    {| id := assigned;
       name := trim (petName form);
       species := species;
       stage := egg;
       hunger := 50;
       happiness := 50;
       energy := 50;
       hygiene := 50;
       health := 100;
       experience := 0;
       coins := 50;
       has_insurance := false;
       last_fed := None;
       achievements := [];
       color_variant := selectedColor form;
       days_alive := 0;
       tricks := [];
       toys := [];
       created_date := now |}.

Inductive Outcome : Type :=
| NameRejected (error : string)   (* setNameError(error); return *)
| NothingSelected                 (* if (!selectedPet) return *)
| Adopted (s : Store).            (* navigate to PetCare *)

(** [handleAdopt], lines 199-252, with every store call succeeding. *)
Definition handleAdopt (form : Form) (s : Store) (now : Z) : Outcome :=
  let error := validatePetName (petName form) in
  if Js.truthy error then NameRejected error
  else
    match selectedPet form with
    | None => NothingSelected
    | Some species =>
        let existingPets := Base44.Pet_list s in
        let s := fold_left deletePet existingPets s in
        Adopted (Base44.Pet_create s (newPet form species) now)
    end.

End PetAdopt.

(* ================================================================== *)
(** ** The PetCare page as a transition system *)

(** The store together with the React state of the page the properties
    depend on; [shown] logs the notifications in order. *)
Record World : Type := mkWorld {
  store : Store;
  petDied : bool;
  deathStats : option DeathStats;
  isEvolving : bool;
  performingTrick : option string;
  shown : list Note
}.

(** [const pet = pets?.[0]]. *)
Definition currentPet (w : World) : option Pet := hd_error (pets (store w)).

(** A newly mounted page over a store. *)
Definition freshPage (s : Store) : World :=
  mkWorld s false None false None [].

Definition apply_effect (w : World) (e : Effect) : World :=
  let '(mkWorld s died stats evolving trick log) := w in
  match e with
  | PetUpdate target data =>
      mkWorld (Base44.Pet_update s target data) died stats evolving trick log
  | PetDelete target =>
      mkWorld (Base44.Pet_delete s target) died stats evolving trick log
  | ExpenseCreate x =>
      mkWorld (Base44.Expense_create s x) died stats evolving trick log
  | Notify n => mkWorld s died stats evolving trick (log ++ [n])
  | RecordDeath st => mkWorld s true (Some st) evolving trick log
  | SetIsEvolving b => mkWorld s died stats b trick log
  | SetPerformingTrick t => mkWorld s died stats evolving t log
  end.

Definition run (w : World) (es : list Effect) : World :=
  fold_left apply_effect es w.

(** What can happen to the page: timers, React effects and clicks. *)
Inductive Event : Type :=
| DayTimeout (now : Z) (d : Draws)   (* setTimeout(progressDay, ...) fires *)
| DeathEffect                        (* the death-check effect runs *)
| EvolutionEffect                    (* the evolution effect runs *)
| EvolveDebounce                     (* setTimeout(() => setIsEvolving(false)) *)
| TrickTimeout                       (* setTimeout(() => setPerformingTrick(null)) *)
| CareClick (a : Act.t)
| GameComplete (g : GameResult)
| BuyInsuranceClick
| LearnTrickClick (t : Trick.t)
| PerformTrickClick (t : Trick.t)
| BuyToyClick (t : Toy.t)
| ResetPetClick
| AdoptNewPetClick
| Adopt (form : PetAdopt.Form) (now : Z).

(** [if (petDied && deathStats) return <the memorial screen>]: the page
    then renders neither the care row nor the shops nor the games. *)
Definition deathScreen (w : World) : bool :=
  petDied w && match deathStats w with Some _ => true | None => false end.

(** The calls an event makes on a page whose pet is [pet].  The hooks
    (timers and effects) are declared above the early returns of the
    component and run whatever is rendered; the clicks need their button
    on screen.  Store calls complete at once, so that
    [updatePetMutation.isPending], which disables the care row, is
    false when a click arrives, and the expenses query holds what the
    store holds.  For the day timer [pet] is the pet of the render in
    which the timer was armed: [step] below hands it the stored pet,
    which is that pet as long as nothing but day-advances has changed
    the pet; [pageStep] further down keeps track of the pet the timer
    holds. *)
Definition handle (w : World) (pet : Pet) (e : Event) : list Effect :=
  match e with
  | DayTimeout now d => progressDay pet now d
  | DeathEffect =>
      deathCheck pet (petDied w)
        (map fields (Base44.Expense_filter (store w) (id pet)))
  | EvolutionEffect => evolutionCheck pet (isEvolving w)
  | EvolveDebounce => [SetIsEvolving false]
  | TrickTimeout => [SetPerformingTrick None]
  | AdoptNewPetClick => if deathScreen w then handleAdoptNewPet pet else []
  | Adopt _ _ => []
  | click =>
      if deathScreen w then []
      else
        match click with
        | CareClick a => careClick pet false a
        | GameComplete g => handleGameComplete pet (reward g)
        | BuyInsuranceClick => handleBuyInsurance pet
        | LearnTrickClick t => learnTrickClick pet t
        | PerformTrickClick t => performTrickClick pet (performingTrick w) t
        | BuyToyClick t => buyToyClick pet t
        | ResetPetClick => handleResetPet pet
        | _ => []
        end
  end.

Definition step (w : World) (e : Event) : World :=
  match e with
  | Adopt form now =>
      match PetAdopt.handleAdopt form (store w) now with
      | PetAdopt.Adopted s => freshPage s
      | _ => w
      end
  | _ =>
      match currentPet w with
      | None => w
      | Some pet => run w (handle w pet e)
      end
  end.

(** The parameters an event can carry. *)
Definition game_ok (g : GameResult) : Prop :=
  match g with
  | TrashGame r => unit_draw r
  | WireGame mistakes => (0 <= mistakes)%Z
  | WindowGame totalDirty remainingDirty =>
      (0 <= remainingDirty <= totalDirty)%Z
  end.

Definition event_ok (e : Event) : Prop :=
  match e with
  | DayTimeout _ d => draws_ok d
  | GameComplete g => game_ok g
  | _ => True
  end.

Definition emptyStore : Store := mkStore [] [] 0.

(** The worlds a session can be in, starting from an empty store. *)
Inductive reachable : World -> Prop :=
| reach_init : reachable (freshPage emptyStore)
| reach_step (w : World) (e : Event) :
    reachable w -> event_ok e -> reachable (step w e).

(** The value of [updates.health] when control reaches line 204, that is
    after the health rule and before the insurance protection. *)
Definition ruledHealth (pet : Pet) (now : Z) (d : Draws) : option Q :=
  get_health (healthRule pet (rHealth d) (decayUpdates pet now d)).

(** [q] differs from [p] in stage, experience and achievements at most. *)
Definition same_but_growth (p q : Pet) : Prop :=
  id q = id p /\ name q = name p /\ species q = species p
  /\ hunger q = hunger p /\ happiness q = happiness p
  /\ energy q = energy p /\ hygiene q = hygiene p /\ health q = health p
  /\ coins q = coins p /\ has_insurance q = has_insurance p
  /\ last_fed q = last_fed p /\ color_variant q = color_variant p
  /\ days_alive q = days_alive p /\ tricks q = tricks p /\ toys q = toys p
  /\ created_date q = created_date p.

(** One day-advance followed by one run of the evolution effect. *)
Definition dayThenCheck (w : World) (now : Z) (d : Draws) : World :=
  step (step w (DayTimeout now d)) EvolutionEffect.

(** Effects that touch neither the pets nor the page flags. *)
Definition quiet (e : Effect) : bool :=
  match e with
  | Notify _ | ExpenseCreate _ => true
  | _ => false
  end.

(** The store [handleAdopt] has in hand when it calls [Pet.create]. *)
Definition clearedStore (s : Store) : Store :=
  fold_left PetAdopt.deletePet (Base44.Pet_list s) s.

(** The bounds of the data model. *)
Definition stat_ok (v : Q) : Prop := 0 <= v /\ v <= 100.

Definition pet_ok (p : Pet) : Prop :=
  stat_ok (hunger p) /\ stat_ok (happiness p) /\ stat_ok (energy p)
  /\ stat_ok (hygiene p) /\ stat_ok (health p)
  /\ 0 <= coins p /\ (0 <= experience p)%Z /\ (0 <= days_alive p)%Z.

(** An entry of an update that keeps the field it writes within bounds. *)
Definition assign_ok (a : Assign) : Prop :=
  match a with
  | SetHunger v | SetHygiene v | SetEnergy v | SetHappiness v | SetHealth v =>
      stat_ok v
  | SetCoins v => 0 <= v
  | SetExperience v | SetDaysAlive v => (0 <= v)%Z
  | _ => True
  end.

Definition effect_ok (e : Effect) : Prop :=
  match e with
  | PetUpdate _ u => Forall assign_ok u
  | _ => True
  end.

(** A run of effects deducts coins from [pet] when an update it issues
    sets [coins] below the pet's. *)
Definition deducts (pet : Pet) (es : list Effect) : Prop :=
  exists u c, In u (issued_updates es) /\ get_coins u = Some c /\ c < coins pet.

(** The run creates exactly one Expense record, owned by [pet]. *)
Definition ledgered (pet : Pet) (es : list Effect) : Prop :=
  exists x, created_expenses es = [x] /\ pet_id x = id pet.

(* ================================================================== *)
(** ** The day timer ([PetCare.jsx], lines 124-131 and 153-162) *)

(** [getDayDuration], in milliseconds: two minutes, ten seconds less every
    ten days, never under one minute. *)
Definition getDayDuration (pet : option Pet) : Z :=
  match pet with
  | None => 120000
  | Some pet =>
      let ageGroup := (days_alive pet / 10)%Z in
      let duration := Z.max 60 (120 - ageGroup * 10) in
      (duration * 1000)%Z
  end.

(** What the timer effect computes before it arms [setTimeout]: the delay
    of the timeout and the seconds put into [dayTimeLeft].  The remainder
    [%] of JavaScript takes the sign of its dividend, as [Z.rem] does. *)
Record DayTimer : Type := mkDayTimer {
  timeUntilNextDay : Z;
  dayTimeLeft : Z
}.

Definition scheduleDay (pet : Pet) (now : Z) : DayTimer :=
  let dayDuration := getDayDuration (Some pet) in
  let lastUpdate :=
    match last_fed pet with
    | Some t => t
    | None => created_date pet
    end in
  let timeSinceLastUpdate := (now - lastUpdate)%Z in
  let timeUntilNextDay :=
    (dayDuration - Z.rem timeSinceLastUpdate dayDuration)%Z in
  mkDayTimer timeUntilNextDay (timeUntilNextDay / 1000)%Z.

(* ================================================================== *)
(** ** The memorial ([handleBuyMemorial], [handleCreateMemorial],
       lines 428-479) *)

Module Memorial.

(** The three styles the modal offers to [setMemorialType]. *)
Inductive Style : Type := basic | golden | legendary.

(** The table [costs]. *)
Definition cost (s : Style) : Q :=
  match s with
  | basic => 50
  | golden => 75
  | legendary => 100
  end.

(** The record handed to [Memorial.create]. *)
Record t : Type := mk {
  pet_name : Name;
  species : Species;
  color_variant : string;
  days_lived : Z;
  stage_reached : Stage;
  achievements : list string;
  tricks_learned : list string;
  date_adopted : Z;
  date_passed : Z;
  epitaph : string;
  memorial_type : Style;
  total_coins_earned : Q
}.

Inductive Toast : Type :=
| NotEnoughCoins     (* Not enough coins for this memorial type *)
| Created.           (* Memorial created. Your pet will be remembered forever. *)

(** The calls of [handleCreateMemorial], in program order. *)
Inductive Call : Type :=
| Notify (n : Toast)
| Create (m : t)           (* base44.entities.Memorial.create *)
| DeletePet (target : PetId).  (* base44.entities.Pet.delete *)

End Memorial.

(** [handleBuyMemorial]: whether the customization modal opens. *)
Definition handleBuyMemorial (deathStats : option DeathStats) : bool :=
  match deathStats with
  | None => false
  | Some stats => negb (Js.lt (ds_coins stats) 50)
  end.

(** [handleCreateMemorial], with every store call succeeding.
    [pet.color_variant || 'default'] replaces an empty variant. *)
Definition handleCreateMemorial (pet : option Pet)
    (deathStats : option DeathStats) (memorialType : Memorial.Style)
    (memorialEpitaph : string) (now : Z) : list Memorial.Call :=
  match pet, deathStats with
  | Some pet, Some stats =>
      let cost := Memorial.cost memorialType in
      if Js.lt (ds_coins stats) cost then
        [Memorial.Notify Memorial.NotEnoughCoins]
      else
        let memorialData :=
          Memorial.mk (name pet) (species pet)
            (if Js.truthy (color_variant pet) then color_variant pet
             else "default")
            (daysLived stats) (stage pet) (achievements pet) (tricks pet)
            (created_date pet) now memorialEpitaph memorialType
            (totalSpent stats) in
        [Memorial.Create memorialData;
         Memorial.Notify Memorial.Created;
         Memorial.DeletePet (id pet)]
  | _, _ => []
  end.

(* ================================================================== *)
(** ** The expense report ([ExpenseChart.jsx], lines 258-287) *)

Module ExpenseChart.

(** [expenses.reduce((sum, exp) => sum + exp.amount, 0)]. *)
Definition totalExpenses (expenses : list ExpenseData) : Q :=
  fold_left (fun sum exp => sum + amount exp) expenses 0.

(** The object [acc], as its keys in insertion order with their values. *)
Definition Totals := list (string * Q).

Fixpoint lookup (acc : Totals) (key : string) : option Q :=
  match acc with
  | [] => None
  | (k, v) :: acc' => if String.eqb k key then Some v else lookup acc' key
  end.

(** [acc[key] = v]: the value of an existing key is replaced in place, a
    new key goes to the end. *)
Fixpoint assign (acc : Totals) (key : string) (v : Q) : Totals :=
  match acc with
  | [] => [(key, v)]
  | (k, w) :: acc' =>
      if String.eqb k key then (k, v) :: acc'
      else (k, w) :: assign acc' key v
  end.

(** [acc[exp.type] = (acc[exp.type] || 0) + exp.amount] over the
    expenses, from the empty object. *)
Definition expensesByType (expenses : list ExpenseData) : Totals :=
  fold_left
    (fun acc exp =>
       let old := match lookup acc (type exp) with
                  | Some v => v
                  | None => 0
                  end in
       assign acc (type exp) (old + amount exp))
    expenses [].

(** The sum of the category totals. *)
Definition entriesSum (acc : Totals) : Q :=
  fold_right (fun kv s => snd kv + s) 0 acc.

(** [Math.max(...Object.values(expensesByType), 1)]. *)
Definition maxCategoryValue (acc : Totals) : Q :=
  fold_right (fun kv m => Js.max (snd kv) m) 1 acc.

(** The width of a category's bar, in percent:
    [(amount / maxCategoryValue) * 100]. *)
Definition barWidth (acc : Totals) (amount : Q) : Q :=
  amount / maxCategoryValue acc * 100.

(** [acc[key] || 0]. *)
Definition lookup0 (acc : Totals) (key : string) : Q :=
  match lookup acc key with
  | Some v => v
  | None => 0
  end.

(** An object whose keys all satisfy [P], each once, with a total above
    0. *)
Definition grouped (P : string -> Prop) (acc : Totals) : Prop :=
  Forall (fun kv => P (fst kv) /\ 0 < snd kv) acc /\ NoDup (map fst acc).

End ExpenseChart.

(* ================================================================== *)
(** ** Vocabulary of the properties *)

(** The events of the care page proper: all but an adoption, which
    replaces the pet. *)
Definition on_page (e : Event) : Prop :=
  match e with
  | Adopt _ _ => False
  | _ => True
  end.

(** What a run of effects makes of the stored pets. *)
Fixpoint settle (ps : list Pet) (es : list Effect) : list Pet :=
  match es with
  | [] => ps
  | e :: es' =>
      settle
        (match e with
         | PetUpdate target data =>
             map (fun p => if (id p =? target)%N then applyUpdates p data
                           else p) ps
         | PetDelete target => filter (fun p => negb (id p =? target)%N) ps
         | _ => ps
         end)
        es'
  end.

(** The order of the life stages. *)
Definition stage_rank (s : Stage) : nat :=
  match s with
  | egg => 0
  | hatchling => 1
  | grown => 2
  end.

(** [l] continues [k]: nothing of [k] is removed or reordered. *)
Definition extends (k l : list string) : Prop := exists more, l = k ++ more.

(** The types under which the care page files its expenses. *)
Definition ledgerTypes : list string :=
  ["feed"; "play"; "clean"; "health"; "insurance"]%string.

Definition expense_ok (x : ExpenseData) : Prop :=
  In (type x) ledgerTypes /\ 0 < amount x.

(** A run of effects whose updates all satisfy [U]. *)
Definition effects_satisfy (U : Updates -> Prop) (e : Effect) : Prop :=
  match e with
  | PetUpdate _ u => U u
  | _ => True
  end.

(** The effects that leave [petDied] and [deathStats] alone. *)
Definition keeps_record (e : Effect) : bool :=
  match e with
  | RecordDeath _ => false
  | _ => true
  end.

(** A stretch of a session on the care page: the events that lead from
    one world to another, no adoption among them. *)
Inductive page_run (w : World) : World -> Prop :=
| page_here : page_run w w
| page_step (w' : World) (e : Event) :
    page_run w w' -> on_page e -> event_ok e -> page_run w (step w' e).

(** What a pet keeps for life: [q] is [p] later on. *)
Definition progressed (p q : Pet) : Prop :=
  id q = id p /\ name q = name p /\ species q = species p
  /\ color_variant q = color_variant p /\ created_date q = created_date p
  /\ (stage_rank (stage p) <= stage_rank (stage q))%nat
  /\ (has_insurance p = true -> has_insurance q = true)
  /\ extends (achievements p) (achievements q)
  /\ extends (tricks p) (tricks q)
  /\ extends (toys p) (toys q)
  /\ (days_alive p <= days_alive q)%Z.

(** An entry of an update, computed from the snapshot [p], that takes
    nothing of the above away. *)
Definition keeps_progress (p : Pet) (a : Assign) : Prop :=
  match a with
  | SetStage s => (stage_rank (stage p) <= stage_rank s)%nat
  | SetHasInsurance b => b = true
  | SetAchievements l => extends (achievements p) l
  | SetTricks l => extends (tricks p) l
  | SetToys l => extends (toys p) l
  | SetDaysAlive v => (days_alive p <= v)%Z
  | _ => True
  end.

(** An update that sets no health under 20. *)
Definition health_floor (u : Updates) : Prop :=
  match get_health u with
  | Some v => 20 <= v
  | None => True
  end.

(** An insured pet whose health is not under 20. *)
Definition covered (p : Pet) : Prop :=
  has_insurance p = true /\ 20 <= health p.



(** A name that neither starts nor ends with white space. *)
Definition trimmed (s : Name) : Prop :=
  (forall c rest, s = c :: rest -> PetAdopt.isWhiteSpace c = false)
  /\ (forall c front, s = front ++ [c] -> PetAdopt.isWhiteSpace c = false).

(** The effects of a handler that stays with its pet: updates of [p]
    and no deletion. *)
Definition stays_with (p : Pet) (e : Effect) : Prop :=
  match e with
  | PetUpdate target _ => target = id p
  | PetDelete _ => False
  | _ => True
  end.

(** The events that leave the pet: Reset Pet and Adopt New Pet. *)
Definition leaves (e : Event) : bool :=
  match e with
  | ResetPetClick | AdoptNewPetClick => true
  | _ => false
  end.

(** An entry of the update of a care action [a] on the snapshot [p]:
    no stat is set lower, but for the 10 energy that playing takes, and
    the coins are not raised. *)
Definition care_entry (p : Pet) (a : Act.t) (x : Assign) : Prop :=
  match x with
  | SetHunger v => hunger p <= v
  | SetHappiness v => happiness p <= v
  | SetHygiene v => hygiene p <= v
  | SetHealth v => health p <= v
  | SetEnergy v =>
      match a with
      | Act.play => energy p - 10 <= v
      | _ => energy p <= v
      end
  | SetCoins v =>
      v <= coins p /\ coins p - v <= Act.cost a * getCostMultiplier p
  | _ => True
  end.

(** What a care action [a] leaves of [p] in [q]. *)
Definition cared (p : Pet) (a : Act.t) (q : Pet) : Prop :=
  hunger p <= hunger q /\ happiness p <= happiness q
  /\ hygiene p <= hygiene q /\ health p <= health q
  /\ (a <> Act.play -> energy p <= energy q)
  /\ energy p - 10 <= energy q
  /\ coins q <= coins p
  /\ coins p - coins q <= Act.cost a * getCostMultiplier p.

(** The [ageMultiplier] of [progressDay]: 10% more decay every 15
    days. *)
Definition ageMultiplier (pet : Pet) : Q :=
  1 + inject_Z (days_alive pet / 15)%Z * (1 # 10).

(** A need that fell from [before] to [after] by a decay between [lo]
    and [hi], or as far as 0. *)
Definition worn (before after lo hi : Q) : Prop :=
  0 <= after /\ after <= before
  /\ (after == 0 \/ (lo <= before - after /\ before - after < hi)).

(* ================================================================== *)
(** ** The wire game ([components/games/WireGame.jsx]) *)

Module Wires.

(** The [id]s of [wireColors]. *)
Inductive Wire : Type := red | blue | yellow | green.

Definition Wire_eqb (a b : Wire) : bool :=
  match a, b with
  | red, red | blue, blue | yellow, yellow | green, green => true
  | _, _ => false
  end.

Definition wireColors : list Wire := [red; blue; yellow; green].

(** The component state the game logic reads; [connections] holds the
    keys of the object in insertion order. *)
Record State : Type := mkState {
  selectedLeft : option Wire;
  connections : list Wire;
  gameOver : bool;
  mistakes : Z;
  timeLeft : Z
}.

(** The state a game starts in. *)
Definition start : State := mkState None [] false 0 15.

(** [connections[wire.id]]. *)
Definition connected (s : State) (wire : Wire) : bool :=
  existsb (Wire_eqb wire) (connections s).

(** The timer effect, with the timeout it arms run to its end: a second
    is taken off while the game is on, and the game is over at 0. *)
Definition tick (s : State) : State :=
  if (0 <? timeLeft s)%Z && negb (gameOver s) then
    mkState (selectedLeft s) (connections s) (gameOver s) (mistakes s)
            (timeLeft s - 1)
  else if (timeLeft s =? 0)%Z then
    mkState (selectedLeft s) (connections s) true (mistakes s) (timeLeft s)
  else s.

Definition handleLeftClick (s : State) (wire : Wire) : State :=
  if connected s wire then s
  else mkState (Some wire) (connections s) (gameOver s) (mistakes s)
               (timeLeft s).

(** [{ ...connections, [wire.id]: true }] keeps a key that is present
    where it is and puts a new one last. *)
Definition handleRightClick (s : State) (wire : Wire) : State :=
  match selectedLeft s with
  | None => s
  | Some chosen =>
      if Wire_eqb chosen wire then
        let newConnections :=
          if connected s wire then connections s
          else connections s ++ [wire] in
        mkState None newConnections
                (if (List.length newConnections =? 4)%nat then true
                 else gameOver s)
                (mistakes s) (timeLeft s)
      else
        mkState None (connections s) (gameOver s) (mistakes s + 1)
                (timeLeft s)
  end.

(** [handleFinish]: the result handed to [onComplete], as the argument
    of [reward]. *)
Definition handleFinish (s : State) : GameResult := WireGame (mistakes s).

(** What can happen to a running game. *)
Inductive Input : Type :=
| Tick
| LeftClick (wire : Wire)
| RightClick (wire : Wire).

(** The board is rendered while [!gameOver]; a left button is disabled
    for a connected wire, a right button for a connected wire or while
    no left wire is selected. *)
Definition step (s : State) (i : Input) : State :=
  match i with
  | Tick => tick s
  | LeftClick wire =>
      if gameOver s || connected s wire then s else handleLeftClick s wire
  | RightClick wire =>
      if gameOver s || connected s wire
         || match selectedLeft s with None => true | Some _ => false end
      then s
      else handleRightClick s wire
  end.

(** The clicks on a right wire among the inputs. *)
Definition rightClicks (inputs : list Input) : Z :=
  Z.of_nat
    (List.length
       (filter (fun i => match i with RightClick _ => true | _ => false end)
               inputs)).

(** What every state of a game satisfies. *)
Definition sound (s : State) : Prop :=
  (0 <= mistakes s)%Z /\ (0 <= timeLeft s <= 15)%Z
  /\ NoDup (connections s)
  /\ (List.length (connections s) = 4%nat -> gameOver s = true)
  /\ (forall c, selectedLeft s = Some c -> connected s c = false
                                          \/ gameOver s = true).

End Wires.

(* ================================================================== *)
(** ** Awards *)

(** How often [s] occurs in [l]. *)
Fixpoint occurrences (s : string) (l : list string) : nat :=
  match l with
  | [] => 0
  | x :: l' => (if String.eqb s x then 1 else 0) + occurrences s l'
  end.

(** No trick is listed twice; the achievements of the first meal and of
    wealth are listed once at most; those of hatching and of growing up
    are listed exactly when the stage says so. *)
Definition awarded_once (q : Pet) : Prop :=
  NoDup (tricks q)
  /\ (occurrences "first_feed" (achievements q) <= 1)%nat
  /\ (occurrences "wealthy" (achievements q) <= 1)%nat
  /\ occurrences "hatchling" (achievements q)
     = (if Stage_eqb (stage q) egg then 0 else 1)%nat
  /\ occurrences "fully_grown" (achievements q)
     = (if Stage_eqb (stage q) grown then 1 else 0)%nat.

(** What holds of the page's death record. *)
Definition record_ok (w : World) : Prop :=
  match deathStats w with
  | None => petDied w = false
  | Some st =>
      petDied w = true /\ (1 <= daysLived st)%Z /\ 0 <= ds_coins st
      /\ 0 <= totalSpent st
  end.

(** An entry that leaves the age and the day clock of the pet alone. *)
Definition keeps_age (a : Assign) : Prop :=
  match a with
  | SetDaysAlive _ | SetLastFed _ => False
  | _ => True
  end.

(** [q] is as old as [p], and its day started when that of [p] did. *)
Definition same_age (p q : Pet) : Prop :=
  days_alive q = days_alive p /\ last_fed q = last_fed p
  /\ created_date q = created_date p.

(** The events that wear the needs down or restore them: the day-advance
    and the care actions. *)
Definition tends (e : Event) : bool :=
  match e with
  | DayTimeout _ _ | CareClick _ => true
  | _ => false
  end.

(** An entry of an update, on the snapshot [p], of an event that does
    not tend the pet: hunger, hygiene and health are not written, the
    happiness is not lowered, the energy is lowered by 10 at most. *)
Definition untended_entry (p : Pet) (a : Assign) : Prop :=
  match a with
  | SetHunger _ | SetHygiene _ | SetHealth _ => False
  | SetHappiness v => happiness p <= v
  | SetEnergy v => energy p - 10 <= v /\ v <= energy p
  | _ => True
  end.

Definition untended (p q : Pet) : Prop :=
  hunger q = hunger p /\ hygiene q = hygiene p /\ health q = health p
  /\ happiness p <= happiness q
  /\ energy p - 10 <= energy q /\ energy q <= energy p.

(* ================================================================== *)
(** ** The page with its day timer ([PetCare.jsx], lines 152-239) *)

(** The dependency list of the timer effect,
    [[pet?.id, pet?.days_alive, pet?.last_fed]]. *)
Definition timerDeps (pet : option Pet) : option (PetId * Z * option Z) :=
  match pet with
  | None => None
  | Some p => Some (id p, days_alive p, last_fed p)
  end.

(** React compares the lists entry by entry. *)
Definition sameDeps (a b : option Pet) : bool :=
  match timerDeps a, timerDeps b with
  | None, None => true
  | Some (i, d, f), Some (i', d', f') =>
      (i =? i')%N && (d =? d')%Z
      && match f, f' with
         | None, None => true
         | Some t, Some t' => (t =? t')%Z
         | _, _ => false
         end
  | _, _ => false
  end.

(** [progressDay] is declared inside the timer effect: it is a closure of
    the render in which the effect last ran, and reads the [pet] of that
    render whatever the store holds when the timeout fires.  [timerPet]
    is that pet; it is [None] while no timer is armed ([if (!pet)
    return]). *)
Record Page : Type := mkPage {
  world : World;
  timerPet : option Pet
}.

(** A render after the store or the state changed: the timer effect is
    cleaned up and runs again, with the pet of this render, when one of
    its dependencies changed; otherwise the armed timer stays. *)
Definition render (before : Page) (after : World) : Page :=
  mkPage after
         (if sameDeps (currentPet (world before)) (currentPet after)
          then timerPet before
          else currentPet after).

(** The page is opened over a store (after an adoption, or by loading
    it): new React state, and the timer armed on the stored pet. *)
Definition mount (s : Store) : Page :=
  mkPage (freshPage s) (currentPet (freshPage s)).

(** An event on the page.  The clicks and the other effects belong to
    the current render and read the stored pet, as [step] has them; the
    day timer runs [progressDay] on the pet it holds. *)
Definition pageStep (pg : Page) (e : Event) : Page :=
  match e with
  | Adopt form now =>
      match PetAdopt.handleAdopt form (store (world pg)) now with
      | PetAdopt.Adopted s => mount s
      | _ => pg
      end
  | DayTimeout now d =>
      match timerPet pg with
      | None => pg
      | Some snapshot =>
          render pg (run (world pg) (progressDay snapshot now d))
      end
  | _ => render pg (step (world pg) e)
  end.

(** The death-check effect of a render whose expenses query holds
    [expenses]: what was fetched last for the pet, or the [initialData]
    of the query, the empty list, before the first answer. *)
Definition deathEffect (pg : Page) (expenses : list ExpenseData) : Page :=
  match currentPet (world pg) with
  | None => pg
  | Some pet =>
      render pg (run (world pg) (deathCheck pet (petDied (world pg)) expenses))
  end.

(** The pages a session can be in: opened over the empty store, after an
    event, after a death check on whatever the expenses query holds, or
    loaded again over the store as it is. *)
Inductive pageReachable : Page -> Prop :=
| page_init : pageReachable (mount emptyStore)
| page_next (pg : Page) (e : Event) :
    pageReachable pg -> event_ok e -> pageReachable (pageStep pg e)
| page_death_check (pg : Page) (expenses : list ExpenseData) :
    pageReachable pg -> pageReachable (deathEffect pg expenses)
| page_reload (pg : Page) :
    pageReachable pg -> pageReachable (mount (store (world pg))).

(** A stretch on the care page, the timer included: no adoption and no
    reload. *)
Inductive pageRun (pg : Page) : Page -> Prop :=
| run_here : pageRun pg pg
| run_next (pg' : Page) (e : Event) :
    pageRun pg pg' -> on_page e -> event_ok e ->
    pageRun pg (pageStep pg' e)
| run_death_check (pg' : Page) (expenses : list ExpenseData) :
    pageRun pg pg' -> pageRun pg (deathEffect pg' expenses).

(** The armed timer holds a pet within bounds that is the stored pet as
    far as the dependencies go; no timer is armed without a pet. *)
Definition timer_ok (pg : Page) : Prop :=
  match timerPet pg with
  | None => pets (store (world pg)) = []
  | Some snapshot =>
      pet_ok snapshot
      /\ exists cur,
           pets (store (world pg)) = [cur]
           /\ id snapshot = id cur
           /\ days_alive snapshot = days_alive cur
           /\ last_fed snapshot = last_fed cur
  end.

Definition page_ok (pg : Page) : Prop :=
  Forall pet_ok (pets (store (world pg)))
  /\ (List.length (pets (store (world pg))) <= 1)%nat
  /\ Forall (fun x => expense_ok (fields x)) (expenses (store (world pg)))
  /\ timer_ok pg.

(* ================================================================== *)
(** ** Sample data *)

Module Sample.

(** The name Ember, as code units. *)
Definition form : PetAdopt.Form :=
  PetAdopt.mkForm (PetAdopt.units "Ember") (Some dragon) "default".

(** A newly adopted pet: every need at 50, health 100, 50 coins. *)
Definition egg0 : Pet := PetAdopt.newPet form dragon 0%N 0%Z.

(** Draws in the middle of the unit interval. *)
Definition half : Draws := mkDraws (1 # 2) (1 # 2) (1 # 2) (1 # 2).


(** A store in use: one adoption followed by one feeding, which leaves
    a pet and an Expense record. *)
Definition usedStore : Store :=
  store (step (step (freshPage emptyStore) (Adopt form 0)) (CareClick Act.feed)).

(** A second adoption form: the name Nyx, a phoenix. *)
Definition form2 : PetAdopt.Form :=
  PetAdopt.mkForm (PetAdopt.units " Nyx ") (Some phoenix) "frost".

(** Draws at the top of the unit interval. *)
Definition high : Draws :=
  mkDraws (99 # 100) (99 # 100) (99 # 100) (99 # 100).

(** One day without any care: the timer fires, then the effects run. *)
Definition idleDay (d : Draws) : list Event :=
  [DayTimeout 0 d; EvolutionEffect; EvolveDebounce; DeathEffect].

(** The page right after the adoption. *)
Definition adopted : World := step (freshPage emptyStore) (Adopt form 0).

(** Nine idle days with high draws after the adoption: the pet's health
    has reached 0 and the death check has recorded it. *)
Definition neglected : World :=
  fold_left step (List.concat (repeat (idleDay high) 9)) adopted.

(** Five idle days after the adoption: the cost multiplier is 1.2 and
    the 50 coins are untouched. *)
Definition fiveDaysOld : World :=
  fold_left step (List.concat (repeat (idleDay half) 5)) adopted.

(** Three feedings after the adoption: 20 coins are left. *)
Definition fedThrice : World :=
  fold_left step (repeat (CareClick Act.feed) 3) adopted.

End Sample.

(** Further sample data. *)
Module Scenario.

(** The page after the adoption and the purchase of an insurance. *)
Definition insured : World := step Sample.adopted BuyInsuranceClick.

(** Its pet: insured, 35 coins left, one achievement. *)
Definition insuredPet : Pet :=
  applyUpdates Sample.egg0
    [SetHasInsurance true; SetCoins (50 - 15);
     SetAchievements ["insured"%string]].

(** Nine days without care, up to the moment before the death check
    runs for the last time: the health is 0 and no death is recorded. *)
Definition dying : World :=
  fold_left step
    (List.concat (repeat (Sample.idleDay Sample.high) 8)
       ++ [DayTimeout 0 Sample.high; EvolutionEffect; EvolveDebounce])
    Sample.adopted.

(** Two more days on the memorial screen. *)
Definition mourned : World :=
  fold_left step
    [DayTimeout 1 Sample.half; DeathEffect; CareClick Act.rest;
     DayTimeout 2 Sample.half; DeathEffect]
    (step dying DeathEffect).

(** Three day-advances after the adoption and no effect run yet: the
    egg has the 3 experience points that let it hatch. *)
Definition threeDays : World :=
  fold_left step
    [DayTimeout 1 Sample.half; DayTimeout 2 Sample.half;
     DayTimeout 3 Sample.half]
    Sample.adopted.

(** A pet that has learnt to roll over: one game won, one trick
    bought. *)
Definition trained : World :=
  fold_left step
    [GameComplete (WireGame 0); LearnTrickClick Trick.roll]
    Sample.adopted.

(** The care page as the adoption opens it: the day timer is armed on
    the new pet. *)
Definition adoptedPage : Page :=
  pageStep (mount emptyStore) (Adopt Sample.form 0).

(** Three days without care, then two meals, two baths and a rest before
    the fourth day: the stored pet has every need at 50 or more, the
    timer armed after the third day still holds the needs as they were
    then. *)
Definition caredLate : Page :=
  fold_left pageStep
    [DayTimeout 1 Sample.high; DayTimeout 2 Sample.high;
     DayTimeout 3 Sample.high;
     CareClick Act.feed; CareClick Act.feed; CareClick Act.clean;
     CareClick Act.clean; CareClick Act.rest]
    adoptedPage.

(** Seven days without care, then the insurance is bought before the
    eighth day: the stored pet is insured, the timer armed after the
    seventh day holds the pet without insurance. *)
Definition insuredLate : Page :=
  fold_left pageStep
    [DayTimeout 1 Sample.high; DayTimeout 2 Sample.high;
     DayTimeout 3 Sample.high; DayTimeout 4 Sample.high;
     DayTimeout 5 Sample.high; DayTimeout 6 Sample.high;
     DayTimeout 7 Sample.high; BuyInsuranceClick]
    adoptedPage.

(** The insurance bought on the first day, and a meal on the second: the
    timer armed after the first day holds the insured pet with the 35
    coins it had before the meal. *)
Definition insuredFed : Page :=
  fold_left pageStep
    [BuyInsuranceClick; DayTimeout 1 Sample.half; CareClick Act.feed]
    adoptedPage.

(** An insured pet that has spent its last coin (the insurance, three
    meals and a game of fetch), a day later: the timer armed after that
    day holds the insured pet without a coin. *)
Definition brokePage : Page :=
  fold_left pageStep
    [BuyInsuranceClick; CareClick Act.feed; CareClick Act.feed;
     CareClick Act.feed; CareClick Act.play; DayTimeout 1 Sample.half]
    adoptedPage.

(** Nine days without care for the pet of [insuredFed]. *)
Definition insuredNeglectedPage : Page :=
  fold_left pageStep
    (List.concat (repeat (Sample.idleDay Sample.high) 9)) insuredFed.

(** Nine days without care after the adoption, before any death check
    has run: the health is 0 and no death is recorded. *)
Definition dyingPage : Page :=
  fold_left pageStep
    [DayTimeout 1 Sample.high; DayTimeout 2 Sample.high;
     DayTimeout 3 Sample.high; DayTimeout 4 Sample.high;
     DayTimeout 5 Sample.high; DayTimeout 6 Sample.high;
     DayTimeout 7 Sample.high; DayTimeout 8 Sample.high;
     DayTimeout 9 Sample.high]
    adoptedPage.

(** The death check of that page before the expenses query has
    answered, and a day and a click on the memorial screen. *)
Definition mournedPage : Page :=
  fold_left pageStep
    [DayTimeout 10 Sample.half; CareClick Act.rest]
    (deathEffect dyingPage []).


End Scenario.

(* ================================================================== *)
(** * Properties *)

(** ** Facts about the primitives *)

Module JsFacts.

Lemma lt_true a b : Js.lt a b = true <-> a < b.
Proof.
  unfold Js.lt. rewrite negb_true_iff.
  destruct (Qle_bool b a) eqn:E.
  - apply Qle_bool_iff in E. split; [discriminate | intros H; lra].
  - split; [intros _ | reflexivity].
    apply Qnot_le_lt. intros H. apply Qle_bool_iff in H. congruence.
Qed.

Lemma lt_false a b : Js.lt a b = false <-> b <= a.
Proof.
  unfold Js.lt. rewrite negb_false_iff. apply Qle_bool_iff.
Qed.

Lemma ge_true a b : Js.ge a b = true <-> b <= a.
Proof. apply Qle_bool_iff. Qed.

Lemma ge_false a b : Js.ge a b = false <-> a < b.
Proof.
  unfold Js.ge. destruct (Qle_bool b a) eqn:E.
  - apply Qle_bool_iff in E. split; [discriminate | intros H; lra].
  - split; [intros _ | reflexivity].
    apply Qnot_le_lt. intros H. apply Qle_bool_iff in H. congruence.
Qed.

Lemma max_cases a b : (b <= a /\ Js.max a b == a) \/ (a < b /\ Js.max a b == b).
Proof.
  unfold Js.max. destruct (Q.max_spec a b) as [[H E] | [H E]].
  - right. split; assumption.
  - left. split; assumption.
Qed.

Lemma min_cases a b : (a <= b /\ Js.min a b == a) \/ (b < a /\ Js.min a b == b).
Proof.
  unfold Js.min. destruct (Q.min_spec a b) as [[H E] | [H E]].
  - left. split; [lra | assumption].
  - destruct (Qlt_le_dec b a) as [L | L].
    + right. split; assumption.
    + left. split; [assumption | lra].
Qed.

Lemma includes_In l s : Js.includes l s = true <-> In s l.
Proof.
  unfold Js.includes. rewrite existsb_exists. split.
  - intros [x [Hx E]]. apply String.eqb_eq in E. subst. assumption.
  - intros H. exists s. split; [assumption | apply String.eqb_refl].
Qed.

Lemma gt_true a b : Js.gt a b = true <-> b < a.
Proof. apply (lt_true b a). Qed.

Lemma gt_false a b : Js.gt a b = false <-> a <= b.
Proof. apply (lt_false b a). Qed.

Lemma max_lower a b : a <= Js.max a b.
Proof. destruct (max_cases a b) as [[? E] | [? E]]; lra. Qed.

End JsFacts.

(* ================================================================== *)
(** ** Reading fields through an update *)

Lemma get_health_snoc (u : Updates) (v : Q) :
  get_health (u ++ [SetHealth v]) = Some v.
Proof.
  induction u as [| a u IH]; simpl.
  - reflexivity.
  - rewrite IH. reflexivity.
Qed.

Lemma get_health_snoc_coins (u : Updates) (v : Q) :
  get_health (u ++ [SetCoins v]) = get_health u.
Proof.
  induction u as [| a u IH]; simpl.
  - reflexivity.
  - rewrite IH. reflexivity.
Qed.

(** After [Pet.update], the pet's health is [updates.health] when the key
    is present and the old health otherwise. *)
Lemma applyUpdates_health (u : Updates) (p : Pet) :
  health (applyUpdates p u) =
  match get_health u with Some h => h | None => health p end.
Proof.
  revert p. induction u as [| a u IH]; intros p.
  - reflexivity.
  - change (applyUpdates p (a :: u)) with (applyUpdates (applyAssign p a) u).
    rewrite IH. simpl. destruct (get_health u); [reflexivity|].
    destruct p, a; reflexivity.
Qed.

Lemma dayUpdates_health_uninsured (pet : Pet) (now : Z) (d : Draws) :
  has_insurance pet = false ->
  get_health (dayUpdates pet now d) = ruledHealth pet now d.
Proof.
  intros H. unfold dayUpdates, insuranceEngages, ruledHealth.
  rewrite H. reflexivity.
Qed.

(* ================================================================== *)
(** ** The health rule *)

Section HealthRule.

Variable pet : Pet.
Variable now : Z.
Variable d : Draws.

Lemma ruled_critical :
  (2 <= criticalStats pet)%nat ->
  ruledHealth pet now d = Some (Js.max 0 (health pet - (8 + rHealth d * 7))).
Proof.
  intros H. unfold ruledHealth, healthRule.
  apply Nat.leb_le in H. rewrite H. apply get_health_snoc.
Qed.

Lemma ruled_low :
  (criticalStats pet < 2)%nat -> (3 <= lowStats pet)%nat ->
  ruledHealth pet now d = Some (Js.max 0 (health pet - (3 + rHealth d * 4))).
Proof.
  intros H1 H2. unfold ruledHealth, healthRule.
  apply Nat.leb_gt in H1. apply Nat.leb_le in H2. rewrite H1, H2.
  apply get_health_snoc.
Qed.

Lemma ruled_regen :
  (criticalStats pet < 2)%nat -> lowStats pet = 0%nat -> health pet < 100 ->
  ruledHealth pet now d = Some (Js.min 100 (health pet + 5)).
Proof.
  intros H1 H2 H3. unfold ruledHealth, healthRule.
  apply Nat.leb_gt in H1. apply JsFacts.lt_true in H3.
  rewrite H1, H2, H3. apply get_health_snoc.
Qed.

Lemma ruled_full :
  (criticalStats pet < 2)%nat -> lowStats pet = 0%nat -> 100 <= health pet ->
  ruledHealth pet now d = None.
Proof.
  intros H1 H2 H3. unfold ruledHealth, healthRule.
  apply Nat.leb_gt in H1. apply JsFacts.lt_false in H3.
  rewrite H1, H2, H3. reflexivity.
Qed.

Lemma ruled_between :
  (criticalStats pet < 2)%nat -> (0 < lowStats pet < 3)%nat ->
  ruledHealth pet now d = None.
Proof.
  intros H1 [H2 H3]. unfold ruledHealth, healthRule.
  apply Nat.leb_gt in H1. apply Nat.leb_gt in H3. rewrite H1, H3.
  destruct (lowStats pet); [lia | reflexivity].
Qed.

End HealthRule.

(** The health rule of [progressDay], over the pet it is given (on the
    page, the pet its timer holds), with [criticalStats] the number
    of the four needs below 25 and [lowStats] the number below 50: with
    two or more critical needs health drops by a draw of at least 8 and
    less than 15; otherwise with three or more low needs it drops by a
    draw of at least 3 and less than 7, below every critical draw;
    otherwise with no low need it rises by 5, capped at 100; otherwise
    the update holds no health entry and health stays.  A drop stops at
    0, and for a pet without insurance the value so computed is the
    health the day leaves. *)
Lemma progressDay_health_rule (pet : Pet) (now : Z) (d : Draws) :
  draws_ok d -> 0 < health pet ->
  ((2 <= criticalStats pet)%nat ->
     exists dec,
       dec = 8 + rHealth d * 7 /\ 8 <= dec /\ dec < 15
       /\ ruledHealth pet now d = Some (Js.max 0 (health pet - dec))
       /\ Js.max 0 (health pet - dec) < health pet
       /\ (dec <= health pet ->
           Js.max 0 (health pet - dec) == health pet - dec))
  /\ ((criticalStats pet < 2)%nat -> (3 <= lowStats pet)%nat ->
     exists dec,
       dec = 3 + rHealth d * 4 /\ 3 <= dec /\ dec < 7
       /\ (forall r', unit_draw r' -> dec < 8 + r' * 7)
       /\ ruledHealth pet now d = Some (Js.max 0 (health pet - dec))
       /\ Js.max 0 (health pet - dec) < health pet
       /\ (dec <= health pet ->
           Js.max 0 (health pet - dec) == health pet - dec))
  /\ ((criticalStats pet < 2)%nat -> lowStats pet = 0%nat ->
      health pet < 100 ->
      ruledHealth pet now d = Some (Js.min 100 (health pet + 5))
      /\ health pet < Js.min 100 (health pet + 5)
      /\ Js.min 100 (health pet + 5) <= 100
      /\ (health pet <= 95 -> Js.min 100 (health pet + 5) == health pet + 5))
  /\ ((criticalStats pet < 2)%nat -> lowStats pet = 0%nat ->
      100 <= health pet -> ruledHealth pet now d = None)
  /\ ((criticalStats pet < 2)%nat -> (0 < lowStats pet < 3)%nat ->
      ruledHealth pet now d = None)
  /\ (has_insurance pet = false ->
      health (applyUpdates pet (dayUpdates pet now d)) =
      match ruledHealth pet now d with Some h => h | None => health pet end).
Proof.
  intros Hdraws Hlive.
  destruct Hdraws as (_ & _ & _ & [Hr0 Hr1]).
  repeat split.
  - intros H. exists (8 + rHealth d * 7).
    split; [reflexivity |]. split; [lra |]. split; [lra |].
    split; [apply (ruled_critical pet now d H) |]. split.
    + destruct (JsFacts.max_cases 0 (health pet - (8 + rHealth d * 7)))
        as [[? E] | [? E]]; lra.
    + intros Hle.
      destruct (JsFacts.max_cases 0 (health pet - (8 + rHealth d * 7)))
        as [[? E] | [? E]]; lra.
  - intros H1 H2. exists (3 + rHealth d * 4).
    split; [reflexivity |]. split; [lra |]. split; [lra |].
    split; [intros r' [Hr'0 Hr'1]; lra |].
    split; [apply (ruled_low pet now d H1 H2) |]. split.
    + destruct (JsFacts.max_cases 0 (health pet - (3 + rHealth d * 4)))
        as [[? E] | [? E]]; lra.
    + intros Hle.
      destruct (JsFacts.max_cases 0 (health pet - (3 + rHealth d * 4)))
        as [[? E] | [? E]]; lra.
  - apply ruled_regen; assumption.
  - destruct (JsFacts.min_cases 100 (health pet + 5)) as [[? E] | [? E]]; lra.
  - destruct (JsFacts.min_cases 100 (health pet + 5)) as [[? E] | [? E]]; lra.
  - intros Hle.
    destruct (JsFacts.min_cases 100 (health pet + 5)) as [[? E] | [? E]]; lra.
  - apply ruled_full.
  - apply ruled_between.
  - intros Hins. rewrite applyUpdates_health.
    rewrite (dayUpdates_health_uninsured _ _ _ Hins). reflexivity.
Qed.


Lemma dayUpdates_health_insured (pet : Pet) (now : Z) (d : Draws) :
  has_insurance pet = true ->
  get_health (dayUpdates pet now d) =
  match ruledHealth pet now d with
  | Some h => if Js.lt h 20 then Some 20 else Some h
  | None => None
  end.
Proof.
  intros H. unfold dayUpdates, insuranceEngages, ruledHealth.
  rewrite H. simpl andb.
  destruct (get_health (healthRule pet (rHealth d) (decayUpdates pet now d)))
    as [h |] eqn:E.
  - destruct (Js.lt h 20).
    + rewrite get_health_snoc_coins. apply get_health_snoc.
    + rewrite get_health_snoc_coins. exact E.
  - rewrite get_health_snoc_coins. exact E.
Qed.

Lemma progressDay_notifies (pet : Pet) (now : Z) (d : Draws) :
  In (Notify InsuranceSaved) (progressDay pet now d) <->
  insuranceEngages pet
    (healthRule pet (rHealth d) (decayUpdates pet now d)) = true.
Proof.
  unfold progressDay.
  destruct (insuranceEngages pet _) eqn:E; split; intros H.
  - reflexivity.
  - left. reflexivity.
  - exfalso. simpl in H. destruct (has_insurance pet); simpl in H;
      repeat (destruct H as [H | H]; [discriminate H |]); exact H.
  - discriminate H.
Qed.

(** The insurance floor of [progressDay], over the pet it is given (on
    the page, the pet its timer holds).  When that pet is insured, the
    health the update writes is never below 20: when the health rule has computed a value below
    20, the update writes exactly 20 and the saved-by-insurance
    notification is shown; a computed value of 20 or more is written as
    it is, without the notification; and when the rule computes nothing
    the update writes no health. *)
Lemma insurance_floor (pet : Pet) (now : Z) (d : Draws) :
  has_insurance pet = true ->
  (forall h, get_health (dayUpdates pet now d) = Some h -> 20 <= h)
  /\ (forall h0, ruledHealth pet now d = Some h0 -> h0 < 20 ->
        get_health (dayUpdates pet now d) = Some 20
        /\ health (applyUpdates pet (dayUpdates pet now d)) = 20
        /\ In (Notify InsuranceSaved) (progressDay pet now d))
  /\ (forall h0, ruledHealth pet now d = Some h0 -> 20 <= h0 ->
        get_health (dayUpdates pet now d) = Some h0
        /\ ~ In (Notify InsuranceSaved) (progressDay pet now d))
  /\ (ruledHealth pet now d = None ->
        get_health (dayUpdates pet now d) = None
        /\ ~ In (Notify InsuranceSaved) (progressDay pet now d)).
Proof.
  intros Hins.
  pose proof (dayUpdates_health_insured pet now d Hins) as Hw.
  pose proof (progressDay_notifies pet now d) as Hn.
  unfold insuranceEngages in Hn. rewrite Hins in Hn. simpl andb in Hn.
  fold (ruledHealth pet now d) in Hn.
  repeat split.
  - intros h Hh. rewrite Hw in Hh.
    destruct (ruledHealth pet now d) as [h0 |]; [| discriminate].
    destruct (Js.lt h0 20) eqn:E; injection Hh as <-.
    + lra.
    + apply JsFacts.lt_false in E. exact E.
  - rewrite Hw, H. apply JsFacts.lt_true in H0. rewrite H0. reflexivity.
  - rewrite applyUpdates_health, Hw, H.
    apply JsFacts.lt_true in H0. rewrite H0. reflexivity.
  - apply Hn. rewrite H. apply JsFacts.lt_true. assumption.
  - rewrite Hw, H. apply JsFacts.lt_false in H0. rewrite H0. reflexivity.
  - intros Hin. apply Hn in Hin. rewrite H in Hin.
    apply JsFacts.lt_false in H0. congruence.
  - rewrite Hw, H. reflexivity.
  - intros Hin. apply Hn in Hin. rewrite H in Hin. discriminate.
Qed.


(* ================================================================== *)
(** ** The health rule reads the stats of before the decay *)



Lemma dayUpdates_keeps_insurance (pet : Pet) (now : Z) (d : Draws) :
  has_insurance (applyUpdates pet (dayUpdates pet now d)) = has_insurance pet.
Proof.
  unfold dayUpdates, insuranceEngages, healthRule.
  destruct pet as [i n sp st hu ha en hy he ex co ins lf ach cv da tr ty cd].
  destruct ins;
    destruct (2 <=? criticalStats _)%nat; [| destruct (3 <=? lowStats _)%nat;
      [| destruct ((lowStats _ =? 0)%nat && Js.lt _ 100)] | |
      destruct (3 <=? lowStats _)%nat;
      [| destruct ((lowStats _ =? 0)%nat && Js.lt _ 100)]];
    cbn [has_insurance andb get_health decayUpdates app];
    repeat match goal with |- context [Js.lt ?a 20] => destruct (Js.lt a 20) end;
    reflexivity.
Qed.



(* ================================================================== *)
(** ** Running effects on the page *)

Lemma run_app (w : World) (es fs : list Effect) :
  run w (es ++ fs) = run (run w es) fs.
Proof. unfold run. apply fold_left_app. Qed.

Lemma apply_quiet (w : World) (e : Effect) :
  quiet e = true ->
  pets (store (apply_effect w e)) = pets (store w)
  /\ isEvolving (apply_effect w e) = isEvolving w
  /\ petDied (apply_effect w e) = petDied w
  /\ deathStats (apply_effect w e) = deathStats w
  /\ performingTrick (apply_effect w e) = performingTrick w.
Proof.
  destruct w, e; simpl; intros H; try discriminate; repeat split.
Qed.

Lemma run_quiet (es : list Effect) (w : World) :
  forallb quiet es = true ->
  pets (store (run w es)) = pets (store w)
  /\ isEvolving (run w es) = isEvolving w
  /\ petDied (run w es) = petDied w
  /\ deathStats (run w es) = deathStats w
  /\ performingTrick (run w es) = performingTrick w.
Proof.
  revert w. induction es as [| e es IH]; intros w H.
  - repeat split.
  - simpl in H. apply andb_true_iff in H. destruct H as [He Hes].
    change (run w (e :: es)) with (run (apply_effect w e) es).
    destruct (IH (apply_effect w e) Hes) as (A & B & C & D & E).
    destruct (apply_quiet w e He) as (A' & B' & C' & D' & E').
    repeat split; congruence.
Qed.

Lemma update_single (w : World) (pet : Pet) (u : Updates) :
  pets (store w) = [pet] ->
  pets (store (apply_effect w (PetUpdate (id pet) u))) = [applyUpdates pet u]
  /\ isEvolving (apply_effect w (PetUpdate (id pet) u)) = isEvolving w.
Proof.
  destruct w as [s died stats evolving trick log]. simpl. intros H.
  rewrite H. simpl. rewrite N.eqb_refl. split; reflexivity.
Qed.

Lemma currentPet_single (w : World) (pet : Pet) :
  pets (store w) = [pet] -> currentPet w = Some pet.
Proof. unfold currentPet. intros ->. reflexivity. Qed.

(** What a day-advance leaves of the fields it does not decay. *)
Lemma dayUpdates_fields (pet : Pet) (now : Z) (d : Draws) :
  let next := applyUpdates pet (dayUpdates pet now d) in
  id next = id pet /\ stage next = stage pet
  /\ experience next = (experience pet + 1)%Z
  /\ days_alive next = (days_alive pet + 1)%Z
  /\ achievements next = achievements pet
  /\ tricks next = tricks pet /\ toys next = toys pet.
Proof.
  unfold dayUpdates, insuranceEngages, healthRule.
  destruct pet as [i n sp st hu ha en hy he ex co ins lf ach cv da tr ty cd].
  destruct ins;
    destruct (2 <=? criticalStats _)%nat; [| destruct (3 <=? lowStats _)%nat;
      [| destruct ((lowStats _ =? 0)%nat && Js.lt _ 100)] | |
      destruct (3 <=? lowStats _)%nat;
      [| destruct ((lowStats _ =? 0)%nat && Js.lt _ 100)]];
    cbn [has_insurance andb get_health decayUpdates app];
    repeat match goal with |- context [Js.lt ?a 20] => destruct (Js.lt a 20) end;
    repeat split.
Qed.

Lemma day_on_single (w : World) (pet : Pet) (now : Z) (d : Draws) :
  pets (store w) = [pet] ->
  pets (store (step w (DayTimeout now d)))
    = [applyUpdates pet (dayUpdates pet now d)]
  /\ isEvolving (step w (DayTimeout now d)) = isEvolving w.
Proof.
  intros H. unfold step. rewrite (currentPet_single w _ H).
  cbn [handle]. unfold progressDay.
  rewrite app_assoc, run_app.
  set (es := _ ++ _).
  assert (Q : forallb quiet es = true).
  { subst es. destruct (insuranceEngages pet _), (has_insurance pet);
      reflexivity. }
  destruct (run_quiet es w Q) as (A & B & _).
  change (run (run w es) [PetUpdate (id pet) (dayUpdates pet now d)])
    with (apply_effect (run w es) (PetUpdate (id pet) (dayUpdates pet now d))).
  rewrite H in A.
  destruct (update_single (run w es) pet (dayUpdates pet now d) A) as [C D].
  split; [exact C | congruence].
Qed.

(* ================================================================== *)
(** ** Evolution *)

Lemma evolution_quiet_stage (w : World) (pet : Pet) :
  pets (store w) = [pet] -> isEvolving w = false ->
  (stage pet = egg /\ (experience pet < 3)%Z) ->
  step w EvolutionEffect = w.
Proof.
  intros H He [Hs Hx]. unfold step. rewrite (currentPet_single w _ H).
  cbn [handle]. unfold evolutionCheck. rewrite He, Hs.
  apply Z.leb_gt in Hx. rewrite Hx. reflexivity.
Qed.

Lemma evolution_hatches (w : World) (pet : Pet) :
  pets (store w) = [pet] -> isEvolving w = false ->
  stage pet = egg -> (3 <= experience pet)%Z ->
  pets (store (step w EvolutionEffect))
  = [applyUpdates pet
       [SetStage hatchling; SetExperience 0;
        SetAchievements (achievements pet ++ ["hatchling"%string])]].
Proof.
  intros H He Hs Hx. unfold step. rewrite (currentPet_single w _ H).
  cbn [handle]. unfold evolutionCheck. rewrite He, Hs.
  apply Z.leb_le in Hx. rewrite Hx.
  destruct w as [s died stats evolving trick log]. simpl in *.
  rewrite H. simpl. rewrite N.eqb_refl. reflexivity.
Qed.

(** C4.  The evolution check makes two transitions and no other.  An egg
    with experience 3 or more becomes a hatchling, its experience is set
    to 0 and the achievement hatchling is appended.  A hatchling with
    experience 5 or more becomes grown, keeps its experience, and the
    achievement fully_grown is appended.  No other field changes; below
    the thresholds, for a grown pet, and while a transition is being
    debounced, nothing is issued.  Hence an egg with experience 0 is a
    hatchling with experience 0 after three day-advances, each followed
    by the check. *)
Theorem evolution_check_transitions (pet : Pet) :
  (stage pet = egg -> (3 <= experience pet)%Z ->
     exists u,
       evolutionCheck pet false
         = [SetIsEvolving true; PetUpdate (id pet) u; Notify Hatched]
       /\ stage (applyUpdates pet u) = hatchling
       /\ experience (applyUpdates pet u) = 0%Z
       /\ achievements (applyUpdates pet u)
          = achievements pet ++ ["hatchling"%string]
       /\ same_but_growth pet (applyUpdates pet u))
  /\ (stage pet = hatchling -> (5 <= experience pet)%Z ->
     exists u,
       evolutionCheck pet false
         = [SetIsEvolving true; PetUpdate (id pet) u; Notify FullyGrown]
       /\ stage (applyUpdates pet u) = grown
       /\ experience (applyUpdates pet u) = experience pet
       /\ achievements (applyUpdates pet u)
          = achievements pet ++ ["fully_grown"%string]
       /\ same_but_growth pet (applyUpdates pet u))
  /\ (stage pet = egg -> (experience pet < 3)%Z ->
      evolutionCheck pet false = [])
  /\ (stage pet = hatchling -> (experience pet < 5)%Z ->
      evolutionCheck pet false = [])
  /\ (stage pet = grown -> evolutionCheck pet false = [])
  /\ evolutionCheck pet true = []
  /\ (forall w now1 d1 now2 d2 now3 d3,
        pets (store w) = [pet] -> isEvolving w = false ->
        stage pet = egg -> experience pet = 0%Z ->
        exists p,
          pets (store (dayThenCheck
                         (dayThenCheck (dayThenCheck w now1 d1) now2 d2)
                         now3 d3)) = [p]
          /\ stage p = hatchling /\ experience p = 0%Z
          /\ (days_alive p = days_alive pet + 3)%Z
          /\ achievements p = achievements pet ++ ["hatchling"%string]).
Proof.
  split; [| split; [| split; [| split; [| split; [| split]]]]].
  - intros Hs Hx. unfold evolutionCheck. rewrite Hs.
    apply Z.leb_le in Hx. rewrite Hx. eexists. split; [reflexivity |].
    destruct pet; repeat split.
  - intros Hs Hx. unfold evolutionCheck. rewrite Hs.
    apply Z.leb_le in Hx. rewrite Hx. eexists. split; [reflexivity |].
    destruct pet; repeat split.
  - intros Hs Hx. unfold evolutionCheck. rewrite Hs.
    apply Z.leb_gt in Hx. rewrite Hx. reflexivity.
  - intros Hs Hx. unfold evolutionCheck. rewrite Hs.
    apply Z.leb_gt in Hx. rewrite Hx. reflexivity.
  - intros Hs. unfold evolutionCheck. rewrite Hs. reflexivity.
  - reflexivity.
  - intros w now1 d1 now2 d2 now3 d3 Hw He Hs Hx.
    unfold dayThenCheck.
    (* first day: experience 1, still an egg *)
    destruct (day_on_single w pet now1 d1 Hw) as [P1 E1].
    destruct (dayUpdates_fields pet now1 d1) as (_ & S1 & X1 & D1 & A1 & _).
    set (p1 := applyUpdates pet (dayUpdates pet now1 d1)) in *.
    set (w1 := step w (DayTimeout now1 d1)) in *.
    rewrite (evolution_quiet_stage w1 p1 P1) by (try split; try congruence; lia).
    (* second day: experience 2 *)
    destruct (day_on_single w1 p1 now2 d2 P1) as [P2 E2].
    destruct (dayUpdates_fields p1 now2 d2) as (_ & S2 & X2 & D2 & A2 & _).
    set (p2 := applyUpdates p1 (dayUpdates p1 now2 d2)) in *.
    set (w2 := step w1 (DayTimeout now2 d2)) in *.
    rewrite (evolution_quiet_stage w2 p2 P2) by (try split; try congruence; lia).
    (* third day: experience 3, and the check fires *)
    destruct (day_on_single w2 p2 now3 d3 P2) as [P3 E3].
    destruct (dayUpdates_fields p2 now3 d3) as (_ & S3 & X3 & D3 & A3 & _).
    set (p3 := applyUpdates p2 (dayUpdates p2 now3 d3)) in *.
    set (w3 := step w2 (DayTimeout now3 d3)) in *.
    rewrite (evolution_hatches w3 p3 P3) by (try congruence; lia).
    eexists. split; [reflexivity |].
    assert (A : achievements p3 = achievements pet) by congruence.
    assert (D : (days_alive p3 = days_alive pet + 3)%Z) by lia.
    clearbody p3. clear - A D.
    destruct p3. cbn in *. rewrite A, D. repeat split.
Qed.

Lemma evolution_check_transitions_witness :
  exists p,
    pets (store (dayThenCheck
                   (dayThenCheck
                      (dayThenCheck
                         (step (freshPage emptyStore) (Adopt Sample.form 0))
                         1 Sample.half) 2 Sample.half) 3 Sample.half)) = [p]
    /\ stage p = hatchling /\ experience p = 0%Z.
Proof.
  destruct (evolution_check_transitions Sample.egg0)
    as (_ & _ & _ & _ & _ & _ & H).
  destruct (H (step (freshPage emptyStore) (Adopt Sample.form 0))
              1%Z Sample.half 2%Z Sample.half 3%Z Sample.half)
    as (p & Hp & Hs & Hx & _); try reflexivity.
  exists p. repeat split; assumption.
Defined.

(* ================================================================== *)
(** ** Adoption *)

Lemma delete_expenses_spec (del : list Expense) (s : Store) :
  let s' := fold_left (fun s expense =>
                         Base44.Expense_delete s (expense_id expense)) del s in
  pets s' = pets s /\ next_id s' = next_id s
  /\ forall e, In e (expenses s') ->
       In e (expenses s)
       /\ forall x, In x del -> expense_id x <> expense_id e.
Proof.
  revert s. induction del as [| x del IH]; intros s; simpl.
  - repeat split; try assumption. intros x [].
  - destruct (IH (Base44.Expense_delete s (expense_id x))) as (P & I & E).
    split; [exact P |]. split; [exact I |].
    intros e He. destruct (E e He) as [Hin Hne].
    simpl in Hin. apply filter_In in Hin. destruct Hin as [Hin Hx].
    split; [exact Hin |].
    intros y [<- | Hy]; [| apply Hne; exact Hy].
    apply negb_true_iff, N.eqb_neq in Hx. congruence.
Qed.

Lemma deletePet_spec (s : Store) (pet : Pet) :
  (forall p, In p (pets (PetAdopt.deletePet s pet)) ->
     In p (pets s) /\ id p <> id pet)
  /\ (forall e, In e (expenses (PetAdopt.deletePet s pet)) ->
     In e (expenses s) /\ pet_id (fields e) <> id pet)
  /\ next_id (PetAdopt.deletePet s pet) = next_id s.
Proof.
  unfold PetAdopt.deletePet.
  destruct (delete_expenses_spec (Base44.Expense_filter s (id pet)) s)
    as (P & I & E).
  simpl. repeat split.
  - rewrite P in H. apply filter_In in H. apply H.
  - apply filter_In in H. destruct H as [_ H].
    apply negb_true_iff, N.eqb_neq in H. exact H.
  - apply (E e H).
  - intros Hid. destruct (E e H) as [Hin Hne].
    apply (Hne e); [| reflexivity].
    unfold Base44.Expense_filter. apply filter_In. split; [exact Hin |].
    apply N.eqb_eq. exact Hid.
  - exact I.
Qed.

Lemma deletePets_spec (l : list Pet) (s : Store) :
  (forall p, In p (pets (fold_left PetAdopt.deletePet l s)) ->
     In p (pets s) /\ forall q, In q l -> id p <> id q)
  /\ (forall e, In e (expenses (fold_left PetAdopt.deletePet l s)) ->
     In e (expenses s) /\ forall q, In q l -> pet_id (fields e) <> id q)
  /\ next_id (fold_left PetAdopt.deletePet l s) = next_id s.
Proof.
  revert s. induction l as [| x l IH]; intros s; simpl.
  - repeat split; try assumption; intros q [].
  - destruct (IH (PetAdopt.deletePet s x)) as (P & E & I).
    destruct (deletePet_spec s x) as (P' & E' & I').
    repeat split.
    + apply P', P, H.
    + intros q [<- | Hq]; [apply P', P, H | apply (P p H), Hq].
    + apply E', E, H.
    + intros q [<- | Hq]; [apply E', E, H | apply (E e H), Hq].
    + congruence.
Qed.

Lemma clearedStore_spec (s : Store) :
  pets (clearedStore s) = []
  /\ (forall e, In e (expenses (clearedStore s)) ->
        In e (expenses s)
        /\ forall old, In old (pets s) -> pet_id (fields e) <> id old)
  /\ next_id (clearedStore s) = next_id s.
Proof.
  unfold clearedStore, Base44.Pet_list.
  destruct (deletePets_spec (pets s) s) as (P & E & I).
  repeat split.
  - destruct (pets (fold_left PetAdopt.deletePet (pets s) s)) as [| p l] eqn:L;
      [reflexivity |].
    exfalso. destruct (P p (or_introl eq_refl)) as [Hin Hne].
    apply (Hne p Hin). reflexivity.
  - apply (E e H).
  - apply (E e H).
  - exact I.
Qed.

Lemma truthy_empty (s : string) : s = EmptyString -> Js.truthy s = false.
Proof. intros ->. reflexivity. Qed.

(** C10.  A successful adoption, whatever the species and the valid name,
    first deletes every pet of the store together with the Expense
    records whose [pet_id] is that pet's, and then creates one pet in the
    initial state: an egg with hunger, happiness, energy and hygiene 50,
    health 100, experience 0, 50 coins, no insurance, 0 days alive, and
    empty achievements, tricks and toys. *)
Theorem adoption_initial_state
    (form : PetAdopt.Form) (s : Store) (now : Z) (chosen : Species) :
  PetAdopt.validatePetName (PetAdopt.petName form) = EmptyString ->
  PetAdopt.selectedPet form = Some chosen ->
  exists p,
    PetAdopt.handleAdopt form s now
      = PetAdopt.Adopted (Base44.Pet_create (clearedStore s)
                            (PetAdopt.newPet form chosen) now)
    /\ pets (clearedStore s) = []
    /\ (forall old e, In old (pets s) -> In e (expenses (clearedStore s)) ->
          pet_id (fields e) <> id old)
    /\ pets (Base44.Pet_create (clearedStore s)
               (PetAdopt.newPet form chosen) now) = [p]
    /\ expenses (Base44.Pet_create (clearedStore s)
                   (PetAdopt.newPet form chosen) now)
       = expenses (clearedStore s)
    /\ stage p = egg
    /\ hunger p = 50 /\ happiness p = 50 /\ energy p = 50 /\ hygiene p = 50
    /\ health p = 100 /\ experience p = 0%Z /\ coins p = 50
    /\ has_insurance p = false /\ days_alive p = 0%Z
    /\ achievements p = [] /\ tricks p = [] /\ toys p = []
    /\ species p = chosen
    /\ name p = PetAdopt.trim (PetAdopt.petName form)
    /\ color_variant p = PetAdopt.selectedColor form.
Proof.
  intros Hname Hsel.
  destruct (clearedStore_spec s) as (P & E & I).
  eexists. split.
  - unfold PetAdopt.handleAdopt. rewrite (truthy_empty _ Hname), Hsel.
    reflexivity.
  - split; [exact P |]. split.
    + intros old e Hold He. apply (E e He), Hold.
    + unfold Base44.Pet_create. cbn [pets expenses]. rewrite P.
      split; [reflexivity |]. repeat split.
Qed.

Lemma adoption_initial_state_witness :
  exists p,
    PetAdopt.handleAdopt Sample.form2 Sample.usedStore 7
      = PetAdopt.Adopted (mkStore [p] [] 3)
    /\ stage p = egg /\ health p = 100 /\ coins p = 50
    /\ name p = PetAdopt.units "Nyx"
    /\ List.length (pets Sample.usedStore) = 1%nat
    /\ List.length (expenses Sample.usedStore) = 1%nat.
Proof.
  destruct (adoption_initial_state Sample.form2 Sample.usedStore 7
              phoenix eq_refl eq_refl)
    as (p & H & _ & _ & Hp & _ & Hs & _ & _ & _ & _ & Hh & _ & Hc & _).
  exists p. injection Hp as <-.
  repeat split; assumption || reflexivity.
Defined.

(* ================================================================== *)
(** ** Bounds of the stats *)

Lemma stat_ok_min_up (x k : Q) :
  stat_ok x -> 0 <= k -> stat_ok (Js.min 100 (x + k)).
Proof.
  intros [H0 H1] Hk. unfold stat_ok.
  destruct (JsFacts.min_cases 100 (x + k)) as [[? E] | [? E]]; lra.
Qed.

Lemma stat_ok_max_down (x k : Q) :
  stat_ok x -> 0 <= k -> stat_ok (Js.max 0 (x - k)).
Proof.
  intros [H0 H1] Hk. unfold stat_ok.
  destruct (JsFacts.max_cases 0 (x - k)) as [[? E] | [? E]]; lra.
Qed.

Lemma ageMultiplier_pos (days : Z) (n : Z) :
  (0 <= days)%Z -> (0 < n)%Z -> 1 <= 1 + inject_Z (days / n) * (1 # 10).
Proof.
  intros Hd Hn.
  assert (H : (0 <= days / n)%Z) by (apply Z.div_pos; lia).
  assert (Hq : 0 <= inject_Z (days / n)).
  { change 0 with (inject_Z 0). rewrite <- Zle_Qle. exact H. }
  assert (0 <= inject_Z (days / n) * (1 # 10))
    by (apply Qmult_le_0_compat; lra).
  lra.
Qed.

Lemma decay_nonneg (base span r m : Q) :
  0 <= base -> 0 <= span -> unit_draw r -> 1 <= m ->
  0 <= (base + r * span) * m.
Proof.
  intros Hb Hs [Hr0 Hr1] Hm.
  apply Qmult_le_0_compat; [| lra].
  assert (0 <= r * span) by (apply Qmult_le_0_compat; lra). lra.
Qed.

Lemma applyAssign_ok (p : Pet) (a : Assign) :
  pet_ok p -> assign_ok a -> pet_ok (applyAssign p a).
Proof.
  unfold pet_ok. destruct p, a; simpl; intros H Ha; tauto.
Qed.

Lemma applyUpdates_ok (u : Updates) (p : Pet) :
  pet_ok p -> Forall assign_ok u -> pet_ok (applyUpdates p u).
Proof.
  revert p. induction u as [| a u IH]; intros p Hp Hu.
  - exact Hp.
  - inversion Hu; subst.
    change (applyUpdates p (a :: u)) with (applyUpdates (applyAssign p a) u).
    apply IH; [apply applyAssign_ok |]; assumption.
Qed.

Lemma apply_effect_ok (w : World) (e : Effect) :
  Forall pet_ok (pets (store w)) -> effect_ok e ->
  Forall pet_ok (pets (store (apply_effect w e))).
Proof.
  destruct w as [s died stats evolving trick log].
  destruct e; simpl; intros H He; try exact H.
  - apply Forall_map. revert H. apply Forall_impl. intros p Hp.
    destruct (id p =? target)%N; [apply applyUpdates_ok |]; assumption.
  - rewrite Forall_forall in *. intros p Hp. apply filter_In in Hp.
    apply H, Hp.
Qed.

Lemma run_ok (es : list Effect) (w : World) :
  Forall pet_ok (pets (store w)) -> Forall effect_ok es ->
  Forall pet_ok (pets (store (run w es))).
Proof.
  revert w. induction es as [| e es IH]; intros w Hw Hes.
  - exact Hw.
  - inversion Hes; subst.
    change (run w (e :: es)) with (run (apply_effect w e) es).
    apply IH; [apply apply_effect_ok |]; assumption.
Qed.

(** *** The handlers write values within bounds *)

Ltac entries :=
  repeat first [apply Forall_nil | apply Forall_cons
               | (apply Forall_app; split)];
  cbn [effect_ok assign_ok]; try exact I.

Lemma healthRule_ok (pet : Pet) (r : Q) (u : Updates) :
  pet_ok pet -> unit_draw r -> Forall assign_ok u ->
  Forall assign_ok (healthRule pet r u).
Proof.
  intros Hp [Hr0 Hr1] Hu. unfold healthRule.
  destruct Hp as (_ & _ & _ & _ & Hh & _).
  destruct (2 <=? criticalStats pet)%nat.
  { apply Forall_app. split; [exact Hu |]. entries.
    apply stat_ok_max_down; [exact Hh | lra]. }
  destruct (3 <=? lowStats pet)%nat.
  { apply Forall_app. split; [exact Hu |]. entries.
    apply stat_ok_max_down; [exact Hh | lra]. }
  destruct ((lowStats pet =? 0)%nat && Js.lt (health pet) 100).
  { apply Forall_app. split; [exact Hu |]. entries.
    apply stat_ok_min_up; [exact Hh | lra]. }
  exact Hu.
Qed.

Lemma dayUpdates_ok (pet : Pet) (now : Z) (d : Draws) :
  pet_ok pet -> draws_ok d -> Forall assign_ok (dayUpdates pet now d).
Proof.
  intros Hp (Hhu & Hhy & Hen & Hhe).
  pose proof Hp as (Ph & Pa & Pe & Py & Pl & Pc & Px & Pd).
  pose proof (ageMultiplier_pos _ 15 Pd eq_refl) as Hm.
  assert (Hdecay : Forall assign_ok (decayUpdates pet now d)).
  { unfold decayUpdates. entries; try lia.
    - apply stat_ok_max_down; [exact Ph | apply decay_nonneg; auto; lra].
    - apply stat_ok_max_down; [exact Py | apply decay_nonneg; auto; lra].
    - apply stat_ok_max_down; [exact Pe | apply decay_nonneg; auto; lra].
    - apply stat_ok_max_down; [exact Pa | lra]. }
  pose proof (healthRule_ok pet _ _ Hp Hhe Hdecay) as Hrule.
  unfold dayUpdates.
  assert (Hfloor : Forall assign_ok
            (if insuranceEngages pet
                  (healthRule pet (rHealth d) (decayUpdates pet now d))
             then healthRule pet (rHealth d) (decayUpdates pet now d)
                  ++ [SetHealth 20]
             else healthRule pet (rHealth d) (decayUpdates pet now d))).
  { destruct (insuranceEngages pet _); [| exact Hrule].
    apply Forall_app. split; [exact Hrule |]. entries.
    unfold stat_ok; lra. }
  destruct (has_insurance pet); [| exact Hfloor].
  apply Forall_app. split; [exact Hfloor |]. entries.
  apply JsFacts.max_lower.
Qed.

Lemma progressDay_ok (pet : Pet) (now : Z) (d : Draws) :
  pet_ok pet -> draws_ok d -> Forall effect_ok (progressDay pet now d).
Proof.
  intros Hp Hd. unfold progressDay.
  apply Forall_app. split.
  { destruct (insuranceEngages pet _); entries. }
  apply Forall_app. split.
  { destruct (has_insurance pet); entries. }
  entries. apply dayUpdates_ok; assumption.
Qed.

Lemma handleCareAction_ok (pet : Pet) (a : Act.t) (baseCost : Q) :
  pet_ok pet -> Forall effect_ok (handleCareAction pet a baseCost).
Proof.
  intros (Ph & Pa & Pe & Py & Pl & Pc & Px & Pd).
  unfold handleCareAction.
  destruct (Js.lt (coins pet) (baseCost * getCostMultiplier pet)) eqn:G;
    [constructor |].
  apply JsFacts.lt_false in G.
  destruct a; cbv zeta iota beta;
    repeat match goal with
           | |- context [if ?c then _ else _] => destruct c
           end;
    entries;
    try (apply stat_ok_min_up; [assumption | lra]);
    try (apply stat_ok_max_down; [assumption | lra]);
    try lra.
Qed.

Lemma careClick_ok (pet : Pet) (pending : bool) (a : Act.t) :
  pet_ok pet -> Forall effect_ok (careClick pet pending a).
Proof.
  intros Hp. unfold careClick, CareActions.click.
  destruct (pending || negb _); [constructor |].
  apply handleCareAction_ok. exact Hp.
Qed.

Lemma floor_nonneg (x : Q) : 0 <= x -> 0 <= Js.floor x.
Proof.
  intros H. unfold Js.floor. change 0 with (inject_Z 0).
  rewrite <- Zle_Qle. rewrite <- (Qfloor_Z 0).
  apply Qfloor_resp_le. exact H.
Qed.

Lemma round_nonneg (x : Q) : 0 <= x -> 0 <= Js.round x.
Proof.
  intros H. apply (floor_nonneg (x + (1 # 2))). lra.
Qed.

Lemma cleanPercentage_nonneg (total remaining : Z) :
  (0 <= remaining <= total)%Z -> 0 <= cleanPercentage total remaining.
Proof.
  intros [H0 H1]. unfold cleanPercentage.
  destruct (0 <? total)%Z eqn:T; [| lra].
  apply Z.ltb_lt in T.
  assert (Hr : 0 <= Js.round
                      (inject_Z (total - remaining) / inject_Z total * 100)).
  { apply round_nonneg. apply Qmult_le_0_compat; [| lra].
    apply Qle_shift_div_l.
    - change 0 with (inject_Z 0). rewrite <- Zlt_Qlt. exact T.
    - rewrite Qmult_0_l. change 0 with (inject_Z 0). rewrite <- Zle_Qle. lia. }
  destruct (JsFacts.min_cases 100
              (Js.round (inject_Z (total - remaining) / inject_Z total * 100)))
    as [[? E] | [? E]]; lra.
Qed.

Lemma reward_nonneg (g : GameResult) : game_ok g -> 0 <= reward g.
Proof.
  destruct g as [r | mistakes | total remaining]; simpl; intros H.
  - destruct H as [H0 H1].
    assert (0 <= Js.floor (r * 6)) by (apply floor_nonneg; lra). lra.
  - pose proof (JsFacts.max_cases (30 - inject_Z mistakes * 5) 10)
      as [[? E] | [? E]]; lra.
  - apply round_nonneg. apply Qmult_le_0_compat; [| lra].
    apply cleanPercentage_nonneg. exact H.
Qed.

Lemma handleGameComplete_ok (pet : Pet) (r : Q) :
  pet_ok pet -> 0 <= r -> Forall effect_ok (handleGameComplete pet r).
Proof.
  intros (_ & _ & _ & _ & _ & Pc & _) Hr. unfold handleGameComplete.
  apply Forall_app. split.
  { destruct (_ && _); entries. }
  entries. lra.
Qed.

Lemma handleBuyInsurance_ok (pet : Pet) :
  pet_ok pet -> Forall effect_ok (handleBuyInsurance pet).
Proof.
  intros Hp. unfold handleBuyInsurance.
  destruct (Js.lt (coins pet) 15) eqn:G; [constructor |].
  apply JsFacts.lt_false in G. entries. lra.
Qed.

Lemma learnTrickClick_ok (pet : Pet) (t : Trick.t) :
  pet_ok pet -> Forall effect_ok (learnTrickClick pet t).
Proof.
  intros Hp. unfold learnTrickClick.
  destruct (Js.includes _ _); [constructor |].
  destruct (Js.lt (coins pet) (Trick.cost t)) eqn:G; [constructor |].
  apply JsFacts.lt_false in G.
  destruct (Js.ge _ _); entries. lra.
Qed.

Lemma performTrickClick_ok (pet : Pet) (performing : option string)
    (t : Trick.t) :
  pet_ok pet -> Forall effect_ok (performTrickClick pet performing t).
Proof.
  intros (Ph & Pa & Pe & Py & Pl & Pc & Px & Pd).
  unfold performTrickClick, onPerformTrick.
  destruct (Js.includes _ _); [| constructor].
  destruct (_ && _); entries.
  - apply stat_ok_min_up; [assumption | lra].
  - apply stat_ok_max_down; [assumption | lra].
  - lia.
Qed.

Lemma buyToyClick_ok (pet : Pet) (t : Toy.t) :
  pet_ok pet -> Forall effect_ok (buyToyClick pet t).
Proof.
  intros (Ph & Pa & Pe & Py & Pl & Pc & Px & Pd). unfold buyToyClick.
  destruct (Js.includes _ _); [constructor |].
  destruct (Js.lt (coins pet) (Toy.cost t)) eqn:G; [constructor |].
  apply JsFacts.lt_false in G.
  destruct (Js.ge _ _); entries.
  - lra.
  - apply stat_ok_min_up; [assumption | destruct t; simpl; lra].
Qed.

Lemma evolutionCheck_ok (pet : Pet) (evolving : bool) :
  pet_ok pet -> Forall effect_ok (evolutionCheck pet evolving).
Proof.
  intros (Ph & Pa & Pe & Py & Pl & Pc & Px & Pd). unfold evolutionCheck.
  destruct evolving; [constructor |].
  destruct (_ && _); [entries; lia |].
  destruct (_ && _); entries; lia.
Qed.

Lemma handle_ok (w : World) (pet : Pet) (e : Event) :
  pet_ok pet -> event_ok e -> Forall effect_ok (handle w pet e).
Proof.
  intros Hp He. destruct e; cbn [handle].
  - apply progressDay_ok; assumption.
  - unfold deathCheck. destruct (_ && _); entries.
  - apply evolutionCheck_ok; assumption.
  - entries.
  - entries.
  - destruct (deathScreen w); [constructor |].
    apply careClick_ok; assumption.
  - destruct (deathScreen w); [constructor |].
    apply handleGameComplete_ok; [assumption | apply reward_nonneg, He].
  - destruct (deathScreen w); [constructor |].
    apply handleBuyInsurance_ok; assumption.
  - destruct (deathScreen w); [constructor |].
    apply learnTrickClick_ok; assumption.
  - destruct (deathScreen w); [constructor |].
    apply performTrickClick_ok; assumption.
  - destruct (deathScreen w); [constructor |].
    apply buyToyClick_ok; assumption.
  - destruct (deathScreen w); entries.
  - destruct (deathScreen w); entries.
  - constructor.
Qed.

Lemma newPet_ok (form : PetAdopt.Form) (chosen : Species) (i : PetId)
    (now : Z) :
  pet_ok (PetAdopt.newPet form chosen i now).
Proof. unfold pet_ok, stat_ok; simpl. repeat split; try lra; lia. Qed.

(** Every step keeps every stored pet within bounds. *)
Lemma step_ok (w : World) (e : Event) :
  Forall pet_ok (pets (store w)) -> event_ok e ->
  Forall pet_ok (pets (store (step w e))).
Proof.
  intros Hw He.
  assert (Hcur : forall pet, currentPet w = Some pet -> pet_ok pet).
  { intros pet H. unfold currentPet in H.
    destruct (pets (store w)) as [| p l]; [discriminate |].
    injection H as <-. inversion Hw; assumption. }
  assert (Hrun : match currentPet w with
                 | Some pet => Forall pet_ok (pets (store (run w (handle w pet e))))
                 | None => Forall pet_ok (pets (store w))
                 end).
  { destruct (currentPet w) as [pet |]; [| exact Hw].
    apply run_ok; [exact Hw | apply handle_ok; auto]. }
  destruct e; try (unfold step; destruct (currentPet w); exact Hrun).
  unfold step, PetAdopt.handleAdopt.
  destruct (Js.truthy _); [exact Hw |].
  destruct (PetAdopt.selectedPet form) as [chosen |]; [| exact Hw].
  fold (clearedStore (store w)).
  destruct (clearedStore_spec (store w)) as (P & _).
  simpl. rewrite P. apply Forall_cons; [apply newPet_ok | apply Forall_nil].
Qed.

Lemma reachable_ok (w : World) :
  reachable w -> Forall pet_ok (pets (store w)).
Proof.
  induction 1 as [| w e Hr IH He].
  - constructor.
  - apply step_ok; assumption.
Qed.

(** C5.  In every world reachable from the empty store, whatever happens
    next (a day-advance, a care action, a trick purchase or performance,
    a toy purchase, an insurance purchase, a game reward, the evolution
    or death check, an adoption), every stored pet has hunger, happiness,
    energy, hygiene and health between 0 and 100, and coins, experience
    and days alive at least 0. *)
Theorem stats_stay_in_bounds (w : World) (e : Event) (p : Pet) :
  reachable w -> event_ok e -> In p (pets (store (step w e))) ->
  (0 <= hunger p /\ hunger p <= 100)
  /\ (0 <= happiness p /\ happiness p <= 100)
  /\ (0 <= energy p /\ energy p <= 100)
  /\ (0 <= hygiene p /\ hygiene p <= 100)
  /\ (0 <= health p /\ health p <= 100)
  /\ 0 <= coins p /\ (0 <= experience p)%Z /\ (0 <= days_alive p)%Z.
Proof.
  intros Hr He Hin.
  pose proof (step_ok w e (reachable_ok w Hr) He) as H.
  rewrite Forall_forall in H. apply (H p Hin).
Qed.

Lemma reachable_steps (es : list Event) (w : World) :
  reachable w -> Forall event_ok es -> reachable (fold_left step es w).
Proof.
  revert w. induction es as [| e es IH]; intros w Hw Hes.
  - exact Hw.
  - inversion Hes; subst. simpl. apply IH; [| assumption].
    apply reach_step; assumption.
Qed.

Lemma draws_ok_half : draws_ok Sample.half.
Proof. unfold draws_ok, unit_draw; simpl; repeat split; lra. Qed.

Lemma draws_ok_high : draws_ok Sample.high.
Proof. unfold draws_ok, unit_draw; simpl; repeat split; lra. Qed.

Lemma reachable_adopted : reachable Sample.adopted.
Proof. apply reach_step; [apply reach_init | exact I]. Qed.

Lemma stats_stay_in_bounds_witness :
  let p := applyUpdates Sample.egg0 (dayUpdates Sample.egg0 1 Sample.half) in
  (0 <= hunger p /\ hunger p <= 100) /\ (0 <= health p /\ health p <= 100)
  /\ 0 <= coins p.
Proof.
  intros p.
  destruct (stats_stay_in_bounds Sample.adopted
              (DayTimeout 1 Sample.half) p)
    as (Hh & _ & _ & _ & Hl & Hc & _).
  - exact reachable_adopted.
  - exact draws_ok_half.
  - left. reflexivity.
  - repeat split; tauto.
Defined.

(* ================================================================== *)
(** ** The price of a care action *)

(** The button row rejects a click while the coins are below the
    rounded-up price. *)
Lemma careClick_rejected (pet : Pet) (a : Act.t) :
  coins pet < CareActions.actualCost a (getCostMultiplier pet) ->
  careClick pet false a = [].
Proof.
  intros H. unfold careClick, CareActions.click, CareActions.canAfford.
  apply JsFacts.ge_false in H. rewrite H. reflexivity.
Qed.

(** An accepted click charges the base cost times the multiplier, as it
    is, and records that amount. *)
Lemma careClick_accepted (pet : Pet) (a : Act.t) :
  CareActions.actualCost a (getCostMultiplier pet) <= coins pet ->
  let cost := Act.cost a * getCostMultiplier pet in
  (exists u, issued_updates (careClick pet false a) = [u]
             /\ get_coins u = Some (coins pet - cost))
  /\ (0 < cost ->
      exists text, created_expenses (careClick pet false a)
                   = [mkExpense (id pet) (Act.id a) cost text])
  /\ (cost <= 0 -> created_expenses (careClick pet false a) = []).
Proof.
  intros H cost.
  assert (Hle : cost <= coins pet).
  { pose proof (Qle_ceiling cost). unfold CareActions.actualCost, Js.ceil in H.
    fold cost in H. lra. }
  unfold careClick, CareActions.click, CareActions.canAfford.
  apply JsFacts.ge_true in H. rewrite H. cbn [orb negb].
  unfold handleCareAction. fold cost.
  apply JsFacts.lt_false in Hle. rewrite Hle.
  split; [| split].
  - destruct a; cbv zeta iota beta;
      repeat match goal with
             | |- context [if ?c then _ else _] => destruct c
             end;
      eexists; split; reflexivity.
  - intros Hpos. apply JsFacts.gt_true in Hpos.
    destruct a; cbv zeta iota beta; rewrite Hpos;
      repeat match goal with
             | |- context [if ?c then _ else _] => destruct c
             end;
      eexists; reflexivity.
  - intros Hzero. apply JsFacts.gt_false in Hzero.
    destruct a; cbv zeta iota beta; rewrite Hzero;
      repeat match goal with
             | |- context [if ?c then _ else _] => destruct c
             end;
      reflexivity.
Qed.

(** C6, at a pet adopted five days ago with its 50 coins, which is
    cleaned: the price on the button is 9 and the click is accepted, yet
    the update lowers the coins by 8.4 and the Expense record carries
    8.4. *)
Theorem care_action_charges_unrounded_price :
  let w := Sample.fiveDaysOld in
  let w' := step w (CareClick Act.clean) in
  reachable w
  /\ exists p p' x,
       currentPet w = Some p /\ currentPet w' = Some p'
       /\ days_alive p = 5%Z /\ coins p == 50
       /\ Act.cost Act.clean == 7 /\ getCostMultiplier p == 12 # 10
       /\ CareActions.actualCost Act.clean (getCostMultiplier p) == 9
       /\ coins p - coins p' == 84 # 10
       /\ expenses (store w) = [] /\ map fields (expenses (store w')) = [x]
       /\ type x = "clean"%string /\ amount x == 84 # 10.
Proof.
  cbv zeta. split.
  - apply reachable_steps; [exact reachable_adopted |].
    repeat (apply Forall_cons || apply Forall_nil);
      try exact I; exact draws_ok_half.
  - eexists. eexists. eexists.
    split; [vm_compute; reflexivity |].
    split; [vm_compute; reflexivity |].
    split; [reflexivity |]. split; [reflexivity |].
    split; [reflexivity |]. split; [reflexivity |].
    split; [reflexivity |]. split; [reflexivity |].
    split; [vm_compute; reflexivity |].
    split; [vm_compute; reflexivity |].
    split; reflexivity.
Qed.

(* ================================================================== *)
(** ** The Expense ledger *)

Lemma progressDay_expenses (pet : Pet) (now : Z) (d : Draws) :
  created_expenses (progressDay pet now d) =
  if has_insurance pet then
    [mkExpense (id pet) "insurance" (getInsuranceCost pet)
               "Daily insurance payment"]
  else [].
Proof.
  unfold progressDay.
  destruct (insuranceEngages pet _), (has_insurance pet); reflexivity.
Qed.

(** What each coin-taking operation leaves in the ledger.  A care action
    of nonzero cost, the daily insurance billing and the insurance
    activation each create exactly one Expense record, with the pet's id,
    the type, the amount and a description, next to the coins they take;
    a trick purchase and a toy purchase take coins and create none. *)
Lemma expense_ledger_entries (pet : Pet) :
  (forall a,
     CareActions.actualCost a (getCostMultiplier pet) <= coins pet ->
     0 < Act.cost a * getCostMultiplier pet ->
     exists text u,
       created_expenses (careClick pet false a)
       = [mkExpense (id pet) (Act.id a)
                    (Act.cost a * getCostMultiplier pet) text]
       /\ issued_updates (careClick pet false a) = [u]
       /\ get_coins u
          = Some (coins pet - Act.cost a * getCostMultiplier pet))
  /\ (has_insurance pet = true -> forall now d,
       created_expenses (progressDay pet now d)
       = [mkExpense (id pet) "insurance" (getInsuranceCost pet)
                    "Daily insurance payment"]
       /\ get_coins (dayUpdates pet now d)
          = Some (Js.max 0 (coins pet - getInsuranceCost pet)))
  /\ (15 <= coins pet ->
       created_expenses (handleBuyInsurance pet)
       = [mkExpense (id pet) "insurance" 15 "Insurance activation fee"]
       /\ exists u, issued_updates (handleBuyInsurance pet) = [u]
                    /\ get_coins u = Some (coins pet - 15))
  /\ (forall t, Js.includes (tricks pet) (Trick.id t) = false ->
       Trick.cost t <= coins pet ->
       created_expenses (learnTrickClick pet t) = []
       /\ exists u, issued_updates (learnTrickClick pet t) = [u]
                    /\ get_coins u = Some (coins pet - Trick.cost t))
  /\ (forall t, Js.includes (toys pet) (Toy.ownedKey t) = false ->
       Toy.cost t <= coins pet ->
       created_expenses (buyToyClick pet t) = []
       /\ exists u, issued_updates (buyToyClick pet t) = [u]
                    /\ get_coins u = Some (coins pet - Toy.cost t)).
Proof.
  split; [| split; [| split; [| split]]].
  - intros a Hafford Hpos.
    destruct (careClick_accepted pet a Hafford) as ((u & Hu & Hc) & He & _).
    destruct (He Hpos) as [text Ht].
    exists text, u. repeat split; assumption.
  - intros Hins now d. rewrite progressDay_expenses, Hins.
    split; [reflexivity |].
    unfold dayUpdates. rewrite Hins.
    generalize (if insuranceEngages pet
                     (healthRule pet (rHealth d) (decayUpdates pet now d))
                then healthRule pet (rHealth d) (decayUpdates pet now d)
                     ++ [SetHealth 20]
                else healthRule pet (rHealth d) (decayUpdates pet now d)).
    intros u. induction u as [| a u IH]; [reflexivity |].
    simpl. rewrite IH. reflexivity.
  - intros H. unfold handleBuyInsurance.
    apply JsFacts.lt_false in H. rewrite H.
    split; [reflexivity |]. eexists. split; reflexivity.
  - intros t Hnew Hcoins. unfold learnTrickClick. rewrite Hnew.
    pose proof Hcoins as Hge. apply JsFacts.ge_true in Hge.
    apply JsFacts.lt_false in Hcoins. rewrite Hcoins, Hge.
    split; [reflexivity |]. eexists. split; reflexivity.
  - intros t Hnew Hcoins. unfold buyToyClick. rewrite Hnew.
    pose proof Hcoins as Hge. apply JsFacts.ge_true in Hge.
    apply JsFacts.lt_false in Hcoins. rewrite Hcoins, Hge.
    split; [reflexivity |]. eexists. split; reflexivity.
Qed.

Lemma reachable_fedThrice : reachable Sample.fedThrice.
Proof.
  apply reachable_steps; [exact reachable_adopted |].
  repeat (apply Forall_cons || apply Forall_nil); exact I.
Qed.

(** C7, at a pet fed three times since its adoption (20 coins left,
    three Expense records) that learns Roll Over for 20 coins, and at a
    newly adopted pet that buys the Ball for 10 coins: each purchase
    lowers the coins and the ledger gains no record, whereas each of the
    feedings had added one. *)
Theorem shop_purchases_unledgered :
  let w := Sample.fedThrice in
  let w' := step w (LearnTrickClick Trick.roll) in
  let v := Sample.adopted in
  let v' := step v (BuyToyClick Toy.ball) in
  reachable w /\ reachable v
  /\ (exists p p',
        currentPet w = Some p /\ currentPet w' = Some p'
        /\ coins p == 20 /\ coins p' == 0
        /\ tricks p' = ["roll"%string])
  /\ map (fun x => type (fields x)) (expenses (store w))
     = ["feed"%string; "feed"%string; "feed"%string]
  /\ expenses (store w') = expenses (store w)
  /\ (exists q q',
        currentPet v = Some q /\ currentPet v' = Some q'
        /\ coins q == 50 /\ coins q' == 40
        /\ toys q' = ["ball"%string])
  /\ expenses (store v') = expenses (store v).
Proof.
  cbv zeta.
  split; [exact reachable_fedThrice |].
  split; [exact reachable_adopted |].
  split.
  { eexists. eexists.
    split; [vm_compute; reflexivity |].
    split; [vm_compute; reflexivity |].
    repeat split; reflexivity. }
  split; [vm_compute; reflexivity |].
  split; [vm_compute; reflexivity |].
  split.
  { eexists. eexists.
    split; [vm_compute; reflexivity |].
    split; [vm_compute; reflexivity |].
    repeat split; reflexivity. }
  vm_compute. reflexivity.
Qed.

(* ================================================================== *)
(** ** Tricks and toys *)

(** The trick shop keeps its part: an owned trick has no button, and a
    purchase keeps the list free of duplicates. *)
Lemma learnTrick_owned (pet : Pet) (t : Trick.t) :
  In (Trick.id t) (tricks pet) -> learnTrickClick pet t = [].
Proof.
  intros H. apply JsFacts.includes_In in H.
  unfold learnTrickClick. rewrite H. reflexivity.
Qed.

Lemma learnTrick_poor (pet : Pet) (t : Trick.t) :
  coins pet < Trick.cost t -> learnTrickClick pet t = [].
Proof.
  intros H. apply JsFacts.lt_true in H.
  unfold learnTrickClick. rewrite H. destruct (Js.includes _ _); reflexivity.
Qed.

Lemma learnTrick_no_duplicate (pet : Pet) (t : Trick.t) (u : Updates) :
  NoDup (tricks pet) -> In u (issued_updates (learnTrickClick pet t)) ->
  NoDup (tricks (applyUpdates pet u))
  /\ tricks (applyUpdates pet u) = tricks pet ++ [Trick.id t]
  /\ coins (applyUpdates pet u) = coins pet - Trick.cost t.
Proof.
  intros Hnd Hu. unfold learnTrickClick in Hu.
  destruct (Js.includes (tricks pet) (Trick.id t)) eqn:Hin; [destruct Hu |].
  destruct (Js.lt _ _); [destruct Hu |].
  destruct (Js.ge _ _); [| destruct Hu].
  destruct Hu as [<- | []].
  assert (Hnot : ~ In (Trick.id t) (tricks pet)).
  { intros H. apply JsFacts.includes_In in H. congruence. }
  destruct pet; simpl in *. repeat split.
  apply NoDup_app; repeat split; try assumption.
  - repeat constructor. intros [].
  - intros x Hx [<- | []]. exact (Hnot Hx).
Qed.

(** The scenario of the trick shop: 20 coins buy Roll Over, the coins
    fall to 0, the id is stored once, and a second click does nothing. *)
Lemma trick_scenario :
  let w1 := step Sample.fedThrice (LearnTrickClick Trick.roll) in
  (exists p, currentPet w1 = Some p /\ coins p == 0
             /\ tricks p = ["roll"%string])
  /\ step w1 (LearnTrickClick Trick.roll) = w1.
Proof.
  cbv zeta. split.
  - eexists. split; [vm_compute; reflexivity |].
    split; reflexivity.
  - vm_compute. reflexivity.
Qed.

(** The stored id of a toy is the key its row tests for the Ball only. *)
Lemma toy_id_is_key (t : Toy.t) : Toy.id t = Toy.ownedKey t <-> t = Toy.ball.
Proof.
  destruct t; split; intros H; try reflexivity; discriminate H.
Qed.

(** Buying any other toy leaves its row not owned. *)
Lemma toy_stays_buyable (pet : Pet) (t : Toy.t) :
  t <> Toy.ball ->
  Js.includes (toys pet) (Toy.ownedKey t) = false ->
  Js.includes (toys pet ++ [Toy.id t]) (Toy.ownedKey t) = false.
Proof.
  intros Ht H. unfold Js.includes in *. rewrite existsb_app, H.
  destruct t; try reflexivity. contradiction Ht. reflexivity.
Qed.

(** C8, at a newly adopted pet (50 coins, happiness 50) whose owner
    clicks the Squeaky Toy row twice.  The row tests
    [pet.toys.includes('squeaky')] while the purchase stores the id
    squeakytoy, so the row never shows the toy as owned: the second click
    is accepted too, takes 20 coins more, stores the id a second time and
    applies the happiness boost again. *)
Theorem toy_bought_twice :
  let w1 := step Sample.adopted (BuyToyClick Toy.squeaky) in
  let w2 := step w1 (BuyToyClick Toy.squeaky) in
  reachable w2
  /\ Toy.id Toy.squeaky = "squeakytoy"%string
  /\ Toy.ownedKey Toy.squeaky = "squeaky"%string
  /\ (exists p1, currentPet w1 = Some p1
        /\ toys p1 = ["squeakytoy"%string]
        /\ coins p1 == 30 /\ happiness p1 == 60
        /\ Js.includes (toys p1) (Toy.ownedKey Toy.squeaky) = false)
  /\ (exists p2, currentPet w2 = Some p2
        /\ toys p2 = ["squeakytoy"%string; "squeakytoy"%string]
        /\ coins p2 == 10 /\ happiness p2 == 70
        /\ ~ NoDup (toys p2)).
Proof.
  cbv zeta. split; [| split; [| split; [| split]]].
  - repeat (apply reach_step; [| exact I]). apply reach_init.
  - reflexivity.
  - reflexivity.
  - eexists. split; [vm_compute; reflexivity |].
    repeat split; reflexivity.
  - eexists. split; [vm_compute; reflexivity |].
    split; [reflexivity |]. split; [reflexivity |]. split; [reflexivity |].
    intros H. inversion H as [| x l Hnot _]; subst.
    apply Hnot. left. reflexivity.
Qed.

(* ================================================================== *)
(** ** After the death *)

(** On the memorial screen the clicks of the care page have no button. *)
Lemma death_screen_blocks_care (w : World) (a : Act.t) :
  deathScreen w = true -> step w (CareClick a) = w.
Proof.
  intros H. unfold step. destruct (currentPet w); [| reflexivity].
  cbn [handle]. rewrite H. reflexivity.
Qed.

(** The day-advance does not look at [petDied]: whatever the page has
    recorded, the timer ages the pet. *)
Lemma day_advance_ignores_death (w : World) (pet : Pet) (now : Z) (d : Draws) :
  pets (store w) = [pet] ->
  exists next,
    pets (store (step w (DayTimeout now d))) = [next]
    /\ days_alive next = (days_alive pet + 1)%Z
    /\ experience next = (experience pet + 1)%Z.
Proof.
  intros H. destruct (day_on_single w pet now d H) as [P _].
  destruct (dayUpdates_fields pet now d) as (_ & _ & X & D & _).
  eexists. split; [exact P |]. split; assumption.
Qed.

Lemma reachable_neglected : reachable Sample.neglected.
Proof.
  apply reachable_steps; [exact reachable_adopted |].
  repeat (apply Forall_cons || apply Forall_nil);
    try exact I; exact draws_ok_high.
Qed.

(** C2, at the pet left without care for nine days: its health is 0, the
    death check has recorded the death and the memorial screen is up.
    The care buttons are gone, but the day timer still fires: the next
    day-advance raises [days_alive] and [experience], moves [last_fed]
    and decays the happiness of the dead pet. *)
Theorem dead_pet_still_advances :
  let w := Sample.neglected in
  let w' := step w (DayTimeout 1 Sample.half) in
  reachable w
  /\ petDied w = true /\ deathScreen w = true
  /\ (forall a, step w (CareClick a) = w)
  /\ exists p q,
       currentPet w = Some p /\ currentPet w' = Some q
       /\ health p <= 0
       /\ days_alive p = 9%Z /\ days_alive q = 10%Z
       /\ experience q = (experience p + 1)%Z
       /\ happiness q < happiness p
       /\ last_fed q = Some 1%Z.
Proof.
  cbv zeta. split; [exact reachable_neglected |].
  split; [vm_compute; reflexivity |].
  split; [vm_compute; reflexivity |].
  split.
  - intros a. apply death_screen_blocks_care. vm_compute. reflexivity.
  - eexists. eexists.
    split; [vm_compute; reflexivity |].
    split; [vm_compute; reflexivity |].
    split; [vm_compute; discriminate |].
    repeat split; reflexivity.
Qed.


(* ================================================================== *)
(** * Further properties of the care page *)

(** ** Prices and the length of a day *)

Lemma ageGroup_mono (a b n : Z) :
  (0 < n)%Z -> (0 <= a <= b)%Z ->
  0 <= inject_Z (a / n) /\ inject_Z (a / n) <= inject_Z (b / n).
Proof.
  intros Hn [Ha Hab]. split.
  - change 0 with (inject_Z 0). rewrite <- Zle_Qle. apply Z.div_pos; lia.
  - rewrite <- Zle_Qle. apply Z.div_le_mono; assumption.
Qed.

(** X2.  The daily insurance cost starts at half a coin, never falls as
    the pet ages, and is half a coin more per full five days. *)
Theorem insurance_cost_grows_with_age (p q : Pet) :
  (0 <= days_alive p <= days_alive q)%Z ->
  1 # 2 <= getInsuranceCost p
  /\ getInsuranceCost p <= getInsuranceCost q
  /\ ((days_alive q = days_alive p + 5)%Z ->
      getInsuranceCost q == getInsuranceCost p + (1 # 2)).
Proof.
  intros H. destruct (ageGroup_mono _ _ 5 eq_refl H) as [H0 H1].
  unfold getInsuranceCost. repeat split; try lra.
  intros ->.
  replace ((days_alive p + 5) / 5)%Z with (days_alive p / 5 + 1)%Z.
  - rewrite inject_Z_plus. ring.
  - replace (days_alive p + 5)%Z with (days_alive p + 1 * 5)%Z by lia.
    rewrite Z.div_add by lia. reflexivity.
Qed.

Lemma insurance_cost_grows_with_age_witness :
  getInsuranceCost (applyUpdates Sample.egg0 [SetDaysAlive 5])
  == getInsuranceCost Sample.egg0 + (1 # 2).
Proof.
  destruct (insurance_cost_grows_with_age Sample.egg0
              (applyUpdates Sample.egg0 [SetDaysAlive 5])) as (_ & _ & H).
  - simpl. lia.
  - apply H. reflexivity.
Defined.

(** X3.  A day lasts two minutes for a pet under ten days old, ten
    seconds less with every ten days of age up to the sixtieth, and one
    minute from the sixtieth day on; so it lasts between one and two
    minutes and never gets longer as the pet ages. *)
Theorem day_duration_bounds (p q : Pet) :
  (0 <= days_alive p <= days_alive q)%Z ->
  (60000 <= getDayDuration (Some q))%Z
  /\ (getDayDuration (Some q) <= getDayDuration (Some p))%Z
  /\ (getDayDuration (Some p) <= 120000)%Z
  /\ ((60 <= days_alive q)%Z -> getDayDuration (Some q) = 60000%Z)
  /\ ((days_alive p < 10)%Z -> getDayDuration (Some p) = 120000%Z)
  /\ ((days_alive p < 60)%Z ->
      getDayDuration (Some p) = (120000 - 10000 * (days_alive p / 10))%Z)
  /\ ((days_alive p < 60)%Z -> (days_alive q = days_alive p + 10)%Z ->
      getDayDuration (Some q) = (getDayDuration (Some p) - 10000)%Z).
Proof.
  intros [Hp Hpq]. unfold getDayDuration. cbv zeta.
  assert (H0 : (0 <= days_alive p / 10)%Z) by (apply Z.div_pos; lia).
  assert (H1 : (days_alive p / 10 <= days_alive q / 10)%Z)
    by (apply Z.div_le_mono; lia).
  assert (H5 : (days_alive p < 60)%Z -> (days_alive p / 10 <= 5)%Z).
  { intros H. apply Z.lt_succ_r. apply Z.div_lt_upper_bound; lia. }
  set (g := (days_alive p / 10)%Z) in *.
  repeat split; try lia.
  - intros H60.
    assert (6 <= days_alive q / 10)%Z
      by (change 6%Z with (60 / 10)%Z; apply Z.div_le_mono; lia).
    lia.
  - intros H10.
    assert (g = 0)%Z by (subst g; apply Z.div_small; lia).
    lia.
  - intros H60 E. specialize (H5 H60).
    assert (Hq : (days_alive q / 10 = g + 1)%Z).
    { rewrite E.
      replace (days_alive p + 10)%Z with (days_alive p + 1 * 10)%Z by lia.
      rewrite Z.div_add by lia. reflexivity. }
    rewrite Hq. lia.
Qed.

Lemma day_duration_bounds_witness :
  (getDayDuration (Some (applyUpdates Sample.egg0 [SetDaysAlive 75]))
   = 60000)%Z
  /\ (getDayDuration (Some (applyUpdates Sample.egg0 [SetDaysAlive 10]))
      = getDayDuration (Some Sample.egg0) - 10000)%Z.
Proof.
  split.
  - destruct (day_duration_bounds Sample.egg0
                (applyUpdates Sample.egg0 [SetDaysAlive 75]))
      as (_ & _ & _ & H & _).
    + simpl. lia.
    + apply H. simpl. lia.
  - destruct (day_duration_bounds Sample.egg0
                (applyUpdates Sample.egg0 [SetDaysAlive 10]))
      as (_ & _ & _ & _ & _ & _ & H).
    + simpl. lia.
    + apply H; simpl; lia.
Defined.





(* ================================================================== *)
(** ** One pet, and what an event can change of it *)

Lemma run_pets (es : list Effect) (w : World) :
  pets (store (run w es)) = settle (pets (store w)) es.
Proof.
  revert w. induction es as [| e es IH]; intros w.
  - reflexivity.
  - change (run w (e :: es)) with (run (apply_effect w e) es).
    rewrite IH. destruct w as [s died stats evolving trick log].
    destruct e; reflexivity.
Qed.

Lemma settle_length (es : list Effect) (ps : list Pet) :
  (List.length (settle ps es) <= List.length ps)%nat.
Proof.
  revert ps. induction es as [| e es IH]; intros ps; simpl.
  - lia.
  - eapply Nat.le_trans; [apply IH |].
    destruct e; try lia.
    + rewrite length_map. lia.
    + apply filter_length_le.
Qed.

Lemma settle_keeps (U : Updates -> Prop) (R : Pet -> Prop)
    (es : list Effect) (ps : list Pet) :
  (forall p u, R p -> U u -> R (applyUpdates p u)) ->
  Forall (effects_satisfy U) es -> Forall R ps -> Forall R (settle ps es).
Proof.
  intros Hstep. revert ps. induction es as [| e es IH]; intros ps Hes Hps.
  - exact Hps.
  - inversion Hes as [| e' es' He Hes']; subst. simpl. apply IH; [exact Hes' |].
    destruct e; try exact Hps.
    + apply Forall_map. revert Hps. apply Forall_impl. intros p Hp.
      destruct (id p =? target)%N; [apply Hstep |]; assumption.
    + rewrite Forall_forall in *. intros p Hp. apply filter_In in Hp.
      apply Hps, Hp.
Qed.

(** An update whose entries all satisfy [A] keeps [R], when every single
    entry does. *)
Lemma entries_keep (A : Assign -> Prop) (R : Pet -> Prop) :
  (forall p a, R p -> A a -> R (applyAssign p a)) ->
  forall p u, R p -> Forall A u -> R (applyUpdates p u).
Proof.
  intros Hstep p u. revert p. induction u as [| a u IH]; intros p Hp Hu.
  - exact Hp.
  - inversion Hu; subst.
    change (applyUpdates p (a :: u)) with (applyUpdates (applyAssign p a) u).
    apply IH; [apply Hstep |]; assumption.
Qed.

Lemma step_on_page (w : World) (pet : Pet) (e : Event) :
  currentPet w = Some pet -> on_page e ->
  step w e = run w (handle w pet e).
Proof.
  intros H He. unfold step. rewrite H. destruct e; try reflexivity.
  destruct He.
Qed.

Lemma step_without_pet (w : World) (e : Event) :
  currentPet w = None -> on_page e -> step w e = w.
Proof.
  intros H He. unfold step. rewrite H. destruct e; try reflexivity.
  destruct He.
Qed.

Lemma step_length (w : World) (e : Event) :
  (List.length (pets (store w)) <= 1)%nat ->
  (List.length (pets (store (step w e))) <= 1)%nat.
Proof.
  intros Hw.
  assert (Hrun : forall es,
             (List.length (pets (store (run w es))) <= 1)%nat).
  { intros es. rewrite run_pets.
    eapply Nat.le_trans; [apply settle_length | exact Hw]. }
  destruct e;
    try (unfold step; destruct (currentPet w); [apply Hrun | exact Hw]).
  unfold step, PetAdopt.handleAdopt.
  destruct (Js.truthy _); [exact Hw |].
  destruct (PetAdopt.selectedPet form) as [chosen |]; [| exact Hw].
  fold (clearedStore (store w)).
  destruct (clearedStore_spec (store w)) as (P & _).
  simpl. rewrite P. simpl. lia.
Qed.

Lemma reachable_one_pet (w : World) :
  reachable w -> (List.length (pets (store w)) <= 1)%nat.
Proof.
  induction 1 as [| w e Hr IH He].
  - simpl. lia.
  - apply step_length. exact IH.
Qed.

Lemma reachable_current (w : World) (pet : Pet) :
  reachable w -> currentPet w = Some pet ->
  pets (store w) = [pet] /\ pet_ok pet.
Proof.
  intros Hr Hc. pose proof (reachable_one_pet w Hr) as Hl.
  pose proof (reachable_ok w Hr) as Hok.
  unfold currentPet in Hc.
  destruct (pets (store w)) as [| p [| p' l]]; simpl in *;
    try discriminate; try lia.
  injection Hc as <-. split; [reflexivity |]. inversion Hok; assumption.
Qed.

(** X5.  At most one pet lives in the store: in every world a session
    can reach the store holds no pet or exactly one, and a successful
    adoption always leaves exactly one, whatever it found. *)
Theorem one_pet_at_a_time (w : World) :
  reachable w ->
  (pets (store w) = [] \/ exists pet, pets (store w) = [pet])
  /\ (forall form now chosen,
        PetAdopt.validatePetName (PetAdopt.petName form) = EmptyString ->
        PetAdopt.selectedPet form = Some chosen ->
        exists pet, pets (store (step w (Adopt form now))) = [pet]
                    /\ stage pet = egg /\ days_alive pet = 0%Z).
Proof.
  intros Hr. split.
  - pose proof (reachable_one_pet w Hr) as Hl.
    destruct (pets (store w)) as [| p [| p' l]]; simpl in Hl.
    + left. reflexivity.
    + right. exists p. reflexivity.
    + lia.
  - intros form now chosen Hname Hsel.
    unfold step, PetAdopt.handleAdopt.
    rewrite (truthy_empty _ Hname), Hsel.
    fold (clearedStore (store w)).
    destruct (clearedStore_spec (store w)) as (P & _).
    eexists. simpl. rewrite P. repeat split.
Qed.

Lemma one_pet_at_a_time_witness :
  exists pet,
    pets (store (step Sample.fedThrice (Adopt Sample.form2 9))) = [pet]
    /\ stage pet = egg.
Proof.
  destruct (one_pet_at_a_time Sample.fedThrice reachable_fedThrice)
    as (_ & H).
  destruct (H Sample.form2 9%Z phoenix eq_refl eq_refl) as (pet & Hp & Hs & _).
  exists pet. split; assumption.
Defined.

(* ================================================================== *)
(** ** What a pet never loses *)

Ltac open_handlers :=
  unfold progressDay, deathCheck, evolutionCheck, handleAdoptNewPet,
    handleResetPet, careClick, CareActions.click, handleCareAction,
    handleGameComplete, handleBuyInsurance, learnTrickClick,
    performTrickClick, onPerformTrick, buyToyClick.

Ltac split_ifs :=
  repeat match goal with
         | |- context [if ?c then _ else _] => destruct c eqn:?
         end.

Ltac all_entries :=
  repeat first [apply Forall_nil | apply Forall_cons
               | (apply Forall_app; split)];
  cbn [effects_satisfy]; try exact I.

Lemma extends_refl (l : list string) : extends l l.
Proof. exists []. symmetry. apply app_nil_r. Qed.

Lemma extends_app (l more : list string) : extends l (l ++ more).
Proof. exists more. reflexivity. Qed.

Lemma extends_trans (k l m : list string) :
  extends k l -> extends l m -> extends k m.
Proof.
  intros (a & ->) (b & ->). exists (a ++ b). symmetry. apply app_assoc.
Qed.

Lemma progressed_refl (p : Pet) : progressed p p.
Proof.
  unfold progressed. repeat split; auto using extends_refl; lia.
Qed.

Lemma progressed_trans (p q r : Pet) :
  progressed p q -> progressed q r -> progressed p r.
Proof.
  unfold progressed.
  intros (A1 & A2 & A3 & A4 & A5 & A6 & A7 & A8 & A9 & A10 & A11)
         (B1 & B2 & B3 & B4 & B5 & B6 & B7 & B8 & B9 & B10 & B11).
  repeat split; try congruence; try lia; eauto using extends_trans.
Qed.

Lemma keeps_progress_assign (pet p : Pet) (a : Assign) :
  progressed pet p -> keeps_progress pet a ->
  progressed pet (applyAssign p a).
Proof.
  unfold progressed.
  intros (A1 & A2 & A3 & A4 & A5 & A6 & A7 & A8 & A9 & A10 & A11) Ha.
  destruct p, a; simpl in *; repeat split; auto.
Qed.

Lemma dayUpdates_progress (pet : Pet) (now : Z) (d : Draws) :
  Forall (keeps_progress pet) (dayUpdates pet now d).
Proof.
  unfold dayUpdates, healthRule, decayUpdates. split_ifs; all_entries;
    cbn [keeps_progress]; try exact I; lia.
Qed.

Lemma handle_progress (w : World) (pet : Pet) (e : Event) :
  Forall (effects_satisfy (Forall (keeps_progress pet))) (handle w pet e).
Proof.
  destruct e; cbn [handle]; open_handlers.
  - split_ifs; all_entries; apply dayUpdates_progress.
  - split_ifs; all_entries.
  - split_ifs; all_entries; cbn [keeps_progress]; try exact I;
      try apply extends_app.
    + destruct (stage pet); try discriminate; simpl; lia.
    + destruct (stage pet); simpl; lia.
  - all_entries.
  - all_entries.
  - destruct a; cbv zeta iota beta; split_ifs; all_entries;
      cbn [keeps_progress]; try exact I;
      first [apply extends_app | apply extends_refl].
  - split_ifs; all_entries; cbn [keeps_progress]; try exact I;
      first [apply extends_app | apply extends_refl].
  - split_ifs; all_entries; cbn [keeps_progress]; try exact I;
      first [reflexivity | apply extends_app].
  - split_ifs; all_entries; cbn [keeps_progress]; try exact I;
      apply extends_app.
  - split_ifs; all_entries.
  - split_ifs; all_entries; cbn [keeps_progress]; try exact I;
      apply extends_app.
  - split_ifs; all_entries.
  - split_ifs; all_entries.
  - all_entries.
Qed.

Lemma step_progress (w : World) (pet : Pet) (e : Event) :
  pets (store w) = [pet] -> on_page e ->
  Forall (progressed pet) (pets (store (step w e))).
Proof.
  intros Hw He.
  rewrite (step_on_page w pet e (currentPet_single w pet Hw) He).
  rewrite run_pets, Hw.
  apply (settle_keeps (Forall (keeps_progress pet))).
  - intros p u Hp Hu.
    apply (entries_keep (keeps_progress pet) (progressed pet));
      [apply keeps_progress_assign | exact Hp | exact Hu].
  - apply handle_progress.
  - constructor; [apply progressed_refl | constructor].
Qed.

Lemma page_run_reachable (w w' : World) :
  reachable w -> page_run w w' -> reachable w'.
Proof.
  intros Hr. induction 1 as [| w' e Hrun IH Hp He].
  - exact Hr.
  - apply reach_step; assumption.
Qed.

Lemma page_run_steps (es : list Event) (w v : World) :
  page_run w v -> Forall on_page es -> Forall event_ok es ->
  page_run w (fold_left step es v).
Proof.
  revert v. induction es as [| e es IH]; intros v Hv Hp Hok.
  - exact Hv.
  - inversion Hp; inversion Hok; subst. simpl.
    apply IH; [apply page_step |  |]; assumption.
Qed.

(** X6.  Through the whole life of a pet on the care page, whatever the
    timers and the player do: the pet keeps its identity (id, name,
    species, colour, adoption date), its stage never goes back, an
    insurance is never lost, the achievements, tricks and toys only grow
    at their end, and the day counter never decreases. *)
Theorem pet_only_progresses (w w' : World) (pet q : Pet) :
  reachable w -> currentPet w = Some pet -> page_run w w' ->
  In q (pets (store w')) -> progressed pet q.
Proof.
  intros Hr Hc Hrun. revert q.
  induction Hrun as [| w' e Hrun IH Hp He]; intros q Hq.
  - destruct (reachable_current w pet Hr Hc) as (Hw & _).
    rewrite Hw in Hq. destruct Hq as [<- | []]. apply progressed_refl.
  - pose proof (page_run_reachable w w' Hr Hrun) as Hr'.
    destruct (currentPet w') as [mid |] eqn:Hmid.
    + destruct (reachable_current w' mid Hr' Hmid) as (Hw' & _).
      apply (progressed_trans pet mid q).
      * apply IH. rewrite Hw'. left. reflexivity.
      * pose proof (step_progress w' mid e Hw' Hp) as Hs.
        rewrite Forall_forall in Hs. apply Hs, Hq.
    + rewrite (step_without_pet w' e Hmid Hp) in Hq. apply IH, Hq.
Qed.

Lemma pet_only_progresses_witness :
  Forall (progressed Sample.egg0) (pets (store Sample.neglected)).
Proof.
  apply Forall_forall. intros q.
  apply (pet_only_progresses Sample.adopted Sample.neglected Sample.egg0 q).
  - exact reachable_adopted.
  - vm_compute. reflexivity.
  - apply page_run_steps;
      [apply page_here | |];
      repeat (apply Forall_cons || apply Forall_nil);
      try exact I; exact draws_ok_high.
Defined.

(* ================================================================== *)
(** ** Insurance and death *)

Lemma effects_satisfy_and (U V : Updates -> Prop) (es : list Effect) :
  Forall (effects_satisfy U) es -> Forall (effects_satisfy V) es ->
  Forall (effects_satisfy (fun u => U u /\ V u)) es.
Proof.
  induction es as [| e es IH]; intros HU HV; [constructor |].
  inversion HU; inversion HV; subst. constructor; [| apply IH; assumption].
  destruct e; simpl in *; auto.
Qed.

Lemma handle_health_floor (w : World) (pet : Pet) (e : Event) :
  covered pet -> Forall (effects_satisfy health_floor) (handle w pet e).
Proof.
  intros (Hi & Hh). destruct e; cbn [handle]; open_handlers.
  - pose proof (dayUpdates_health_insured pet now d Hi) as Hd.
    split_ifs; all_entries; unfold health_floor; rewrite Hd;
      destruct (ruledHealth pet now d) as [h |]; try exact I;
      destruct (Js.lt h 20) eqn:E; try lra;
      apply JsFacts.lt_false in E; exact E.
  - split_ifs; all_entries.
  - split_ifs; all_entries; exact I.
  - all_entries.
  - all_entries.
  - destruct a; cbv zeta iota beta; split_ifs; all_entries;
      unfold health_floor; cbn [get_health app]; try exact I;
      destruct (JsFacts.min_cases 100 (health pet + 30)) as [[_ E] | [_ E]];
      rewrite E; lra.
  - split_ifs; all_entries; exact I.
  - split_ifs; all_entries; exact I.
  - split_ifs; all_entries; exact I.
  - split_ifs; all_entries; exact I.
  - split_ifs; all_entries; exact I.
  - split_ifs; all_entries.
  - split_ifs; all_entries.
  - all_entries.
Qed.

Lemma covered_update (pet p : Pet) (u : Updates) :
  covered p -> Forall (keeps_progress pet) u /\ health_floor u ->
  covered (applyUpdates p u).
Proof.
  intros (Hi & Hh) (Hu & Hf). split.
  - apply (entries_keep (keeps_progress pet)
             (fun q => has_insurance q = true)); try assumption.
    intros q a Hq Ha. destruct q, a; simpl in *; auto.
  - rewrite applyUpdates_health. unfold health_floor in Hf.
    destruct (get_health u); assumption.
Qed.

Lemma step_covered (w : World) (pet : Pet) (e : Event) :
  pets (store w) = [pet] -> on_page e -> covered pet ->
  Forall covered (pets (store (step w e))).
Proof.
  intros Hw He Hc.
  rewrite (step_on_page w pet e (currentPet_single w pet Hw) He).
  rewrite run_pets, Hw.
  apply (settle_keeps
           (fun u => Forall (keeps_progress pet) u /\ health_floor u)).
  - intros p u. apply covered_update.
  - apply effects_satisfy_and;
      [apply handle_progress | apply handle_health_floor; exact Hc].
  - constructor; [exact Hc | constructor].
Qed.

Lemma run_keeps_record (es : list Effect) (w : World) :
  forallb keeps_record es = true ->
  petDied (run w es) = petDied w /\ deathStats (run w es) = deathStats w.
Proof.
  revert w. induction es as [| e es IH]; intros w H.
  - split; reflexivity.
  - simpl in H. apply andb_prop in H. destruct H as [He Hes].
    change (run w (e :: es)) with (run (apply_effect w e) es).
    destruct (IH (apply_effect w e) Hes) as [-> ->].
    destruct w, e; try discriminate; split; reflexivity.
Qed.

(** The death check is the one handler that records a death, and it
    does so for a live record and a health of 0 at most. *)
Lemma handle_keeps_record (w : World) (pet : Pet) (e : Event) :
  0 < health pet \/ petDied w = true ->
  forallb keeps_record (handle w pet e) = true.
Proof.
  intros H. destruct e; cbn [handle]; open_handlers;
    try (destruct a; cbv zeta iota beta); split_ifs; try reflexivity.
  all: exfalso;
    match goal with
    | E : (Js.le _ 0 && negb _)%bool = true |- _ =>
        apply andb_prop in E; destruct E as [E1 E2]
    end;
    destruct H as [H | H];
    [ unfold Js.le in E1; apply Qle_bool_iff in E1; lra
    | rewrite H in E2; discriminate ].
Qed.

Lemma step_keeps_record (w : World) (e : Event) :
  on_page e ->
  (forall pet, currentPet w = Some pet ->
               0 < health pet \/ petDied w = true) ->
  petDied (step w e) = petDied w /\ deathStats (step w e) = deathStats w.
Proof.
  intros He H. destruct (currentPet w) as [pet |] eqn:Hc.
  - rewrite (step_on_page w pet e Hc He).
    apply run_keeps_record, handle_keeps_record, H. reflexivity.
  - rewrite (step_without_pet w e Hc He). split; reflexivity.
Qed.

Lemma reachable_insured : reachable Scenario.insured.
Proof. apply reach_step; [exact reachable_adopted | exact I]. Qed.

Lemma idle_days_on_page (d : Draws) (n : nat) :
  draws_ok d ->
  Forall on_page (List.concat (repeat (Sample.idleDay d) n))
  /\ Forall event_ok (List.concat (repeat (Sample.idleDay d) n)).
Proof.
  intros Hd. induction n as [| n [IH1 IH2]]; simpl.
  - split; constructor.
  - split; repeat (apply Forall_cons); try exact I; assumption.
Qed.


Lemma reachable_dying : reachable Scenario.dying.
Proof.
  apply reachable_steps; [exact reachable_adopted |].
  destruct (idle_days_on_page Sample.high 8 draws_ok_high) as [_ H].
  apply Forall_app. split; [exact H |].
  repeat (apply Forall_cons || apply Forall_nil);
    try exact I; exact draws_ok_high.
Qed.

(* ================================================================== *)
(** ** The mini-games and the purse *)

Lemma floor_below (x : Q) (n : Z) : x < inject_Z n -> Js.floor x <= inject_Z (n - 1).
Proof.
  intros H. unfold Js.floor. rewrite <- Zle_Qle.
  assert (Hf : (Qfloor x < n)%Z).
  { rewrite Zlt_Qlt. apply Qle_lt_trans with x; [apply Qfloor_le | exact H]. }
  lia.
Qed.

Lemma floor_above (x : Q) (n : Z) : inject_Z n <= x -> inject_Z n <= Js.floor x.
Proof.
  intros H. unfold Js.floor. rewrite <- Zle_Qle.
  rewrite <- (Qfloor_Z n). apply Qfloor_resp_le. exact H.
Qed.

Lemma round_int (n : Z) (x : Q) : x == inject_Z n -> Js.round x == inject_Z n.
Proof.
  intros H. unfold Js.round. apply Qle_antisym.
  - assert (B : Js.floor (x + (1 # 2)) <= inject_Z (n + 1 - 1)).
    { apply (floor_below (x + (1 # 2)) (n + 1)).
      rewrite inject_Z_plus. change (inject_Z 1) with 1. lra. }
    replace (n + 1 - 1)%Z with n in B by lia. exact B.
  - apply (floor_above (x + (1 # 2)) n). lra.
Qed.

Lemma cleanPercentage_bounds (total remaining : Z) :
  (0 <= remaining <= total)%Z ->
  0 <= cleanPercentage total remaining /\ cleanPercentage total remaining <= 100.
Proof.
  intros H. split; [apply cleanPercentage_nonneg; exact H |].
  unfold cleanPercentage. destruct (0 <? total)%Z; [| lra].
  destruct (JsFacts.min_cases 100
              (Js.round (inject_Z (total - remaining) / inject_Z total * 100)))
    as [[_ E] | [L E]]; rewrite E; lra.
Qed.


(** X9.  What a mini-game pays.  The trash game pays between 5 and 10
    coins; the wire game pays 30 coins less 5 for every mistake, and 10
    at least; the window game pays between 0 and 25 coins, nothing when
    there was nothing to clean, and the full 25 when every spot is gone.
    No game pays more than 30 or less than 0. *)
Theorem game_reward_bounds (g : GameResult) :
  game_ok g ->
  0 <= reward g /\ reward g <= 30
  /\ match g with
     | TrashGame r => 5 <= reward g /\ reward g <= 10
     | WireGame mistakes =>
         ((mistakes <= 4)%Z -> reward g == 30 - 5 * inject_Z mistakes)
         /\ ((4 <= mistakes)%Z -> reward g == 10)
     | WindowGame total remaining =>
         reward g <= 25
         /\ (total = 0%Z -> reward g == 0)
         /\ ((0 < total)%Z -> remaining = 0%Z -> reward g == 25)
     end.
Proof.
  intros H. destruct g as [r | m | total remaining]; simpl in H.
  - destruct H as [H0 H1].
    assert (A : 0 <= Js.floor (r * 6)) by (apply floor_nonneg; lra).
    assert (B : Js.floor (r * 6) <= 5)
      by (apply (floor_below _ 6); change (inject_Z 6) with 6; lra).
    unfold reward. repeat split; lra.
  - assert (Hm : 0 <= inject_Z m)
      by (change 0 with (inject_Z 0); rewrite <- Zle_Qle; exact H).
    unfold reward.
    destruct (JsFacts.max_cases (30 - inject_Z m * 5) 10) as [[L E] | [L E]];
      cbv zeta; rewrite E; repeat split; try lra;
      intros H4; rewrite Zle_Qle in H4; change (inject_Z 4) with 4 in H4; lra.
  - destruct (cleanPercentage_bounds total remaining H) as [C0 C1].
    assert (A : 0 <= reward (WindowGame total remaining))
      by (apply reward_nonneg; exact H).
    assert (B : reward (WindowGame total remaining) <= 25).
    { unfold reward, Js.round.
      apply (floor_below (cleanPercentage total remaining * (25 # 100) + (1 # 2)) 26).
      change (inject_Z 26) with 26. lra. }
    repeat split; try lra.
    + intros ->. unfold reward, cleanPercentage. simpl (0 <? 0)%Z. cbv iota.
      vm_compute. reflexivity.
    + intros Ht ->. unfold reward, cleanPercentage.
      apply Z.ltb_lt in Ht. rewrite Ht.
      assert (Hq : inject_Z (total - 0) / inject_Z total * 100 == 100).
      { rewrite Z.sub_0_r. field.
        intros E. apply Z.ltb_lt in Ht.
        rewrite Zlt_Qlt in Ht. change (inject_Z 0) with 0 in Ht. lra. }
      assert (Hr : Js.round (inject_Z (total - 0) / inject_Z total * 100)
                   == 100)
        by (apply (round_int 100); exact Hq).
      apply (round_int 25).
      destruct (JsFacts.min_cases 100
                  (Js.round (inject_Z (total - 0) / inject_Z total * 100)))
        as [[_ E] | [_ E]]; rewrite E; [| rewrite Hr]; reflexivity.
Qed.

Lemma game_reward_bounds_witness :
  5 <= reward (TrashGame (1 # 2)) /\ reward (TrashGame (1 # 2)) <= 10.
Proof.
  destruct (game_reward_bounds (TrashGame (1 # 2))) as (_ & _ & H).
  - split; lra.
  - exact H.
Defined.

Lemma costMultiplier_ge_1 (pet : Pet) :
  (0 <= days_alive pet)%Z -> 1 <= getCostMultiplier pet.
Proof.
  intros H.
  destruct (ageGroup_mono (days_alive pet) (days_alive pet) 5 eq_refl)
    as [H0 _]; [lia |].
  unfold getCostMultiplier. lra.
Qed.

Lemma insuranceCost_pos (pet : Pet) :
  (0 <= days_alive pet)%Z -> 1 # 2 <= getInsuranceCost pet.
Proof.
  intros H.
  destruct (ageGroup_mono (days_alive pet) (days_alive pet) 5 eq_refl)
    as [H0 _]; [lia |].
  unfold getInsuranceCost. lra.
Qed.





(* ================================================================== *)
(** ** The evolution check and the trick show *)

Lemma evolution_none (w : World) (pet : Pet) :
  currentPet w = Some pet -> evolutionCheck pet (isEvolving w) = [] ->
  step w EvolutionEffect = w.
Proof.
  intros Hc H. unfold step. rewrite Hc. cbn [handle]. rewrite H. reflexivity.
Qed.

Lemma evolution_shape (pet : Pet) (evolving : bool) :
  evolutionCheck pet evolving = []
  \/ evolving = false
     /\ exists u n,
          evolutionCheck pet false
          = [SetIsEvolving true; PetUpdate (id pet) u; Notify n]
          /\ (stage (applyUpdates pet u) = grown
              \/ stage (applyUpdates pet u) = hatchling
                 /\ experience (applyUpdates pet u) = 0%Z).
Proof.
  unfold evolutionCheck. destruct evolving; [left; reflexivity |].
  split_ifs; [right | right | left; reflexivity];
    (split; [reflexivity |]); eexists; eexists; (split; [reflexivity |]);
    destruct pet; simpl; auto.
Qed.

Lemma evolution_fired (w : World) (pet : Pet) (u : Updates) (n : Note) :
  pets (store w) = [pet] ->
  let w1 := run w [SetIsEvolving true; PetUpdate (id pet) u; Notify n] in
  isEvolving w1 = true /\ pets (store w1) = [applyUpdates pet u].
Proof.
  intros Hw. destruct w as [[ps xs k] died stats evolving trick log].
  simpl in Hw. subst ps. cbn. rewrite N.eqb_refl. split; reflexivity.
Qed.

Lemma evolving_blocks (w : World) :
  isEvolving w = true -> step w EvolutionEffect = w.
Proof.
  intros H. unfold step. destruct (currentPet w); [| reflexivity].
  cbn [handle]. rewrite H. reflexivity.
Qed.

(** X11.  One evolution at a time.  Running the evolution check again
    right after it has run changes nothing: a transition raises the
    [isEvolving] flag, which blocks the check.  Nor does the check fire
    again once the flag is cleared a second later: an egg that hatches
    restarts at 0 experience, whatever it had, and a grown pet has no
    stage left. *)
Theorem evolution_fires_once (w : World) :
  reachable w ->
  step (step w EvolutionEffect) EvolutionEffect = step w EvolutionEffect
  /\ (isEvolving w = false ->
      let settled := step (step w EvolutionEffect) EvolveDebounce in
      step settled EvolutionEffect = settled).
Proof.
  intros Hr. destruct (currentPet w) as [pet |] eqn:Hc.
  2:{ pose proof (step_without_pet w EvolutionEffect Hc I) as He.
      pose proof (step_without_pet w EvolveDebounce Hc I) as Hd.
      rewrite !He. split; [reflexivity |].
      intros _. cbv zeta. rewrite Hd. exact He. }
  destruct (reachable_current w pet Hr Hc) as (Hw & _).
  destruct (evolution_shape pet (isEvolving w))
    as [Hnone | (Hflag & u & n & Hev & Hstage)].
  - rewrite !(evolution_none w pet Hc Hnone). split; [reflexivity |].
    intros Hflag. cbv zeta.
    assert (Hd : step w EvolveDebounce = w).
    { rewrite (step_on_page w pet EvolveDebounce Hc I). cbn [handle].
      destruct w; simpl in *. subst. reflexivity. }
    rewrite Hd. apply (evolution_none w pet Hc Hnone).
  - assert (Hs : step w EvolutionEffect
                 = run w [SetIsEvolving true; PetUpdate (id pet) u; Notify n]).
    { rewrite (step_on_page w pet EvolutionEffect Hc I). cbn [handle].
      rewrite Hflag, Hev. reflexivity. }
    destruct (evolution_fired w pet u n Hw) as (Hf1 & Hp1).
    rewrite <- Hs in Hf1, Hp1. split.
    + apply evolving_blocks. exact Hf1.
    + intros _. cbv zeta.
      set (w1 := step w EvolutionEffect) in *.
      pose proof (currentPet_single w1 _ Hp1) as Hc1.
      assert (Hd : currentPet (step w1 EvolveDebounce)
                   = Some (applyUpdates pet u)
                   /\ isEvolving (step w1 EvolveDebounce) = false).
      { rewrite (step_on_page w1 _ EvolveDebounce Hc1 I). cbn [handle].
        destruct w1; simpl in *. split; [exact Hc1 | reflexivity]. }
      destruct Hd as (Hc2 & Hf2).
      apply (evolution_none _ _ Hc2). rewrite Hf2.
      unfold evolutionCheck.
      destruct Hstage as [-> | (-> & ->)]; reflexivity.
Qed.

Lemma reachable_threeDays : reachable Scenario.threeDays.
Proof.
  apply reachable_steps; [exact reachable_adopted |].
  repeat (apply Forall_cons || apply Forall_nil); exact draws_ok_half.
Qed.

Lemma evolution_fires_once_witness :
  let w := Scenario.threeDays in
  step (step w EvolutionEffect) EvolutionEffect = step w EvolutionEffect
  /\ step w EvolutionEffect <> w.
Proof.
  split.
  - exact (proj1 (evolution_fires_once Scenario.threeDays
                    reachable_threeDays)).
  - intros H. apply (f_equal isEvolving) in H. vm_compute in H.
    discriminate.
Defined.

(** X12.  A trick show.  A pet that knows the trick, has 10 energy or
    more and is not in the middle of a show performs it: that costs 10
    energy and no coins, and earns 15 happiness (up to 100) and one
    experience point.  Until the show is over, every further click on a
    perform button is ignored. *)
Theorem trick_show_runs_alone (w : World) (pet : Pet) (t : Trick.t) :
  reachable w -> currentPet w = Some pet ->
  deathScreen w = false -> performingTrick w = None ->
  In (Trick.id t) (tricks pet) -> 10 <= energy pet ->
  let w1 := step w (PerformTrickClick t) in
  (exists q,
     pets (store w1) = [q]
     /\ energy q == energy pet - 10
     /\ happiness q = Js.min 100 (happiness pet + 15)
     /\ experience q = (experience pet + 1)%Z
     /\ coins q = coins pet /\ tricks q = tricks pet)
  /\ performingTrick w1 = Some (Trick.id t)
  /\ expenses (store w1) = expenses (store w)
  /\ forall t', step w1 (PerformTrickClick t') = w1.
Proof.
  intros Hr Hc Hds Hpt Hin He. cbv zeta.
  destruct (reachable_current w pet Hr Hc) as (Hw & _).
  assert (Hs : step w (PerformTrickClick t)
               = run w [SetPerformingTrick (Some (Trick.id t));
                        PetUpdate (id pet)
                          [SetHappiness (Js.min 100 (happiness pet + 15));
                           SetEnergy (Js.max 0 (energy pet - 10));
                           SetExperience (experience pet + 1)%Z];
                        Notify (Performed (name pet) (Trick.name t))]).
  { rewrite (step_on_page w pet (PerformTrickClick t) Hc I).
    cbn [handle]. rewrite Hds. unfold performTrickClick, onPerformTrick.
    apply JsFacts.includes_In in Hin. rewrite Hin, Hpt.
    apply JsFacts.ge_true in He. rewrite He. reflexivity. }
  rewrite Hs. clear Hs.
  destruct w as [[ps xs k] died stats evolving trick log].
  simpl in Hw, Hpt, Hds. subst ps trick. cbn. rewrite N.eqb_refl.
  split; [| split; [reflexivity | split; [reflexivity |]]].
  - eexists. split; [reflexivity |].
    destruct pet; cbn in *. repeat split.
    destruct (JsFacts.max_cases 0 (energy0 - 10)) as [[L E] | [L E]];
      rewrite E; lra.
  - intros t'. unfold step, currentPet. cbn [store pets hd_error].
    cbn [handle]. destruct (deathScreen _); [reflexivity |].
    unfold performTrickClick, onPerformTrick. cbn [performingTrick].
    rewrite andb_false_r. destruct (Js.includes _ _); reflexivity.
Qed.

Lemma reachable_trained : reachable Scenario.trained.
Proof.
  apply reachable_steps; [exact reachable_adopted |].
  repeat (apply Forall_cons || apply Forall_nil); simpl; try exact I; lia.
Qed.

Lemma trick_show_runs_alone_witness :
  let w1 := step Scenario.trained (PerformTrickClick Trick.roll) in
  performingTrick w1 = Some "roll"%string
  /\ step w1 (PerformTrickClick Trick.roll) = w1.
Proof.
  destruct (currentPet Scenario.trained) as [pet |] eqn:Hc;
    [| vm_compute in Hc; discriminate].
  assert (Hpet : In (Trick.id Trick.roll) (tricks pet) /\ 10 <= energy pet).
  { vm_compute in Hc. injection Hc as <-. split.
    - left. reflexivity.
    - vm_compute. discriminate. }
  destruct (trick_show_runs_alone Scenario.trained pet Trick.roll
              reachable_trained Hc eq_refl eq_refl (proj1 Hpet) (proj2 Hpet))
    as (_ & Hp & _ & Hagain).
  split; [exact Hp | apply Hagain].
Defined.

(* ================================================================== *)
(** ** The ledger and the expense report *)

Lemma run_expenses (es : list Effect) (w : World) :
  exists more,
    expenses (store (run w es)) = expenses (store w) ++ more
    /\ map fields more = created_expenses es.
Proof.
  revert w. induction es as [| e es IH]; intros w.
  - exists []. split; [symmetry; apply app_nil_r | reflexivity].
  - change (run w (e :: es)) with (run (apply_effect w e) es).
    destruct (IH (apply_effect w e)) as (more & Hm & Hf). rewrite Hm.
    destruct w as [[ps xs k] died stats evolving trick log].
    destruct e; cbn;
      try (exists more; split; [reflexivity | exact Hf]).
    exists (mkStored k e :: more). split.
    + rewrite <- app_assoc. reflexivity.
    + cbn. rewrite Hf. reflexivity.
Qed.

Lemma in_ledger_feed : In "feed"%string ledgerTypes.
Proof. left. reflexivity. Qed.
Lemma in_ledger_play : In "play"%string ledgerTypes.
Proof. right. left. reflexivity. Qed.
Lemma in_ledger_clean : In "clean"%string ledgerTypes.
Proof. right. right. left. reflexivity. Qed.
Lemma in_ledger_health : In "health"%string ledgerTypes.
Proof. right. right. right. left. reflexivity. Qed.
Lemma in_ledger_insurance : In "insurance"%string ledgerTypes.
Proof. right. right. right. right. left. reflexivity. Qed.

Lemma handle_expenses (w : World) (pet : Pet) (e : Event) :
  pet_ok pet ->
  Forall expense_ok (created_expenses (handle w pet e))
  /\ (List.length (created_expenses (handle w pet e)) <= 1)%nat.
Proof.
  intros (_ & _ & _ & _ & _ & _ & _ & Hd).
  pose proof (insuranceCost_pos pet Hd) as Hi.
  destruct e; cbn [handle]; open_handlers;
    try (destruct a; cbv zeta iota beta); split_ifs;
    cbn [created_expenses flat_map app List.length];
    (split; [| lia]);
    repeat first [apply Forall_nil | apply Forall_cons];
    unfold expense_ok; cbn [type amount Act.id];
    try match goal with
        | G : Js.gt _ 0 = true |- _ => apply JsFacts.gt_true in G
        end;
    try (split;
         [first [apply in_ledger_feed | apply in_ledger_play
                | apply in_ledger_clean | apply in_ledger_health
                | apply in_ledger_insurance]
         | first [assumption | lra]]).
  unfold Act.cost in *. lra.
Qed.

Lemma step_ledger (w : World) (e : Event) :
  Forall pet_ok (pets (store w)) ->
  Forall (fun x => expense_ok (fields x)) (expenses (store w)) ->
  Forall (fun x => expense_ok (fields x)) (expenses (store (step w e))).
Proof.
  intros Hok Hw.
  assert (Hrun : forall pet, currentPet w = Some pet ->
            Forall (fun x => expense_ok (fields x))
                   (expenses (store (run w (handle w pet e))))).
  { intros pet Hc.
    assert (Hp : pet_ok pet).
    { unfold currentPet in Hc. destruct (pets (store w)); [discriminate |].
      injection Hc as <-. inversion Hok; assumption. }
    destruct (run_expenses (handle w pet e) w) as (more & -> & Hf).
    apply Forall_app. split; [exact Hw |].
    destruct (handle_expenses w pet e Hp) as (Hall & _).
    rewrite <- Hf in Hall. rewrite Forall_map in Hall. exact Hall. }
  destruct e;
    try (unfold step; destruct (currentPet w) as [pet |] eqn:Hc;
         [apply Hrun; reflexivity | exact Hw]).
  unfold step, PetAdopt.handleAdopt.
  destruct (Js.truthy _); [exact Hw |].
  destruct (PetAdopt.selectedPet form) as [chosen |]; [| exact Hw].
  fold (clearedStore (store w)).
  destruct (clearedStore_spec (store w)) as (_ & Hx & _).
  cbn. rewrite Forall_forall in *. intros x Hin. apply Hw, Hx, Hin.
Qed.

Lemma reachable_ledger (w : World) :
  reachable w ->
  Forall (fun x => expense_ok (fields x)) (expenses (store w)).
Proof.
  induction 1 as [| w e Hr IH He].
  - constructor.
  - apply step_ledger; [apply reachable_ok; exact Hr | exact IH].
Qed.

(** X13.  The ledger.  Every Expense record in the store was filed
    under one of the five types feed, play, clean, health and insurance,
    with an amount above 0: resting, tricks and toys never reach the
    ledger.  On the care page the ledger only grows, by one record per
    event at most, and no record is changed or removed. *)
Theorem ledger_grows_by_paid_care (w : World) (e : Event) :
  reachable w -> on_page e -> event_ok e ->
  (forall x, In x (expenses (store w)) ->
     In (type (fields x)) ledgerTypes /\ 0 < amount (fields x))
  /\ exists more,
       expenses (store (step w e)) = expenses (store w) ++ more
       /\ (List.length more <= 1)%nat
       /\ forall x, In x more ->
            In (type (fields x)) ledgerTypes /\ 0 < amount (fields x).
Proof.
  intros Hr Hp He. pose proof (reachable_ledger w Hr) as Hw. split.
  - rewrite Forall_forall in Hw. exact Hw.
  - destruct (currentPet w) as [pet |] eqn:Hc.
    + destruct (reachable_current w pet Hr Hc) as (_ & Hok).
      rewrite (step_on_page w pet e Hc Hp).
      destruct (run_expenses (handle w pet e) w) as (more & Hm & Hf).
      destruct (handle_expenses w pet e Hok) as (Hall & Hlen).
      exists more. split; [exact Hm |]. rewrite <- Hf in Hall, Hlen.
      rewrite length_map in Hlen. split; [exact Hlen |].
      rewrite Forall_map, Forall_forall in Hall. exact Hall.
    + rewrite (step_without_pet w e Hc Hp). exists [].
      split; [symmetry; apply app_nil_r |]. split; [simpl; lia |].
      intros x [].
Qed.

Lemma ledger_grows_by_paid_care_witness :
  (forall x, In x (expenses (store Sample.fedThrice)) ->
     In (type (fields x)) ledgerTypes /\ 0 < amount (fields x))
  /\ exists more,
       expenses (store (step Sample.fedThrice (CareClick Act.rest)))
       = expenses (store Sample.fedThrice) ++ more
       /\ (List.length more <= 1)%nat.
Proof.
  destruct (ledger_grows_by_paid_care Sample.fedThrice (CareClick Act.rest)
              reachable_fedThrice I I) as (H & more & Hm & Hl & _).
  split; [exact H |]. exists more. split; assumption.
Defined.

Module ChartFacts.
Import ExpenseChart.

Lemma total_from (xs : list ExpenseData) (a : Q) :
  fold_left (fun sum exp => sum + amount exp) xs a
  == a + totalExpenses xs.
Proof.
  unfold totalExpenses. revert a.
  induction xs as [| x xs IH]; intros a; simpl.
  - lra.
  - rewrite (IH (a + amount x)), (IH (0 + amount x)). lra.
Qed.

Lemma sum_assign (acc : Totals) (k : string) (v : Q) :
  entriesSum (assign acc k v) == entriesSum acc - lookup0 acc k + v.
Proof.
  unfold lookup0. induction acc as [| [k' w] acc IH]; simpl.
  - lra.
  - destruct (String.eqb k' k); simpl; [lra |].
    rewrite IH. lra.
Qed.

Lemma keys_assign (acc : Totals) (k : string) (v : Q) :
  (In k (map fst acc) /\ map fst (assign acc k v) = map fst acc)
  \/ (~ In k (map fst acc) /\ map fst (assign acc k v) = map fst acc ++ [k]).
Proof.
  induction acc as [| [k' w] acc IH]; simpl.
  - right. split; [tauto | reflexivity].
  - destruct (String.eqb k' k) eqn:E.
    + apply String.eqb_eq in E. left. split; [left; exact E | reflexivity].
    + apply String.eqb_neq in E. simpl.
      destruct IH as [[Hin Hk] | [Hin Hk]]; rewrite Hk.
      * left. split; [right; exact Hin | reflexivity].
      * right. split; [tauto | reflexivity].
Qed.

Lemma NoDup_snoc (l : list string) (k : string) :
  NoDup l -> ~ In k l -> NoDup (l ++ [k]).
Proof.
  induction 1 as [| x l Hx Hl IH]; intros Hk; simpl.
  - constructor; [tauto | constructor].
  - constructor.
    + rewrite in_app_iff. simpl in *. intuition congruence.
    + apply IH. simpl in Hk. tauto.
Qed.

Lemma entries_assign (P : string * Q -> Prop) (acc : Totals)
    (k : string) (v : Q) :
  Forall P acc -> P (k, v) -> Forall P (assign acc k v).
Proof.
  intros Hacc Hkv. induction Hacc as [| [k' w] acc Hx Hacc IH]; simpl.
  - constructor; [exact Hkv | constructor].
  - destruct (String.eqb k' k) eqn:E.
    + apply String.eqb_eq in E. subst k'. constructor; assumption.
    + constructor; assumption.
Qed.

Lemma lookup_In (acc : Totals) (k : string) (v : Q) :
  lookup acc k = Some v -> In (k, v) acc.
Proof.
  induction acc as [| [k' w] acc IH]; simpl; [discriminate |].
  destruct (String.eqb k' k) eqn:E.
  - apply String.eqb_eq in E. intros H. injection H as <-. left.
    rewrite E. reflexivity.
  - intros H. right. apply IH, H.
Qed.

Lemma grouped_step (P : string -> Prop) (acc : Totals) (x : ExpenseData) :
  grouped P acc -> P (type x) -> 0 < amount x ->
  grouped P (assign acc (type x) (lookup0 acc (type x) + amount x)).
Proof.
  intros (Hall & Hnd) Hp Ha. split.
  - apply entries_assign; [exact Hall |]. simpl. split; [exact Hp |].
    unfold lookup0. destruct (lookup acc (type x)) as [v |] eqn:E; [| lra].
    apply lookup_In in E. rewrite Forall_forall in Hall.
    destruct (Hall _ E) as (_ & Hv). simpl in Hv. lra.
  - destruct (keys_assign acc (type x) (lookup0 acc (type x) + amount x))
      as [[_ ->] | [Hin ->]]; [exact Hnd | apply NoDup_snoc; assumption].
Qed.

Lemma grouping (P : string -> Prop) (xs : list ExpenseData) (acc : Totals) :
  grouped P acc -> Forall (fun x => P (type x) /\ 0 < amount x) xs ->
  let chart :=
    fold_left (fun acc exp => assign acc (type exp)
                                (lookup0 acc (type exp) + amount exp))
              xs acc in
  grouped P chart
  /\ entriesSum chart == entriesSum acc + totalExpenses xs.
Proof.
  revert acc. induction xs as [| x xs IH]; intros acc Hacc Hxs; cbv zeta.
  - split; [exact Hacc |]. unfold totalExpenses. simpl. lra.
  - inversion Hxs as [| x' xs' (Hp & Ha) Hxs']; subst.
    destruct (IH _ (grouped_step P acc x Hacc Hp Ha) Hxs') as (Hg & Hs).
    split; [exact Hg |]. cbv zeta in Hs. simpl fold_left. rewrite Hs.
    rewrite sum_assign. unfold totalExpenses at 2. simpl fold_left.
    rewrite total_from. lra.
Qed.

Lemma value_le_sum (acc : Totals) (k : string) (v : Q) :
  Forall (fun kv => 0 < snd kv) acc -> In (k, v) acc -> v <= entriesSum acc.
Proof.
  induction 1 as [| [k' w] acc Hw Hacc IH]; intros Hin; [destruct Hin |].
  assert (H0 : 0 <= entriesSum acc).
  { clear IH Hin. induction Hacc as [| [k2 w2] acc2 H2 _ IH2]; simpl;
      [lra | simpl in H2; lra]. }
  simpl in *. destruct Hin as [E | Hin].
  - injection E as _ <-. lra.
  - specialize (IH Hin). lra.
Qed.

Lemma value_le_max (acc : Totals) (k : string) (v : Q) :
  1 <= maxCategoryValue acc
  /\ (In (k, v) acc -> v <= maxCategoryValue acc).
Proof.
  induction acc as [| [k' w] acc (IH1 & IH2)]; simpl.
  - split; [lra | tauto].
  - destruct (JsFacts.max_cases w (maxCategoryValue acc)) as [[L E] | [L E]];
      rewrite E; (split; [lra |]); intros [H | H];
      try (injection H as _ <-); try specialize (IH2 H); lra.
Qed.

Lemma keys_fold (xs : list ExpenseData) (acc : Totals) (k : string) :
  In k (map fst
          (fold_left (fun acc exp => assign acc (type exp)
                                       (lookup0 acc (type exp) + amount exp))
                     xs acc))
  <-> In k (map fst acc) \/ In k (map type xs).
Proof.
  revert acc. induction xs as [| x xs IH]; intros acc; simpl fold_left.
  - simpl. tauto.
  - rewrite IH. simpl.
    destruct (keys_assign acc (type x) (lookup0 acc (type x) + amount x))
      as [[Hin ->] | [Hin ->]].
    + split; [tauto |]. intros [H | [<- | H]]; tauto.
    + rewrite in_app_iff. simpl. tauto.
Qed.

Lemma chart_keys (xs : list ExpenseData) (k : string) :
  In k (map fst (expensesByType xs)) <-> In k (map type xs).
Proof.
  pose proof (keys_fold xs [] k) as H. simpl in H.
  split.
  - intros Hin. apply H in Hin. tauto.
  - intros Hin. apply H. right. exact Hin.
Qed.

End ChartFacts.

(** X14.  The expense report groups the ledger.  Over the expenses of
    the current pet, the report shows each of the five ledger types at
    most once and only types under which an expense was filed; every
    category total is above 0 and at most the grand total, and every bar
    is more than 0 and at most 100 percent wide. *)
Theorem expense_report_adds_up (w : World) (pet : Pet) :
  reachable w -> currentPet w = Some pet ->
  let xs := map fields (Base44.Expense_filter (store w) (id pet)) in
  let chart := ExpenseChart.expensesByType xs in
  NoDup (map fst chart)
  /\ (forall k, In k (map fst chart) <-> In k (map type xs))
  /\ forall k v, In (k, v) chart ->
       In k ledgerTypes /\ 0 < v /\ v <= ExpenseChart.totalExpenses xs
       /\ 0 < ExpenseChart.barWidth chart v
       /\ ExpenseChart.barWidth chart v <= 100.
Proof.
  intros Hr _. cbv zeta.
  set (xs := map fields (Base44.Expense_filter (store w) (id pet))).
  assert (Hxs : Forall (fun x => In (type x) ledgerTypes /\ 0 < amount x) xs).
  { unfold xs. rewrite Forall_map. unfold Base44.Expense_filter.
    pose proof (reachable_ledger w Hr) as Hw.
    rewrite Forall_forall in *. intros x Hin. apply filter_In in Hin.
    apply Hw, Hin. }
  assert (Hg : ExpenseChart.grouped (fun k => In k ledgerTypes)
                 (ExpenseChart.expensesByType xs)
               /\ ExpenseChart.entriesSum (ExpenseChart.expensesByType xs)
                  == 0 + ExpenseChart.totalExpenses xs).
  { apply (ChartFacts.grouping (fun k => In k ledgerTypes) xs []);
      [split; constructor | exact Hxs]. }
  destruct Hg as ((Hall & Hnd) & Hsum).
  split; [exact Hnd |]. split; [apply ChartFacts.chart_keys |].
  intros k v Hin.
  assert (Hpos : Forall (fun kv : string * Q => 0 < snd kv)
                        (ExpenseChart.expensesByType xs)).
  { revert Hall. apply Forall_impl. intros kv H. apply H. }
  pose proof (ChartFacts.value_le_sum _ k v Hpos Hin) as Hle.
  destruct (ChartFacts.value_le_max (ExpenseChart.expensesByType xs) k v)
    as (Hm1 & Hm2). specialize (Hm2 Hin).
  rewrite Forall_forall in Hall. destruct (Hall _ Hin) as (Hk & Hv).
  simpl in Hk, Hv.
  split; [exact Hk |]. split; [exact Hv |]. split; [lra |].
  unfold ExpenseChart.barWidth.
  set (m := ExpenseChart.maxCategoryValue (ExpenseChart.expensesByType xs))
    in *.
  assert (Hq : 0 < v / m /\ v / m <= 1).
  { split.
    - apply Qlt_shift_div_l; lra.
    - apply Qle_shift_div_r; lra. }
  lra.
Qed.

Lemma expense_report_adds_up_witness :
  exists pet,
    currentPet Sample.fedThrice = Some pet
    /\ let xs := map fields
                   (Base44.Expense_filter (store Sample.fedThrice) (id pet)) in
       map fst (ExpenseChart.expensesByType xs) = ["feed"%string]
       /\ List.length xs = 3%nat.
Proof.
  destruct (currentPet Sample.fedThrice) as [pet |] eqn:Hc;
    [| vm_compute in Hc; discriminate].
  exists pet. split; [reflexivity |].
  destruct (expense_report_adds_up Sample.fedThrice pet
              reachable_fedThrice Hc) as (H & _).
  vm_compute in Hc. injection Hc as <-. split; vm_compute; reflexivity.
Defined.

(* ================================================================== *)
(** ** Leaving a pet and adopting the next *)

Lemma filter_none {A : Type} (f : A -> bool) (l : list A) :
  (forall x, In x l -> f x = false) -> filter f l = [].
Proof.
  induction l as [| x l IH]; intros H; simpl; [reflexivity |].
  rewrite (H x (or_introl eq_refl)). apply IH.
  intros y Hy. apply H. right. exact Hy.
Qed.

Lemma adopt_accepted (w : World) (form : PetAdopt.Form) (now : Z)
    (chosen : Species) :
  PetAdopt.validatePetName (PetAdopt.petName form) = EmptyString ->
  PetAdopt.selectedPet form = Some chosen ->
  step w (Adopt form now)
  = freshPage (Base44.Pet_create (clearedStore (store w))
                 (PetAdopt.newPet form chosen) now).
Proof.
  intros Hname Hsel. unfold step, PetAdopt.handleAdopt.
  rewrite (truthy_empty _ Hname), Hsel. reflexivity.
Qed.

(** X15.  Two ways to a new pet.  Adopting over a living pet removes that
    pet together with its Expense records.  Leaving the pet from the care
    page first, by Reset Pet or by Adopt New Pet on the memorial screen,
    deletes the pet alone: the adoption that follows finds no pet to clean
    up after, and the old pet's records stay in the store for good. *)
Theorem expenses_outlive_a_reset
    (w : World) (pet : Pet) (form : PetAdopt.Form) (now : Z)
    (chosen : Species) :
  reachable w -> currentPet w = Some pet ->
  PetAdopt.validatePetName (PetAdopt.petName form) = EmptyString ->
  PetAdopt.selectedPet form = Some chosen ->
  Base44.Expense_filter (store (step w (Adopt form now))) (id pet) = []
  /\ forall leave,
       (leave = ResetPetClick /\ deathScreen w = false
        \/ leave = AdoptNewPetClick /\ deathScreen w = true) ->
       pets (store (step w leave)) = []
       /\ expenses (store (step w leave)) = expenses (store w)
       /\ expenses (store (step (step w leave) (Adopt form now)))
          = expenses (store w).
Proof.
  intros Hr Hc Hname Hsel.
  destruct (reachable_current w pet Hr Hc) as (Hw & _). split.
  - rewrite (adopt_accepted w form now chosen Hname Hsel).
    destruct (clearedStore_spec (store w)) as (_ & Hx & _).
    unfold Base44.Expense_filter. cbn. apply filter_none.
    intros x Hin. apply N.eqb_neq. apply (proj2 (Hx x Hin) pet).
    rewrite Hw. left. reflexivity.
  - intros leave Hleave.
    assert (Hs : step w leave = run w [PetDelete (id pet)]).
    { destruct Hleave as [(-> & Hd) | (-> & Hd)];
        [rewrite (step_on_page w pet ResetPetClick Hc I)
        | rewrite (step_on_page w pet AdoptNewPetClick Hc I)];
        cbn [handle]; rewrite Hd; reflexivity. }
    rewrite (adopt_accepted _ form now chosen Hname Hsel), Hs.
    destruct w as [[ps xs k] died stats evolving trick log].
    simpl in Hw. subst ps. cbn. rewrite N.eqb_refl. cbn.
    repeat split.
Qed.

Lemma expenses_outlive_a_reset_witness :
  let left_behind := step Sample.fedThrice ResetPetClick in
  List.length (expenses (store (step left_behind (Adopt Sample.form2 9))))
  = 3%nat
  /\ expenses (store (step Sample.fedThrice (Adopt Sample.form2 9))) = [].
Proof.
  destruct (currentPet Sample.fedThrice) as [pet |] eqn:Hc;
    [| vm_compute in Hc; discriminate].
  destruct (expenses_outlive_a_reset Sample.fedThrice pet Sample.form2 9
              phoenix reachable_fedThrice Hc eq_refl eq_refl) as (_ & H).
  destruct (H ResetPetClick (or_introl (conj eq_refl eq_refl)))
    as (_ & _ & H3).
  split.
  - cbv zeta. rewrite H3. vm_compute. reflexivity.
  - vm_compute. reflexivity.
Defined.

Module TrimFacts.
Import PetAdopt.

Lemma trimStart_head (s : Name) (c : N) (rest : Name) :
  trimStart s = c :: rest -> isWhiteSpace c = false.
Proof.
  induction s as [| x s IH]; simpl; [discriminate |].
  destruct (isWhiteSpace x) eqn:E; [exact IH |].
  intros H. injection H as <- _. exact E.
Qed.

Lemma trimStart_fix (s : Name) :
  (forall c rest, s = c :: rest -> isWhiteSpace c = false) ->
  trimStart s = s.
Proof.
  destruct s as [| x s]; intros H; simpl; [reflexivity |].
  rewrite (H x s eq_refl). reflexivity.
Qed.

Lemma trimStart_suffix (s : Name) : exists pre, s = pre ++ trimStart s.
Proof.
  induction s as [| x s (pre & IH)]; simpl.
  - exists []. reflexivity.
  - destruct (isWhiteSpace x).
    + exists (x :: pre). simpl. rewrite <- IH. reflexivity.
    + exists []. reflexivity.
Qed.

Lemma rev_cons_inv (s : Name) (c : N) (rest : Name) :
  rev s = c :: rest -> s = rev rest ++ [c].
Proof.
  intros H. rewrite <- (rev_involutive s), H. reflexivity.
Qed.

Lemma rev_snoc_inv (s : Name) (c : N) (front : Name) :
  rev s = front ++ [c] -> s = c :: rev front.
Proof.
  intros H. rewrite <- (rev_involutive s), H, rev_app_distr. reflexivity.
Qed.

Lemma trim_trimmed (s : Name) : trimmed (trim s).
Proof.
  unfold trim. split.
  - intros c rest H. apply rev_cons_inv in H.
    destruct (trimStart_suffix (rev (trimStart s))) as (pre & Hpre).
    rewrite H in Hpre. apply (f_equal (@rev N)) in Hpre.
    rewrite rev_involutive, app_assoc, rev_app_distr in Hpre.
    simpl in Hpre. exact (trimStart_head s c _ Hpre).
  - intros c front H. apply rev_snoc_inv in H.
    exact (trimStart_head _ c _ H).
Qed.

Lemma trim_fix (s : Name) : trimmed s -> trim s = s.
Proof.
  intros (Hhead & Hlast). unfold trim.
  rewrite (trimStart_fix s Hhead).
  rewrite (trimStart_fix (rev s)); [apply rev_involutive |].
  intros c rest H. apply rev_cons_inv in H. exact (Hlast c _ H).
Qed.

Lemma trim_idempotent (s : Name) : trim (trim s) = trim s.
Proof. apply trim_fix, trim_trimmed. Qed.

Lemma validated (n : Name) :
  validatePetName n = EmptyString ->
  (2 <= List.length (trim n) <= 20)%nat
  /\ forallb nameUnit (trim n) = true
  /\ existsb (fun word => includes (toLowerCase (trim n)) word)
             inappropriateWords = false.
Proof.
  unfold validatePetName. destruct (trim n) as [| c t] eqn:E;
    [discriminate |].
  destruct (List.length (c :: t) <? 2)%nat eqn:E2; [discriminate |].
  destruct (20 <? List.length (c :: t))%nat eqn:E20; [discriminate |].
  destruct (validNamePattern (c :: t)) eqn:Ep; [| discriminate].
  destruct (existsb _ inappropriateWords) eqn:Ew; [discriminate |].
  intros _. apply Nat.ltb_ge in E2, E20.
  split; [split; assumption |]. split; [exact Ep | reflexivity].
Qed.

End TrimFacts.

(** X16.  The name of an adopted pet.  An adoption goes through only
    with a species chosen and a name that passes the validation;
    otherwise the page stays as it is.  The name that is stored is the
    trimmed one: 2 to 20 code units, each a letter, a digit, white
    space, an apostrophe or a hyphen, no white space at either end, none
    of the denied words in any letter case; and it passes the validation
    again as it stands. *)
Theorem adopted_name_is_clean (w : World) (form : PetAdopt.Form) (now : Z) :
  (PetAdopt.validatePetName (PetAdopt.petName form) <> EmptyString
   \/ PetAdopt.selectedPet form = None ->
   step w (Adopt form now) = w)
  /\ (PetAdopt.validatePetName (PetAdopt.petName form) = EmptyString ->
      PetAdopt.selectedPet form <> None ->
      exists q,
        pets (store (step w (Adopt form now))) = [q]
        /\ name q = PetAdopt.trim (PetAdopt.petName form)
        /\ (2 <= List.length (name q) <= 20)%nat
        /\ Forall (fun c => PetAdopt.nameUnit c = true) (name q)
        /\ trimmed (name q)
        /\ (forall word, In word PetAdopt.inappropriateWords ->
              PetAdopt.includes (PetAdopt.toLowerCase (name q)) word = false)
        /\ PetAdopt.validatePetName (name q) = EmptyString).
Proof.
  split.
  - intros H. unfold step, PetAdopt.handleAdopt.
    destruct (PetAdopt.validatePetName (PetAdopt.petName form)) eqn:E.
    + destruct H as [H | H]; [destruct H; reflexivity |].
      simpl. rewrite H. reflexivity.
    + reflexivity.
  - intros Hname Hsel.
    destruct (PetAdopt.selectedPet form) as [chosen |] eqn:Hc;
      [| destruct Hsel; reflexivity].
    rewrite (adopt_accepted w form now chosen Hname Hc).
    destruct (clearedStore_spec (store w)) as (Hp & _).
    destruct (TrimFacts.validated _ Hname) as (Hlen & Hunits & Hwords).
    eexists. cbn. rewrite Hp. split; [reflexivity |]. cbn.
    split; [reflexivity |]. split; [exact Hlen |].
    split; [apply Forall_forall; apply forallb_forall; exact Hunits |].
    split; [apply TrimFacts.trim_trimmed |].
    split.
    + intros word Hin.
      destruct (PetAdopt.includes _ word) eqn:E; [| reflexivity].
      assert (Hex : existsb
                (fun word => PetAdopt.includes
                   (PetAdopt.toLowerCase
                      (PetAdopt.trim (PetAdopt.petName form))) word)
                PetAdopt.inappropriateWords = true)
        by (apply existsb_exists; exists word; split; assumption).
      rewrite Hex in Hwords. discriminate.
    + unfold PetAdopt.validatePetName in *.
      rewrite TrimFacts.trim_idempotent. exact Hname.
Qed.

Lemma adopted_name_is_clean_witness :
  exists q,
    pets (store (step Sample.fedThrice (Adopt Sample.form2 9))) = [q]
    /\ name q = PetAdopt.units "Nyx"
    /\ PetAdopt.validatePetName (name q) = EmptyString.
Proof.
  destruct (adopted_name_is_clean Sample.fedThrice Sample.form2 9)
    as (_ & H).
  destruct H as (q & Hq & Hn & _ & _ & _ & _ & Hv).
  - reflexivity.
  - discriminate.
  - exists q. split; [exact Hq |]. split; [| exact Hv].
    rewrite Hn. reflexivity.
Defined.

(* ================================================================== *)
(** ** What one event makes of the pet *)

Lemma applyUpdates_id (u : Updates) (p : Pet) : id (applyUpdates p u) = id p.
Proof.
  revert p. induction u as [| a u IH]; intros p; [reflexivity |].
  change (applyUpdates p (a :: u)) with (applyUpdates (applyAssign p a) u).
  rewrite IH. destruct p, a; reflexivity.
Qed.

Lemma applyUpdates_coins (u : Updates) (p : Pet) :
  coins (applyUpdates p u) =
  match get_coins u with Some c => c | None => coins p end.
Proof.
  revert p. induction u as [| a u IH]; intros p.
  - reflexivity.
  - change (applyUpdates p (a :: u)) with (applyUpdates (applyAssign p a) u).
    rewrite IH. simpl. destruct (get_coins u); [reflexivity |].
    destruct p, a; reflexivity.
Qed.

Lemma settle_one (es : list Effect) (pet : Pet) :
  Forall (stays_with pet) es ->
  settle [pet] es = [fold_left applyUpdates (issued_updates es) pet].
Proof.
  revert pet. induction es as [| e es IH]; intros pet H; [reflexivity |].
  inversion H as [| e' es' He Hes]; subst.
  destruct e; simpl in *; try (apply IH; exact Hes); try contradiction.
  subst target. rewrite N.eqb_refl. apply IH.
  revert Hes. apply Forall_impl. intros e He'.
  destruct e; simpl in *; try exact He'.
  rewrite applyUpdates_id. exact He'.
Qed.

Ltac stays :=
  repeat first [apply Forall_nil | apply Forall_cons
               | (apply Forall_app; split)];
  cbn [stays_with]; try exact I; try reflexivity.

Lemma handle_stays (w : World) (pet : Pet) (e : Event) :
  leaves e = false -> Forall (stays_with pet) (handle w pet e).
Proof.
  intros Hl. destruct e; try discriminate; cbn [handle]; open_handlers;
    try (destruct a; cbv zeta iota beta); split_ifs; stays.
Qed.

Lemma step_pets (w : World) (pet : Pet) (e : Event) :
  pets (store w) = [pet] -> on_page e -> leaves e = false ->
  pets (store (step w e))
  = [fold_left applyUpdates (issued_updates (handle w pet e)) pet].
Proof.
  intros Hw Hp Hl.
  rewrite (step_on_page w pet e (currentPet_single w pet Hw) Hp).
  rewrite run_pets, Hw. apply settle_one, handle_stays, Hl.
Qed.

Lemma step_expenses (w : World) (pet : Pet) (e : Event) :
  currentPet w = Some pet -> on_page e ->
  map fields (expenses (store (step w e)))
  = map fields (expenses (store w)) ++ created_expenses (handle w pet e).
Proof.
  intros Hc Hp. rewrite (step_on_page w pet e Hc Hp).
  destruct (run_expenses (handle w pet e) w) as (more & -> & <-).
  apply map_app.
Qed.

Lemma progressDay_updates (pet : Pet) (now : Z) (d : Draws) :
  issued_updates (progressDay pet now d) = [dayUpdates pet now d].
Proof. unfold progressDay. split_ifs; reflexivity. Qed.

Lemma get_coins_snoc (u : Updates) (v : Q) :
  get_coins (u ++ [SetCoins v]) = Some v.
Proof.
  induction u as [| a u IH]; simpl; [reflexivity |].
  rewrite IH. reflexivity.
Qed.

(** X18.  The insurance is sold to the insured as well.  The purchase
    asks for 15 coins and for nothing else: a pet that is insured
    already pays the activation fee again, gets a second record in the
    ledger and the achievement once more, and is insured as before. *)
Theorem insurance_is_sold_again (w : World) (pet : Pet) :
  reachable w -> currentPet w = Some pet -> deathScreen w = false ->
  has_insurance pet = true -> 15 <= coins pet ->
  exists q,
    pets (store (step w BuyInsuranceClick)) = [q]
    /\ has_insurance q = true
    /\ coins q = coins pet - 15
    /\ achievements q = achievements pet ++ ["insured"%string]
    /\ health q = health pet
    /\ map fields (expenses (store (step w BuyInsuranceClick)))
       = map fields (expenses (store w))
         ++ [mkExpense (id pet) "insurance" 15 "Insurance activation fee"].
Proof.
  intros Hr Hc Hd _ Hcoins.
  destruct (reachable_current w pet Hr Hc) as (Hw & _).
  assert (Hh : handle w pet BuyInsuranceClick
               = [ExpenseCreate (mkExpense (id pet) "insurance" 15
                                           "Insurance activation fee");
                  PetUpdate (id pet)
                    [SetHasInsurance true; SetCoins (coins pet - 15);
                     SetAchievements (achievements pet ++ ["insured"%string])];
                  Notify InsuranceActivated]).
  { cbn [handle]. rewrite Hd. unfold handleBuyInsurance.
    apply JsFacts.lt_false in Hcoins. rewrite Hcoins. reflexivity. }
  eexists. split; [| split; [| split; [| split; [| split]]]].
  - rewrite (step_pets w pet BuyInsuranceClick Hw I eq_refl), Hh. reflexivity.
  - destruct pet; reflexivity.
  - destruct pet; reflexivity.
  - destruct pet; reflexivity.
  - destruct pet; reflexivity.
  - rewrite (step_expenses w pet BuyInsuranceClick Hc I), Hh. reflexivity.
Qed.

Lemma insurance_is_sold_again_witness :
  exists q,
    pets (store (step Scenario.insured BuyInsuranceClick)) = [q]
    /\ coins q == 20
    /\ achievements q = ["insured"%string; "insured"%string].
Proof.
  destruct (insurance_is_sold_again Scenario.insured Scenario.insuredPet)
    as (q & Hq & _ & Hcoins & Hach & _).
  - exact reachable_insured.
  - vm_compute. reflexivity.
  - reflexivity.
  - reflexivity.
  - vm_compute. discriminate.
  - exists q. split; [exact Hq |]. split.
    + rewrite Hcoins. reflexivity.
    + rewrite Hach. reflexivity.
Defined.

(* ================================================================== *)
(** ** Care actions and the day's wear *)

Lemma min_up (x k : Q) : x <= 100 -> 0 <= k -> x <= Js.min 100 (x + k).
Proof.
  intros Hx Hk.
  destruct (JsFacts.min_cases 100 (x + k)) as [[_ E] | [_ E]]; rewrite E; lra.
Qed.

Lemma care_entry_assign (pet p : Pet) (a : Act.t) (x : Assign) :
  cared pet a p -> care_entry pet a x -> cared pet a (applyAssign p x).
Proof.
  unfold cared. intros (H1 & H2 & H3 & H4 & H5 & H6 & H7 & H8) Hx.
  destruct p, x; simpl in *; repeat split; try assumption; try tauto.
  - intros Hne. destruct a; try assumption. destruct Hne. reflexivity.
  - destruct a; lra.
Qed.

Lemma careClick_entries (pet : Pet) (a : Act.t) :
  pet_ok pet ->
  Forall (effects_satisfy (Forall (care_entry pet a))) (careClick pet false a).
Proof.
  intros ((_ & Hh) & (_ & Ha) & (_ & He) & (_ & Hy) & (_ & Hl) & Hc & _ & Hd).
  pose proof (costMultiplier_ge_1 pet Hd) as Hm.
  open_handlers. destruct a; cbv zeta iota beta; split_ifs; all_entries;
    cbn [care_entry]; try exact I;
    try (apply min_up; [assumption | lra]);
    try (destruct (JsFacts.max_cases 0 (energy pet - 10)) as [[L E] | [L E]];
         rewrite E; lra);
    unfold Act.cost; split; lra.
Qed.

(** X19.  Care never hurts.  A click on a care button, accepted or not,
    lowers neither hunger, happiness, hygiene nor health; the energy
    falls by playing only, and then by 10 at most; and the coins fall by
    the cost of the action, the base cost times the cost multiplier, at
    most. *)
Theorem care_never_hurts (w : World) (pet q : Pet) (a : Act.t) :
  reachable w -> currentPet w = Some pet ->
  In q (pets (store (step w (CareClick a)))) ->
  hunger pet <= hunger q /\ happiness pet <= happiness q
  /\ hygiene pet <= hygiene q /\ health pet <= health q
  /\ (a <> Act.play -> energy pet <= energy q)
  /\ energy pet - 10 <= energy q
  /\ coins q <= coins pet
  /\ coins pet - coins q <= Act.cost a * getCostMultiplier pet.
Proof.
  intros Hr Hc. destruct (reachable_current w pet Hr Hc) as (Hw & Hok).
  rewrite (step_on_page w pet (CareClick a) Hc I), run_pets, Hw.
  revert q. apply Forall_forall. fold (cared pet a).
  apply (settle_keeps (Forall (care_entry pet a))).
  - intros p u Hp Hu.
    apply (entries_keep (care_entry pet a) (cared pet a));
      [intros p0 x; apply care_entry_assign | exact Hp | exact Hu].
  - cbn [handle]. destruct (deathScreen w); [constructor |].
    apply careClick_entries. exact Hok.
  - constructor; [| constructor].
    destruct Hok as (_ & _ & _ & _ & _ & _ & _ & Hd).
    pose proof (costMultiplier_ge_1 pet Hd) as Hm.
    unfold cared. repeat split; try lra. destruct a; unfold Act.cost; lra.
Qed.

Lemma care_never_hurts_witness :
  Forall (fun q => happiness Sample.egg0 <= happiness q /\ 70 <= energy q)
    (pets (store (step Sample.fedThrice (CareClick Act.play)))).
Proof.
  apply Forall_forall. intros q Hq.
  destruct (currentPet Sample.fedThrice) as [pet |] eqn:Hc;
    [| vm_compute in Hc; discriminate].
  destruct (care_never_hurts Sample.fedThrice pet q Act.play
              reachable_fedThrice Hc Hq) as (_ & H2 & _ & _ & _ & H6 & _).
  vm_compute in Hc. injection Hc as <-. split.
  - exact H2.
  - eapply Qle_trans; [| exact H6]. vm_compute. discriminate.
Defined.

Lemma dayUpdates_needs (pet : Pet) (now : Z) (d : Draws) :
  let q := applyUpdates pet (dayUpdates pet now d) in
  let m := ageMultiplier pet in
  hunger q = Js.max 0 (hunger pet - (5 + rHunger d * 8) * m)
  /\ hygiene q = Js.max 0 (hygiene pet - (4 + rHygiene d * 6) * m)
  /\ energy q = Js.max 0 (energy pet - (3 + rEnergy d * 4) * m)
  /\ happiness q = Js.max 0 (happiness pet - 3)
  /\ (has_insurance pet = false -> coins q = coins pet).
Proof.
  cbv zeta. unfold dayUpdates, healthRule, decayUpdates, ageMultiplier.
  destruct pet; cbn [has_insurance hunger hygiene energy happiness coins
                     days_alive health experience].
  split_ifs; cbn; repeat split; intros; try reflexivity; discriminate.
Qed.

Lemma worn_by (before r base span m : Q) :
  0 <= before -> unit_draw r -> 0 <= base -> 0 < span -> 1 <= m ->
  worn before (Js.max 0 (before - (base + r * span) * m))
       (base * m) ((base + span) * m).
Proof.
  intros Hb (Hr0 & Hr1) Hbase Hspan Hm. unfold worn.
  assert (Hrm0 : 0 <= r * m) by (apply Qmult_le_0_compat; lra).
  assert (Hrm1 : r * m < 1 * m) by (apply Qmult_lt_compat_r; lra).
  assert (Hdec : (base + r * span) * m == base * m + span * (r * m)) by ring.
  assert (Hs0 : 0 <= span * (r * m)) by (apply Qmult_le_0_compat; lra).
  assert (Hs1 : span * (r * m) < span * (1 * m)).
  { rewrite !(Qmult_comm span). apply Qmult_lt_compat_r; assumption. }
  assert (Hbm : 0 <= base * m) by (apply Qmult_le_0_compat; lra).
  assert (Htop : (base + span) * m == base * m + span * (1 * m)) by ring.
  destruct (JsFacts.max_cases 0 (before - (base + r * span) * m))
    as [[L E] | [L E]]; rewrite E.
  - split; [lra |]. split; [lra |]. left. reflexivity.
  - split; [lra |]. split; [lra |]. right. split; [lra |].
    rewrite Htop. lra.
Qed.


(* ================================================================== *)
(** ** The wire game *)

Module WiresFacts.
Import Wires.

Lemma Wire_eqb_eq (a b : Wire) : Wire_eqb a b = true <-> a = b.
Proof. destruct a, b; simpl; split; intros H; congruence. Qed.

Lemma connected_In (s : State) (wire : Wire) :
  connected s wire = true <-> In wire (connections s).
Proof.
  unfold connected. rewrite existsb_exists. split.
  - intros (x & Hin & E). apply Wire_eqb_eq in E. subst. exact Hin.
  - intros H. exists wire. split; [exact H | apply Wire_eqb_eq; reflexivity].
Qed.

Lemma connect_fresh (l : list Wire) (k : Wire) :
  NoDup l -> ~ In k l -> NoDup (l ++ [k]).
Proof.
  induction 1 as [| x l Hx Hl IH]; intros Hk; simpl.
  - constructor; [tauto | constructor].
  - constructor.
    + rewrite in_app_iff. simpl in *. intuition congruence.
    + apply IH. simpl in Hk. tauto.
Qed.

Lemma NoDup_at_most_4 (l : list Wire) : NoDup l -> (List.length l <= 4)%nat.
Proof.
  intros H. change 4%nat with (List.length wireColors).
  apply NoDup_incl_length; [exact H |].
  intros x _. destruct x; simpl; tauto.
Qed.

Lemma step_sound (s : State) (i : Input) : sound s -> sound (step s i).
Proof.
  destruct s as [sel conn over mis time]. intros Hs.
  pose proof Hs as (Hm & Ht & Hnd & Hfull & Hsel).
  unfold connected in Hsel. simpl in Hm, Ht, Hnd, Hfull, Hsel.
  destruct i as [| wire | wire]; simpl; unfold tick, handleLeftClick,
    handleRightClick, connected; simpl.
  - destruct ((0 <? time)%Z && negb over) eqn:E1.
    + apply andb_prop in E1. destruct E1 as [E1 _]. apply Z.ltb_lt in E1.
      unfold sound, connected; simpl. repeat split; try assumption; lia.
    + destruct (time =? 0)%Z; [| exact Hs].
      unfold sound, connected; simpl. repeat split; try assumption;
        try lia; auto.
  - destruct over; simpl; [exact Hs |].
    destruct (existsb (Wire_eqb wire) conn) eqn:E; [exact Hs |].
    unfold sound, connected; simpl. repeat split; try assumption; try lia.
    intros c Hc. injection Hc as <-. left. exact E.
  - destruct over; simpl; [exact Hs |].
    destruct (existsb (Wire_eqb wire) conn) eqn:E; simpl; [exact Hs |].
    destruct sel as [chosen |]; [| exact Hs].
    destruct (Wire_eqb chosen wire) eqn:Ew.
    + assert (Hnew : NoDup (conn ++ [wire])).
      { apply connect_fresh; [exact Hnd |]. intros Hin.
        assert (Hc : connected (mkState (Some chosen) conn false mis time)
                               wire = true)
          by (apply connected_In; exact Hin).
        unfold connected in Hc. simpl in Hc. congruence. }
      unfold sound, connected; simpl. repeat split; try assumption; try lia.
      * intros H4. rewrite H4. reflexivity.
      * intros c Hc. discriminate.
    + unfold sound, connected; simpl. repeat split; try assumption; try lia.
      intros c Hc. discriminate.
Qed.

Lemma run_sound (inputs : list Input) (s : State) :
  sound s -> sound (fold_left step inputs s).
Proof.
  revert s. induction inputs as [| i inputs IH]; intros s H; [exact H |].
  simpl. apply IH, step_sound, H.
Qed.

Lemma start_sound : sound start.
Proof.
  unfold sound, start; simpl. repeat split; try lia;
    try discriminate; constructor.
Qed.

Lemma step_mistakes (s : State) (i : Input) :
  (mistakes s <= mistakes (step s i)
   <= mistakes s + rightClicks [i])%Z.
Proof.
  destruct s as [sel conn over mis time].
  destruct i as [| wire | wire]; unfold rightClicks; simpl;
    unfold tick, handleLeftClick, handleRightClick, connected; simpl.
  - destruct ((0 <? time)%Z && negb over); simpl; [lia |].
    destruct (time =? 0)%Z; simpl; lia.
  - destruct (over || existsb (Wire_eqb wire) conn); simpl; [lia |].
    destruct (existsb (Wire_eqb wire) conn); simpl; lia.
  - destruct (over || existsb (Wire_eqb wire) conn
              || match sel with None => true | Some _ => false end);
      simpl; [lia |].
    destruct sel as [chosen |]; simpl; [| lia].
    destruct (Wire_eqb chosen wire); simpl; lia.
Qed.

Lemma run_mistakes (inputs : list Input) (s : State) :
  (mistakes s <= mistakes (fold_left step inputs s)
   <= mistakes s + rightClicks inputs)%Z.
Proof.
  revert s. induction inputs as [| i inputs IH]; intros s.
  - unfold rightClicks. simpl. lia.
  - simpl fold_left. specialize (IH (step s i)).
    pose proof (step_mistakes s i) as Hs.
    assert (Hr : rightClicks (i :: inputs)
                 = (rightClicks [i] + rightClicks inputs)%Z).
    { unfold rightClicks. destruct i; cbn [filter List.length];
        rewrite ?Nat2Z.inj_succ; lia. }
    lia.
Qed.

Lemma over_is_final (s : State) (i : Input) :
  gameOver s = true -> step s i = s.
Proof.
  destruct s as [sel conn over mis time]. simpl. intros ->.
  destruct i; simpl; try reflexivity.
  unfold tick. simpl. rewrite andb_false_r.
  destruct (time =? 0)%Z; reflexivity.
Qed.

End WiresFacts.

(** X22.  The wire game plays fair.  However a game is played, the
    mistakes it counts are never negative and never more than the clicks
    on a right wire, so that the reward it pays on Collect lies between
    10 and 30; no wire is connected twice; the game is over once all
    four are connected; and once it is over, by connection or by the
    clock, no click and no tick changes mistakes or connections. *)
Theorem wire_game_plays_fair (inputs : list Wires.Input) :
  let s := fold_left Wires.step inputs Wires.start in
  game_ok (Wires.handleFinish s)
  /\ (0 <= Wires.mistakes s <= Wires.rightClicks inputs)%Z
  /\ 10 <= reward (Wires.handleFinish s)
  /\ reward (Wires.handleFinish s) <= 30
  /\ NoDup (Wires.connections s)
  /\ (List.length (Wires.connections s) <= 4)%nat
  /\ (List.length (Wires.connections s) = 4%nat -> Wires.gameOver s = true)
  /\ (0 <= Wires.timeLeft s <= 15)%Z
  /\ (Wires.gameOver s = true -> forall i, Wires.step s i = s).
Proof.
  cbv zeta.
  destruct (WiresFacts.run_sound inputs Wires.start WiresFacts.start_sound)
    as (Hm & Ht & Hnd & Hfull & _).
  pose proof (WiresFacts.run_mistakes inputs Wires.start) as Hcount.
  simpl (Wires.mistakes Wires.start) in Hcount.
  assert (Hq : 0 <= inject_Z (Wires.mistakes (fold_left Wires.step inputs
                                                  Wires.start)))
    by (change 0 with (inject_Z 0); rewrite <- Zle_Qle; exact Hm).
  split; [exact Hm |]. split; [lia |].
  split; [| split; [| split; [exact Hnd | split; [| split; [exact Hfull |
    split; [exact Ht |]]]]]].
  - unfold Wires.handleFinish, reward.
    destruct (JsFacts.max_cases
                (30 - inject_Z (Wires.mistakes
                                  (fold_left Wires.step inputs Wires.start))
                      * 5) 10) as [[L E] | [L E]]; cbv zeta; rewrite E; lra.
  - unfold Wires.handleFinish, reward.
    destruct (JsFacts.max_cases
                (30 - inject_Z (Wires.mistakes
                                  (fold_left Wires.step inputs Wires.start))
                      * 5) 10) as [[L E] | [L E]]; cbv zeta; rewrite E; lra.
  - apply WiresFacts.NoDup_at_most_4. exact Hnd.
  - intros Hover i. apply WiresFacts.over_is_final. exact Hover.
Qed.

(* ================================================================== *)
(** ** Awards are given once *)

Lemma occ_snoc (s x : string) (l : list string) :
  occurrences s (l ++ [x])
  = (occurrences s l + (if String.eqb s x then 1 else 0))%nat.
Proof.
  induction l as [| y l IH]; simpl; [lia |]. rewrite IH. lia.
Qed.

Lemma occ_absent (s : string) (l : list string) :
  Js.includes l s = false -> occurrences s l = 0%nat.
Proof.
  unfold Js.includes. induction l as [| y l IH]; simpl; [reflexivity |].
  destruct (String.eqb s y); simpl; [discriminate |]. exact IH.
Qed.

Lemma in_snoc_fresh (l : list string) (s : string) :
  NoDup l -> Js.includes l s = false -> NoDup (l ++ [s]).
Proof.
  intros Hnd Hin. apply ChartFacts.NoDup_snoc; [exact Hnd |].
  intros H. apply JsFacts.includes_In in H. congruence.
Qed.

Ltac count_awards :=
  rewrite ?occ_snoc; cbn [String.eqb Ascii.eqb Bool.eqb];
  rewrite ?Nat.add_0_r.

Lemma handle_awards (w : World) (pet : Pet) (e : Event) :
  awarded_once pet ->
  Forall (fun u => awarded_once (applyUpdates pet u))
         (issued_updates (handle w pet e))
  /\ (List.length (issued_updates (handle w pet e)) <= 1)%nat.
Proof.
  intros Hp. pose proof Hp as (Ht & Hf & Hw & Hh & Hg).
  destruct e; cbn [handle]; open_handlers;
    try (destruct a; cbv zeta iota beta); split_ifs;
    cbn [issued_updates flat_map app List.length];
    (split; [| lia]);
    repeat first [apply Forall_nil | apply Forall_cons];
    try (destruct (dayUpdates_fields pet now d)
           as (_ & Fs & _ & _ & Fa & Ft & _);
         unfold awarded_once; rewrite Fs, Fa, Ft; exact Hp);
    repeat match goal with
           | H : negb _ = true |- _ => apply negb_true_iff in H
           | H : negb _ = false |- _ => apply negb_false_iff in H
           | H : (_ && _)%bool = true |- _ => apply andb_prop in H; destruct H
           | H : Js.includes (achievements _) _ = false |- _ =>
               apply occ_absent in H
           | H : Js.includes (tricks ?p) ?s = false |- _ =>
               apply (in_snoc_fresh (tricks p) s Ht) in H
           end;
    unfold awarded_once in *;
    destruct pet; cbn in *;
    repeat split; count_awards; try assumption; try lia;
    destruct stage0; simpl in *; try discriminate; lia.
Qed.

Lemma on_page_or_adopt (e : Event) :
  on_page e \/ exists form now, e = Adopt form now.
Proof.
  destruct e; try (left; exact I). right. eexists. eexists. reflexivity.
Qed.

Lemma newPet_awards (form : PetAdopt.Form) (chosen : Species) (i : PetId)
    (now : Z) :
  awarded_once (PetAdopt.newPet form chosen i now).
Proof.
  unfold awarded_once. cbn. repeat split; try lia. constructor.
Qed.

Lemma adopt_awards (w : World) (form : PetAdopt.Form) (now : Z) :
  Forall awarded_once (pets (store w)) ->
  Forall awarded_once (pets (store (step w (Adopt form now)))).
Proof.
  intros Hw. unfold step, PetAdopt.handleAdopt.
  destruct (Js.truthy _); [exact Hw |].
  destruct (PetAdopt.selectedPet form); [| exact Hw].
  fold (clearedStore (store w)).
  destruct (clearedStore_spec (store w)) as (P & _).
  cbn. rewrite P. cbn. constructor; [apply newPet_awards | constructor].
Qed.

Lemma step_awards (w : World) (e : Event) :
  (List.length (pets (store w)) <= 1)%nat ->
  Forall awarded_once (pets (store w)) ->
  Forall awarded_once (pets (store (step w e))).
Proof.
  intros Hlen Hw.
  destruct (on_page_or_adopt e) as [Hp | (form & now & ->)];
    [| apply adopt_awards; exact Hw].
  destruct (pets (store w)) as [| pet [| p' l]] eqn:Hps;
    [| | simpl in Hlen; lia].
  - assert (Hc : currentPet w = None)
      by (unfold currentPet; rewrite Hps; reflexivity).
    rewrite (step_without_pet w e Hc Hp), Hps. constructor.
  - inversion Hw as [| x l Hpet _]; subst.
    pose proof (currentPet_single w pet Hps) as Hc.
    destruct (leaves e) eqn:Hl.
    + assert (Hsub : forall q, In q (pets (store (step w e))) -> q = pet).
      { rewrite (step_on_page w pet e Hc Hp), run_pets, Hps.
        destruct e; try discriminate; cbn [handle];
          destruct (deathScreen w); cbn; rewrite ?N.eqb_refl; cbn;
          intros q Hq; simpl in Hq; intuition. }
      apply Forall_forall. intros q Hq. rewrite (Hsub q Hq). exact Hpet.
    + rewrite (step_pets w pet e Hps Hp Hl).
      destruct (handle_awards w pet e Hpet) as (Hall & Hone).
      destruct (issued_updates (handle w pet e)) as [| u [| u' us]].
      * constructor; [exact Hpet | constructor].
      * inversion Hall; subst. constructor; [assumption | constructor].
      * simpl in Hone. lia.
Qed.

Lemma reachable_awards (w : World) :
  reachable w -> Forall awarded_once (pets (store w)).
Proof.
  induction 1 as [| w e Hr IH He].
  - constructor.
  - apply step_awards; [apply reachable_one_pet; exact Hr | exact IH].
Qed.

(** X23.  Awards are given once.  In every world a session can reach,
    no trick is on the pet's list twice, the achievements of the first
    meal and of wealth are listed once at most, and the achievements of
    hatching and of growing up are listed exactly once from the moment
    the pet has reached that stage and not before. *)
Theorem awards_are_given_once (w : World) (q : Pet) :
  reachable w -> In q (pets (store w)) ->
  NoDup (tricks q)
  /\ (occurrences "first_feed" (achievements q) <= 1)%nat
  /\ (occurrences "wealthy" (achievements q) <= 1)%nat
  /\ (stage q = egg -> ~ In "hatchling"%string (achievements q)
                       /\ ~ In "fully_grown"%string (achievements q))
  /\ (stage q = hatchling ->
      occurrences "hatchling" (achievements q) = 1%nat
      /\ ~ In "fully_grown"%string (achievements q))
  /\ (stage q = grown ->
      occurrences "hatchling" (achievements q) = 1%nat
      /\ occurrences "fully_grown" (achievements q) = 1%nat).
Proof.
  intros Hr Hq. pose proof (reachable_awards w Hr) as Hall.
  rewrite Forall_forall in Hall.
  destruct (Hall q Hq) as (Ht & Hf & Hw & Hh & Hg).
  assert (Hno : forall s l, occurrences s l = 0%nat -> ~ In s l).
  { intros s l. induction l as [| x l IH]; simpl; [tauto |].
    destruct (String.eqb s x) eqn:E; [discriminate |].
    apply String.eqb_neq in E. intros H0 [H1 | H1]; [congruence |].
    apply IH; assumption. }
  split; [exact Ht |]. split; [exact Hf |]. split; [exact Hw |].
  split; [| split]; intros Hs; rewrite Hs in Hh, Hg; simpl in Hh, Hg;
    split; auto.
Qed.

Lemma awards_are_given_once_witness :
  Forall (fun q => NoDup (tricks q)) (pets (store Scenario.trained)).
Proof.
  apply Forall_forall. intros q Hq.
  exact (proj1 (awards_are_given_once Scenario.trained q
                  reachable_trained Hq)).
Defined.

(* ================================================================== *)
(** ** The memorial *)

Lemma total_nonneg (xs : list ExpenseData) :
  Forall expense_ok xs -> 0 <= ExpenseChart.totalExpenses xs.
Proof.
  induction 1 as [| x xs (_ & Hx) _ IH].
  - unfold ExpenseChart.totalExpenses. simpl. lra.
  - unfold ExpenseChart.totalExpenses. simpl.
    rewrite ChartFacts.total_from. lra.
Qed.

Lemma handle_record (w : World) (pet : Pet) (e : Event) :
  forallb keeps_record (handle w pet e) = true
  \/ petDied w = false
     /\ handle w pet e
        = [RecordDeath
             {| ds_name := name pet;
                daysLived := if (days_alive pet =? 0)%Z then 1%Z
                             else days_alive pet;
                ds_happiness := happiness pet;
                totalSpent :=
                  Js.round
                    (ExpenseChart.totalExpenses
                       (map fields
                          (Base44.Expense_filter (store w) (id pet))));
                ds_achievements := List.length (achievements pet);
                ds_coins := coins pet |}].
Proof.
  destruct e; cbn [handle]; open_handlers;
    try (destruct a; cbv zeta iota beta); split_ifs;
    try (left; reflexivity).
  all: right; split; [| reflexivity];
    match goal with
    | E : (_ && negb _)%bool = true |- _ =>
        apply andb_prop in E; destruct E as [_ E];
        apply negb_true_iff in E; exact E
    end.
Qed.

Lemma step_record (w : World) (e : Event) :
  Forall pet_ok (pets (store w)) ->
  Forall (fun x => expense_ok (fields x)) (expenses (store w)) ->
  record_ok w -> record_ok (step w e).
Proof.
  intros Hok Hledger Hw.
  destruct (on_page_or_adopt e) as [Hp | (form & now & ->)].
  - destruct (currentPet w) as [pet |] eqn:Hc;
      [| rewrite (step_without_pet w e Hc Hp); exact Hw].
    rewrite (step_on_page w pet e Hc Hp).
    destruct (handle_record w pet e) as [Hk | (Hd & ->)].
    + destruct (run_keeps_record _ w Hk) as (H1 & H2).
      unfold record_ok. rewrite H1, H2. exact Hw.
    + assert (Hpet : pet_ok pet).
      { unfold currentPet in Hc. destruct (pets (store w)); [discriminate |].
        injection Hc as <-. inversion Hok; assumption. }
      destruct Hpet as (_ & _ & _ & _ & _ & Hcoins & _ & Hdays).
      destruct w as [s died stats evolving trick log].
      unfold record_ok. cbn. split; [reflexivity |].
      split; [destruct (days_alive pet =? 0)%Z eqn:E; lia |].
      split; [exact Hcoins |]. apply round_nonneg, total_nonneg.
      rewrite Forall_map. unfold Base44.Expense_filter.
      rewrite Forall_forall in *. intros x Hx. apply filter_In in Hx.
      apply Hledger, Hx.
  - unfold step, PetAdopt.handleAdopt.
    destruct (Js.truthy _); [exact Hw |].
    destruct (PetAdopt.selectedPet form); [| exact Hw].
    reflexivity.
Qed.

Lemma reachable_record (w : World) : reachable w -> record_ok w.
Proof.
  induction 1 as [| w e Hr IH He].
  - reflexivity.
  - apply step_record;
      [apply reachable_ok | apply reachable_ledger |]; assumption.
Qed.

(** X24.  The memorial.  A memorial is made from the death record: it
    can be bought when the record shows 50 coins, and it is created when
    the record covers the cost of the chosen style: 50, 75 or 100.  The
    cost is a condition and not a charge: the handler issues no update
    of the pet, it creates the memorial and deletes the pet.  The
    memorial carries the days lived of the record, at least 1, and the
    type chosen; what it files as coins earned is the record's sum of
    expenses. *)
Theorem memorial_from_the_death_record
    (w : World) (pet : Pet) (stats : DeathStats) :
  reachable w -> currentPet w = Some pet -> deathStats w = Some stats ->
  deathScreen w = true
  /\ (handleBuyMemorial (deathStats w) = true <-> 50 <= ds_coins stats)
  /\ forall style epitaph now,
       (ds_coins stats < Memorial.cost style ->
        handleCreateMemorial (Some pet) (Some stats) style epitaph now
        = [Memorial.Notify Memorial.NotEnoughCoins])
       /\ (Memorial.cost style <= ds_coins stats ->
           exists m,
             handleCreateMemorial (Some pet) (Some stats) style epitaph now
             = [Memorial.Create m; Memorial.Notify Memorial.Created;
                Memorial.DeletePet (id pet)]
             /\ Memorial.days_lived m = daysLived stats
             /\ (1 <= Memorial.days_lived m)%Z
             /\ Memorial.memorial_type m = style
             /\ Memorial.pet_name m = name pet
             /\ Memorial.stage_reached m = stage pet
             /\ Memorial.total_coins_earned m = totalSpent stats
             /\ 0 <= Memorial.total_coins_earned m
             /\ Memorial.color_variant m <> EmptyString)
       /\ (handleBuyMemorial (deathStats w) = true ->
           style = Memorial.basic ->
           handleCreateMemorial (Some pet) (Some stats) style epitaph now
           <> [Memorial.Notify Memorial.NotEnoughCoins]).
Proof.
  intros Hr Hc Hs. pose proof (reachable_record w Hr) as Hrec.
  unfold record_ok in Hrec. rewrite Hs in Hrec.
  destruct Hrec as (Hdied & Hdays & Hcoins & Hspent).
  split; [unfold deathScreen; rewrite Hdied, Hs; reflexivity |].
  assert (Hbuy : handleBuyMemorial (deathStats w) = true
                 <-> 50 <= ds_coins stats).
  { rewrite Hs. unfold handleBuyMemorial. rewrite negb_true_iff.
    apply JsFacts.lt_false. }
  split; [exact Hbuy |].
  intros style epitaph now. unfold handleCreateMemorial.
  split; [| split].
  - intros Hpoor. apply JsFacts.lt_true in Hpoor. rewrite Hpoor. reflexivity.
  - intros Hrich. apply JsFacts.lt_false in Hrich. rewrite Hrich.
    eexists. split; [reflexivity |]. cbn.
    repeat split; try assumption.
    destruct (color_variant pet); cbn; discriminate.
  - intros Hopen ->. apply Hbuy in Hopen.
    assert (Hlt : Js.lt (ds_coins stats) (Memorial.cost Memorial.basic)
                  = false) by (apply JsFacts.lt_false; exact Hopen).
    rewrite Hlt. discriminate.
Qed.

Lemma reachable_mourned : reachable Scenario.mourned.
Proof.
  apply reachable_steps.
  - apply reach_step; [exact reachable_dying | exact I].
  - repeat (apply Forall_cons || apply Forall_nil);
      try exact I; exact draws_ok_half.
Qed.

Lemma memorial_from_the_death_record_witness :
  deathScreen Scenario.mourned = true
  /\ handleBuyMemorial (deathStats Scenario.mourned) = true.
Proof.
  destruct (currentPet Scenario.mourned) as [pet |] eqn:Hc;
    [| vm_compute in Hc; discriminate].
  destruct (deathStats Scenario.mourned) as [stats |] eqn:Hs;
    [| vm_compute in Hs; discriminate].
  destruct (memorial_from_the_death_record Scenario.mourned pet stats
              reachable_mourned Hc Hs) as (Hd & Hbuy & _).
  split; [exact Hd |]. rewrite Hs in Hbuy. apply Hbuy.
  vm_compute in Hs. injection Hs as <-. vm_compute. discriminate.
Defined.

(* ================================================================== *)
(** ** What an event leaves alone *)

Lemma keeps_age_assign (pet p : Pet) (a : Assign) :
  same_age pet p -> keeps_age a -> same_age pet (applyAssign p a).
Proof.
  unfold same_age. intros (H1 & H2 & H3) Ha.
  destruct p, a; simpl in *; try contradiction; repeat split; assumption.
Qed.

Lemma handle_keeps_age (w : World) (pet : Pet) (e : Event) :
  (forall now d, e <> DayTimeout now d) ->
  Forall (effects_satisfy (Forall keeps_age)) (handle w pet e).
Proof.
  intros Hday. destruct e; cbn [handle]; open_handlers;
    try (destruct (Hday now d); reflexivity);
    try (destruct a; cbv zeta iota beta); split_ifs; all_entries;
    cbn [keeps_age]; exact I.
Qed.

(** X26.  Only a day-advance ages the pet.  No click and no effect
    other than the day-advance changes the day counter or the time the
    day started.  So nothing the player does moves the deadline of the
    next day-advance, the length of the day, the cost multiplier or the
    insurance fee. *)
Theorem only_a_day_ages_the_pet (w : World) (pet q : Pet) (e : Event) :
  reachable w -> currentPet w = Some pet -> on_page e ->
  (forall now d, e <> DayTimeout now d) ->
  In q (pets (store (step w e))) ->
  days_alive q = days_alive pet /\ last_fed q = last_fed pet
  /\ getCostMultiplier q = getCostMultiplier pet
  /\ getInsuranceCost q = getInsuranceCost pet
  /\ getDayDuration (Some q) = getDayDuration (Some pet)
  /\ forall now, scheduleDay q now = scheduleDay pet now.
Proof.
  intros Hr Hc Hp Hday Hq.
  destruct (reachable_current w pet Hr Hc) as (Hw & _).
  assert (Hsame : same_age pet q).
  { rewrite (step_on_page w pet e Hc Hp), run_pets, Hw in Hq.
    revert q Hq. apply Forall_forall.
    apply (settle_keeps (Forall keeps_age)).
    - intros p u H0 Hu.
      apply (entries_keep keeps_age (same_age pet));
        [intros p0 a; apply keeps_age_assign | exact H0 | exact Hu].
    - apply handle_keeps_age. exact Hday.
    - constructor; [| constructor]. repeat split. }
  destruct Hsame as (Hd & Hl & Hcd).
  unfold getCostMultiplier, getInsuranceCost, getDayDuration, scheduleDay,
    getDayDuration.
  rewrite Hd, Hl, Hcd. repeat split.
Qed.

Lemma only_a_day_ages_the_pet_witness :
  Forall (fun q => days_alive q = 5%Z)
    (pets (store (step Sample.fiveDaysOld (CareClick Act.feed)))).
Proof.
  apply Forall_forall. intros q Hq.
  destruct (currentPet Sample.fiveDaysOld) as [pet |] eqn:Hc;
    [| vm_compute in Hc; discriminate].
  destruct (only_a_day_ages_the_pet Sample.fiveDaysOld pet q
              (CareClick Act.feed)) as (Hd & _).
  - apply reachable_steps; [exact reachable_adopted |].
    destruct (idle_days_on_page Sample.half 5 draws_ok_half) as [_ H].
    exact H.
  - exact Hc.
  - exact I.
  - intros now d. discriminate.
  - exact Hq.
  - rewrite Hd. vm_compute in Hc. injection Hc as <-. reflexivity.
Defined.

Lemma untended_assign (pet p : Pet) (a : Assign) :
  untended pet p -> untended_entry pet a -> untended pet (applyAssign p a).
Proof.
  unfold untended. intros (H1 & H2 & H3 & H4 & H5 & H6) Ha.
  destruct p, a; simpl in *; try contradiction; repeat split;
    try assumption; tauto.
Qed.

Lemma handle_untended (w : World) (pet : Pet) (e : Event) :
  pet_ok pet -> tends e = false ->
  Forall (effects_satisfy (Forall (untended_entry pet))) (handle w pet e).
Proof.
  intros (_ & (Ha0 & Ha) & (He0 & He) & _) Ht.
  destruct e; try discriminate; cbn [handle]; open_handlers;
    try (destruct t); split_ifs; all_entries;
    cbn [untended_entry]; try exact I;
    try (apply min_up; [assumption | unfold Toy.happiness; lra]);
    match goal with
    | G : (Js.ge (energy pet) 10 && _)%bool = true |- _ =>
        apply andb_prop in G; destruct G as [G _];
        apply JsFacts.ge_true in G;
        destruct (JsFacts.max_cases 0 (energy pet - 10))
          as [[L E] | [L E]]; rewrite E; split; lra
    end.
Qed.

(** X27.  Needs move by care and by time only.  An event that is
    neither a day-advance nor a care action leaves hunger, hygiene and
    health exactly as they are: no game, shop, insurance, trick or
    evolution heals or harms.  Such an event never lowers the happiness,
    and takes 10 energy at most, which only a trick show does. *)
Theorem needs_move_by_care_and_time (w : World) (pet q : Pet) (e : Event) :
  reachable w -> currentPet w = Some pet -> on_page e ->
  tends e = false ->
  In q (pets (store (step w e))) ->
  hunger q = hunger pet /\ hygiene q = hygiene pet /\ health q = health pet
  /\ happiness pet <= happiness q
  /\ energy pet - 10 <= energy q /\ energy q <= energy pet
  /\ ((forall t, e <> PerformTrickClick t) -> energy q = energy pet).
Proof.
  intros Hr Hc Hp Ht Hq.
  destruct (reachable_current w pet Hr Hc) as (Hw & Hok).
  assert (Hun : untended pet q).
  { rewrite (step_on_page w pet e Hc Hp), run_pets, Hw in Hq.
    revert q Hq. apply Forall_forall.
    apply (settle_keeps (Forall (untended_entry pet))).
    - intros p u H0 Hu.
      apply (entries_keep (untended_entry pet) (untended pet));
        [intros p0 a; apply untended_assign | exact H0 | exact Hu].
    - apply handle_untended; assumption.
    - constructor; [| constructor]. unfold untended. repeat split; lra. }
  destruct Hun as (H1 & H2 & H3 & H4 & H5 & H6).
  repeat split; try assumption.
  intros Hnot.
  assert (Hen : Forall (fun p => energy p = energy pet)
                       (pets (store (step w e)))).
  { rewrite (step_on_page w pet e Hc Hp), run_pets, Hw.
    apply (settle_keeps
             (Forall (fun a => match a with SetEnergy _ => False
                                          | _ => True end))).
    - intros p u H0 Hu.
      apply (entries_keep
               (fun a => match a with SetEnergy _ => False | _ => True end)
               (fun p => energy p = energy pet)); try assumption.
      intros p0 a Hp0 Ha. destruct p0, a; simpl in *; tauto.
    - destruct e; try discriminate; cbn [handle]; open_handlers;
        try (destruct (Hnot t); reflexivity);
        split_ifs; all_entries; exact I.
    - constructor; [reflexivity | constructor]. }
  rewrite Forall_forall in Hen. apply Hen, Hq.
Qed.

Lemma needs_move_by_care_and_time_witness :
  Forall (fun q => health q = health Sample.egg0 /\ hunger q == 100)
    (pets (store (step Sample.fedThrice (LearnTrickClick Trick.roll)))).
Proof.
  apply Forall_forall. intros q Hq.
  destruct (currentPet Sample.fedThrice) as [pet |] eqn:Hc;
    [| vm_compute in Hc; discriminate].
  destruct (needs_move_by_care_and_time Sample.fedThrice pet q
              (LearnTrickClick Trick.roll) reachable_fedThrice Hc I eq_refl Hq)
    as (Hh & _ & Hl & _).
  rewrite Hh, Hl. vm_compute in Hc. injection Hc as <-.
  split; reflexivity.
Defined.

(* ================================================================== *)
(** * The page with its day timer *)

Lemma sameDeps_spec (a b : option Pet) :
  sameDeps a b = true <-> timerDeps a = timerDeps b.
Proof.
  unfold sameDeps. destruct a as [p |], b as [q |]; simpl.
  - split.
    + intros H. apply andb_prop in H. destruct H as [H H3].
      apply andb_prop in H. destruct H as [H1 H2].
      apply N.eqb_eq in H1. apply Z.eqb_eq in H2. rewrite H1, H2.
      destruct (last_fed p) as [t |], (last_fed q) as [t' |];
        try discriminate; [| reflexivity].
      apply Z.eqb_eq in H3. rewrite H3. reflexivity.
    + intros H. injection H as H1 H2 H3. rewrite H1, H2, H3.
      rewrite N.eqb_refl, Z.eqb_refl. simpl.
      destruct (last_fed q); [apply Z.eqb_refl | reflexivity].
  - split; discriminate.
  - split; discriminate.
  - split; reflexivity.
Qed.

Lemma sameDeps_refl (a : option Pet) : sameDeps a a = true.
Proof. apply sameDeps_spec. reflexivity. Qed.

Lemma pageStep_world (pg : Page) (e : Event) :
  (forall now d, e <> DayTimeout now d) ->
  world (pageStep pg e) = step (world pg) e.
Proof.
  intros Hday. destruct e; try reflexivity.
  - destruct (Hday now d). reflexivity.
  - unfold pageStep, step.
    destruct (PetAdopt.handleAdopt form (store (world pg)) now); reflexivity.
Qed.

Lemma pageStep_day (pg : Page) (snapshot : Pet) (now : Z) (d : Draws) :
  timerPet pg = Some snapshot ->
  pageStep pg (DayTimeout now d)
  = render pg (run (world pg)
                   (handle (world pg) snapshot (DayTimeout now d))).
Proof. intros H. unfold pageStep. rewrite H. reflexivity. Qed.

Lemma pageStep_no_timer (pg : Page) (now : Z) (d : Draws) :
  timerPet pg = None -> pageStep pg (DayTimeout now d) = pg.
Proof. intros H. unfold pageStep. rewrite H. reflexivity. Qed.

Lemma stays_with_same_id (p q : Pet) (es : list Effect) :
  id p = id q -> Forall (stays_with p) es -> Forall (stays_with q) es.
Proof.
  intros Hid. apply Forall_impl. intros e He.
  destruct e; simpl in *; congruence.
Qed.

(** The day-advance of the timer on a one-pet store: the update computed
    from the snapshot lands on the stored pet. *)
Lemma day_lands (w : World) (snapshot cur : Pet) (now : Z) (d : Draws) :
  pets (store w) = [cur] -> id snapshot = id cur ->
  pets (store (run w (progressDay snapshot now d)))
  = [applyUpdates cur (dayUpdates snapshot now d)].
Proof.
  intros Hw Hid. rewrite run_pets, Hw.
  rewrite (settle_one (progressDay snapshot now d) cur).
  - rewrite progressDay_updates. reflexivity.
  - apply (stays_with_same_id snapshot cur _ Hid).
    exact (handle_stays w snapshot (DayTimeout now d) eq_refl).
Qed.

Lemma timer_ok_render (pg : Page) (after : World) :
  timer_ok pg ->
  Forall pet_ok (pets (store after)) ->
  (List.length (pets (store after)) <= 1)%nat ->
  timer_ok (render pg after).
Proof.
  intros Ht Hok Hlen. unfold timer_ok, render. simpl.
  destruct (sameDeps (currentPet (world pg)) (currentPet after)) eqn:E.
  - apply sameDeps_spec in E. unfold timer_ok in Ht.
    unfold currentPet in E.
    destruct (timerPet pg) as [snapshot |].
    + destruct Ht as (Hs & cur & Hcur & Hi & Hd & Hl). rewrite Hcur in E.
      destruct (pets (store after)) as [| q [| q' l]]; simpl in *;
        try discriminate; try lia.
      injection E as E1 E2 E3. split; [exact Hs |].
      exists q. repeat split; congruence.
    + rewrite Ht in E.
      destruct (pets (store after)) as [| q l]; [reflexivity | discriminate].
  - unfold currentPet.
    destruct (pets (store after)) as [| q [| q' l]]; simpl in *; try lia.
    + reflexivity.
    + split; [inversion Hok; assumption |].
      exists q. repeat split.
Qed.

Lemma mount_ok (s : Store) :
  Forall pet_ok (pets s) -> (List.length (pets s) <= 1)%nat ->
  Forall (fun x => expense_ok (fields x)) (expenses s) ->
  page_ok (mount s).
Proof.
  intros Hok Hlen Hx. unfold page_ok, mount, timer_ok, currentPet. simpl.
  split; [exact Hok |]. split; [exact Hlen |]. split; [exact Hx |].
  destruct (pets s) as [| q [| q' l]]; simpl in *; try lia.
  - reflexivity.
  - split; [inversion Hok; assumption |]. exists q. repeat split.
Qed.

Lemma day_ledger (w : World) (snapshot : Pet) (now : Z) (d : Draws) :
  pet_ok snapshot ->
  Forall (fun x => expense_ok (fields x)) (expenses (store w)) ->
  Forall (fun x => expense_ok (fields x))
         (expenses (store (run w (progressDay snapshot now d)))).
Proof.
  intros Hs Hw.
  destruct (run_expenses (progressDay snapshot now d) w) as (more & -> & Hf).
  apply Forall_app. split; [exact Hw |].
  destruct (handle_expenses w snapshot (DayTimeout now d) Hs) as (Hall & _).
  cbn [handle] in Hall. rewrite <- Hf in Hall. rewrite Forall_map in Hall.
  exact Hall.
Qed.

Lemma pageStep_ok (pg : Page) (e : Event) :
  page_ok pg -> event_ok e -> page_ok (pageStep pg e).
Proof.
  intros (Hok & Hlen & Hx & Ht) He.
  destruct (on_page_or_adopt e) as [Hp | (form & now & ->)].
  - assert (Hgen : forall after,
               Forall pet_ok (pets (store after)) ->
               (List.length (pets (store after)) <= 1)%nat ->
               Forall (fun x => expense_ok (fields x))
                      (expenses (store after)) ->
               page_ok (render pg after)).
    { intros after H1 H2 H3. split; [exact H1 |]. split; [exact H2 |].
      split; [exact H3 |]. apply timer_ok_render; assumption. }
    assert (Hstep : page_ok (render pg (step (world pg) e))).
    { apply Hgen; [apply step_ok | apply step_length | apply step_ledger];
        assumption. }
    destruct e; try exact Hstep; try destruct Hp.
    unfold pageStep. destruct (timerPet pg) as [snapshot |] eqn:Hs;
      [| split; [| split; [| split]]; assumption].
    assert (Hsnap : pet_ok snapshot).
    { unfold timer_ok in Ht. rewrite Hs in Ht. apply Ht. }
    apply Hgen.
    + apply run_ok; [exact Hok | apply progressDay_ok; assumption].
    + rewrite run_pets.
      eapply Nat.le_trans; [apply settle_length | exact Hlen].
    + apply day_ledger; assumption.
  - unfold pageStep, PetAdopt.handleAdopt.
    destruct (Js.truthy _); [split; [| split; [| split]]; assumption |].
    destruct (PetAdopt.selectedPet form) as [chosen |];
      [| split; [| split; [| split]]; assumption].
    fold (clearedStore (store (world pg))).
    destruct (clearedStore_spec (store (world pg))) as (P & Hcx & _).
    apply mount_ok; cbn; rewrite ?P; cbn.
    + constructor; [apply newPet_ok | constructor].
    + lia.
    + rewrite Forall_forall in *. intros x Hin. apply Hx, Hcx, Hin.
Qed.

(** The death check writes the React state only: the store and the
    armed timer stay. *)
Lemma deathEffect_store (pg : Page) (expenses : list ExpenseData) :
  store (world (deathEffect pg expenses)) = store (world pg)
  /\ timerPet (deathEffect pg expenses) = timerPet pg.
Proof.
  unfold deathEffect. destruct (currentPet (world pg)) as [pet |] eqn:Hc;
    [| split; reflexivity].
  assert (Hs : store (run (world pg)
                        (deathCheck pet (petDied (world pg)) expenses))
               = store (world pg)).
  { unfold deathCheck. destruct (Js.le (health pet) 0 && negb _)%bool;
      [| reflexivity].
    destruct (world pg); reflexivity. }
  split; [exact Hs |]. unfold render. cbn [timerPet].
  unfold currentPet at 2. rewrite Hs. fold (currentPet (world pg)).
  rewrite sameDeps_refl. reflexivity.
Qed.

Lemma deathEffect_ok (pg : Page) (expenses : list ExpenseData) :
  page_ok pg -> page_ok (deathEffect pg expenses).
Proof.
  destruct (deathEffect_store pg expenses) as [Hs Ht].
  unfold page_ok, timer_ok. rewrite Hs, Ht. exact (fun H => H).
Qed.

Lemma pageReachable_ok (pg : Page) : pageReachable pg -> page_ok pg.
Proof.
  induction 1 as [| pg e Hr IH He | pg expenses Hr IH | pg Hr IH].
  - apply mount_ok; simpl; [constructor | lia | constructor].
  - apply pageStep_ok; assumption.
  - apply deathEffect_ok; assumption.
  - destruct IH as (Hok & Hlen & Hx & _). apply mount_ok; assumption.
Qed.

Lemma pageRun_reachable (pg pg' : Page) :
  pageReachable pg -> pageRun pg pg' -> pageReachable pg'.
Proof.
  intros Hr. induction 1 as [| pg' e Hrun IH Hp He | pg' expenses Hrun IH];
    [exact Hr | |].
  - apply page_next; assumption.
  - apply page_death_check; assumption.
Qed.

Lemma pageRun_steps (es : list Event) (pg pg' : Page) :
  pageRun pg pg' -> Forall on_page es -> Forall event_ok es ->
  pageRun pg (fold_left pageStep es pg').
Proof.
  revert pg'. induction es as [| e es IH]; intros pg' Hrun Hp Hok.
  - exact Hrun.
  - inversion Hp; inversion Hok; subst. simpl.
    apply IH; [apply run_next | |]; assumption.
Qed.

Lemma pageReachable_steps (es : list Event) (pg : Page) :
  pageReachable pg -> Forall event_ok es ->
  pageReachable (fold_left pageStep es pg).
Proof.
  revert pg. induction es as [| e es IH]; intros pg Hr Hok; [exact Hr |].
  inversion Hok; subst. simpl. apply IH; [apply page_next |]; assumption.
Qed.

(** The pet of a reachable page and the pet its timer holds. *)
Lemma page_current (pg : Page) (pet : Pet) :
  pageReachable pg -> currentPet (world pg) = Some pet ->
  pets (store (world pg)) = [pet] /\ pet_ok pet
  /\ exists snapshot,
       timerPet pg = Some snapshot /\ pet_ok snapshot
       /\ id snapshot = id pet /\ days_alive snapshot = days_alive pet
       /\ last_fed snapshot = last_fed pet.
Proof.
  intros Hr Hc. destruct (pageReachable_ok pg Hr) as (Hok & Hlen & _ & Ht).
  unfold currentPet in Hc.
  destruct (pets (store (world pg))) as [| p [| p' l]] eqn:Hps;
    simpl in *; try discriminate; try lia.
  injection Hc as <-. split; [reflexivity |].
  split; [inversion Hok; assumption |].
  unfold timer_ok in Ht. rewrite Hps in Ht.
  destruct (timerPet pg) as [snapshot |]; [| discriminate].
  destruct Ht as (Hs & cur & Hcur & Hi & Hd & Hl).
  injection Hcur as Hcur. subst cur. exists snapshot.
  split; [reflexivity |]. split; [exact Hs |]. split; [exact Hi |].
  split; assumption.
Qed.

(* ================================================================== *)
(** * The day-advance on the page *)

(** What the update of a day-advance, computed by the timer from
    [snapshot], makes of the stored pet [cur]. *)
Lemma day_writes (cur snapshot : Pet) (now : Z) (d : Draws) :
  let q := applyUpdates cur (dayUpdates snapshot now d) in
  let m := ageMultiplier snapshot in
  days_alive q = (days_alive snapshot + 1)%Z
  /\ experience q = (experience snapshot + 1)%Z
  /\ last_fed q = Some now
  /\ hunger q = Js.max 0 (hunger snapshot - (5 + rHunger d * 8) * m)
  /\ hygiene q = Js.max 0 (hygiene snapshot - (4 + rHygiene d * 6) * m)
  /\ energy q = Js.max 0 (energy snapshot - (3 + rEnergy d * 4) * m)
  /\ happiness q = Js.max 0 (happiness snapshot - 3)
  /\ coins q = (if has_insurance snapshot
                then Js.max 0 (coins snapshot - getInsuranceCost snapshot)
                else coins cur)
  /\ id q = id cur /\ has_insurance q = has_insurance cur
  /\ stage q = stage cur.
Proof.
  cbv zeta. unfold dayUpdates, insuranceEngages, healthRule, decayUpdates,
    ageMultiplier.
  destruct cur, snapshot;
    cbn [has_insurance hunger hygiene energy happiness coins days_alive
         health experience].
  split_ifs; cbn; repeat split.
Qed.

Lemma page_timer (pg : Page) (snapshot cur : Pet) :
  page_ok pg -> timerPet pg = Some snapshot ->
  currentPet (world pg) = Some cur ->
  pets (store (world pg)) = [cur] /\ pet_ok cur /\ pet_ok snapshot
  /\ id snapshot = id cur /\ days_alive snapshot = days_alive cur
  /\ last_fed snapshot = last_fed cur.
Proof.
  intros (Hok & _ & _ & Ht) Hs Hc. unfold timer_ok in Ht. rewrite Hs in Ht.
  destruct Ht as (Hsnap & cur0 & Hps & Hi & Hd & Hl).
  rewrite (currentPet_single _ _ Hps) in Hc. injection Hc as ->.
  rewrite Hps in Hok. inversion Hok; subst.
  split; [exact Hps |]. split; [assumption |]. split; [assumption |].
  split; [assumption |]. split; assumption.
Qed.

(** The day-advance of the page: the update the timer computes from the
    pet it holds is written to the stored pet, and the timer is armed
    again on the result. *)
Lemma day_on_page (pg : Page) (snapshot cur : Pet) (now : Z) (d : Draws) :
  timerPet pg = Some snapshot -> pets (store (world pg)) = [cur] ->
  id snapshot = id cur -> days_alive snapshot = days_alive cur ->
  let next := applyUpdates cur (dayUpdates snapshot now d) in
  pets (store (world (pageStep pg (DayTimeout now d)))) = [next]
  /\ currentPet (world (pageStep pg (DayTimeout now d))) = Some next
  /\ timerPet (pageStep pg (DayTimeout now d)) = Some next.
Proof.
  intros Hs Hps Hi Hd next.
  assert (Hn : pets (store (run (world pg) (progressDay snapshot now d)))
               = [next]) by (apply day_lands; assumption).
  unfold pageStep. rewrite Hs. unfold render. cbn [world timerPet].
  split; [exact Hn |].
  rewrite (currentPet_single _ _ Hn), (currentPet_single _ _ Hps).
  split; [reflexivity |].
  destruct (sameDeps (Some cur) (Some next)) eqn:E; [| reflexivity].
  apply sameDeps_spec in E. simpl in E. injection E as _ E _.
  destruct (day_writes cur snapshot now d) as (Hdays & _).
  fold next in Hdays. lia.
Qed.

(** The events of a list are well formed. *)
Ltac events_ok :=
  repeat (apply Forall_cons); try apply Forall_nil; try exact I;
  try exact draws_ok_high; try exact draws_ok_half.

Lemma reachable_adoptedPage : pageReachable Scenario.adoptedPage.
Proof. apply page_next; [apply page_init | exact I]. Qed.

Lemma reachable_caredLate : pageReachable Scenario.caredLate.
Proof.
  apply pageReachable_steps; [exact reachable_adoptedPage | events_ok].
Qed.

Lemma reachable_insuredLate : pageReachable Scenario.insuredLate.
Proof.
  apply pageReachable_steps; [exact reachable_adoptedPage | events_ok].
Qed.

(** C1.  The health rule is applied to the pet the day timer holds, the
    pet of the render in which the timer was armed, and not to the pet
    in the store.  A pet left alone for three days and then fed, washed
    and rested before the fourth has no need under 50 and a health under
    100 when the day-advance comes, so that the rule asks for a
    regeneration; the day-advance takes between 8 and 15 points of
    health away, the drop of the case with two critical needs, and
    writes a hunger under 25 over the 50 or more the meals had
    reached. *)
Theorem day_advance_judges_the_timer_pet :
  let before := Scenario.caredLate in
  let after := pageStep before (DayTimeout 4 Sample.high) in
  pageReachable before
  /\ exists pet pet',
       currentPet (world before) = Some pet
       /\ currentPet (world after) = Some pet'
       /\ criticalStats pet = 0%nat /\ lowStats pet = 0%nat
       /\ 0 < health pet /\ health pet < 100
       /\ health pet' < health pet
       /\ 8 <= health pet - health pet' /\ health pet - health pet' < 15
       /\ 50 <= hunger pet /\ hunger pet' < 25.
Proof.
  cbv zeta. split; [exact reachable_caredLate |].
  destruct (currentPet (world Scenario.caredLate)) as [pet |] eqn:Hc;
    [| vm_compute in Hc; discriminate].
  destruct (currentPet
              (world (pageStep Scenario.caredLate (DayTimeout 4 Sample.high))))
    as [pet' |] eqn:Hc'; [| vm_compute in Hc'; discriminate].
  exists pet, pet'. split; [reflexivity |]. split; [reflexivity |].
  vm_compute in Hc. injection Hc as <-.
  vm_compute in Hc'. injection Hc' as <-.
  repeat split; vm_compute; first [reflexivity | discriminate].
Qed.

(** C3.  The insurance floor is applied when the pet the day timer holds
    is insured, whatever the store says.  A pet left alone for seven
    days and insured before the eighth is insured in the store, with a
    health of 20 or more, when the day-advance comes; the day-advance
    writes a health under 20 to it, shows no saved-by-insurance
    notification, and bills no insurance. *)
Theorem day_advance_misses_new_insurance :
  let before := Scenario.insuredLate in
  let after := pageStep before (DayTimeout 8 Sample.high) in
  pageReachable before
  /\ exists pet pet',
       currentPet (world before) = Some pet
       /\ currentPet (world after) = Some pet'
       /\ has_insurance pet = true /\ 20 <= health pet
       /\ has_insurance pet' = true /\ health pet' < 20
       /\ ~ In InsuranceSaved (shown (world after))
       /\ coins pet' = coins pet
       /\ expenses (store (world after)) = expenses (store (world before)).
Proof.
  cbv zeta. split; [exact reachable_insuredLate |].
  destruct (currentPet (world Scenario.insuredLate)) as [pet |] eqn:Hc;
    [| vm_compute in Hc; discriminate].
  destruct (currentPet
              (world (pageStep Scenario.insuredLate
                        (DayTimeout 8 Sample.high))))
    as [pet' |] eqn:Hc'; [| vm_compute in Hc'; discriminate].
  exists pet, pet'. split; [reflexivity |]. split; [reflexivity |].
  vm_compute in Hc. injection Hc as <-.
  vm_compute in Hc'. injection Hc' as <-.
  repeat split; try (vm_compute; first [reflexivity | discriminate]).
  vm_compute. intros [H | H]; [discriminate H | exact H].
Qed.





(* ================================================================== *)
(** * Properties of the page with its day timer *)

Lemma pageStep_render (pg : Page) (e : Event) :
  on_page e -> (forall now d, e <> DayTimeout now d) ->
  pageStep pg e = render pg (step (world pg) e).
Proof.
  intros Hp Hday. destruct e; try reflexivity.
  - destruct (Hday now d). reflexivity.
  - destruct Hp.
Qed.

Lemma progressDay_keeps_record (snapshot : Pet) (now : Z) (d : Draws) :
  forallb keeps_record (progressDay snapshot now d) = true.
Proof. unfold progressDay. split_ifs; reflexivity. Qed.

Lemma pageStep_keeps_record (pg : Page) (e : Event) :
  on_page e ->
  (forall pet, currentPet (world pg) = Some pet ->
               0 < health pet \/ petDied (world pg) = true) ->
  petDied (world (pageStep pg e)) = petDied (world pg)
  /\ deathStats (world (pageStep pg e)) = deathStats (world pg).
Proof.
  intros Hp H.
  assert (Hother : (forall now d, e <> DayTimeout now d) ->
                   petDied (world (pageStep pg e)) = petDied (world pg)
                   /\ deathStats (world (pageStep pg e))
                      = deathStats (world pg)).
  { intros Hday. rewrite (pageStep_render pg e Hp Hday). cbn [render world].
    apply step_keeps_record; assumption. }
  destruct e; try (apply Hother; intros; discriminate).
  unfold pageStep. destruct (timerPet pg) as [snapshot |];
    [| split; reflexivity].
  cbn [render world]. apply run_keeps_record, progressDay_keeps_record.
Qed.

Lemma deathEffect_keeps_record (pg : Page) (expenses : list ExpenseData) :
  (forall pet, currentPet (world pg) = Some pet ->
               0 < health pet \/ petDied (world pg) = true) ->
  petDied (world (deathEffect pg expenses)) = petDied (world pg)
  /\ deathStats (world (deathEffect pg expenses)) = deathStats (world pg).
Proof.
  intros H. unfold deathEffect.
  destruct (currentPet (world pg)) as [pet |]; [| split; reflexivity].
  cbn [render world]. apply run_keeps_record. unfold deathCheck.
  destruct (Js.le (health pet) 0 && negb (petDied (world pg)))%bool eqn:E;
    [| reflexivity].
  exfalso. apply andb_prop in E. destruct E as [E1 E2].
  destruct (H pet eq_refl) as [Hh | Hd].
  - unfold Js.le in E1. apply Qle_bool_iff in E1. lra.
  - rewrite Hd in E2. discriminate.
Qed.

Lemma timer_covered_render (pg : Page) (after : World) :
  (forall s, timerPet pg = Some s -> covered s) ->
  Forall covered (pets (store after)) ->
  forall s, timerPet (render pg after) = Some s -> covered s.
Proof.
  intros Ht Hafter s. unfold render. cbn [timerPet].
  destruct (sameDeps _ _); [apply Ht |].
  unfold currentPet. destruct (pets (store after)) as [| q l];
    [discriminate |].
  intros E. injection E as <-. inversion Hafter. assumption.
Qed.

Lemma pageStep_covered (pg : Page) (e : Event) :
  page_ok pg -> on_page e ->
  Forall covered (pets (store (world pg))) ->
  (forall s, timerPet pg = Some s -> covered s) ->
  Forall covered (pets (store (world (pageStep pg e))))
  /\ (forall s, timerPet (pageStep pg e) = Some s -> covered s).
Proof.
  intros (_ & Hlen & _) Hp Hcov Ht.
  assert (Hrender : forall after,
             Forall covered (pets (store after)) ->
             Forall covered (pets (store (world (render pg after))))
             /\ (forall s, timerPet (render pg after) = Some s -> covered s)).
  { intros after Hafter. split; [exact Hafter |].
    apply timer_covered_render; assumption. }
  assert (Hother : (forall now d, e <> DayTimeout now d) ->
             Forall covered (pets (store (world (pageStep pg e))))
             /\ (forall s, timerPet (pageStep pg e) = Some s -> covered s)).
  { intros Hday. rewrite (pageStep_render pg e Hp Hday). apply Hrender.
    destruct (pets (store (world pg))) as [| mid [| mid' l]] eqn:Hps;
      simpl in Hlen; try lia.
    - rewrite (step_without_pet (world pg) e); [| | exact Hp].
      + rewrite Hps. constructor.
      + unfold currentPet. rewrite Hps. reflexivity.
    - apply (step_covered (world pg) mid e Hps Hp).
      inversion Hcov. assumption. }
  destruct e; try (apply Hother; intros; discriminate).
  unfold pageStep. destruct (timerPet pg) as [snapshot |] eqn:Hs;
    [| split; [exact Hcov | rewrite Hs; discriminate]].
  apply Hrender. rewrite run_pets.
  apply (settle_keeps
           (fun u => Forall (keeps_progress snapshot) u /\ health_floor u)).
  - intros p u. apply covered_update.
  - apply effects_satisfy_and.
    + apply (handle_progress (world pg) snapshot (DayTimeout now d)).
    + apply (handle_health_floor (world pg) snapshot (DayTimeout now d)).
      apply Ht. reflexivity.
  - exact Hcov.
Qed.

(** X7.  An insured pet cannot die, once the day timer holds the
    insured pet.  From any moment at which the pet in the store and the
    pet the day timer was armed on are both insured with a health of 20
    or more, whatever happens on the care page afterwards, day-advances
    of a timer armed earlier and death checks included, the pet stays
    insured, its health stays at 20 or more, and no death is ever
    recorded. *)
Theorem insured_pet_never_dies (pg pg' : Page) (pet snapshot : Pet) :
  pageReachable pg ->
  currentPet (world pg) = Some pet -> timerPet pg = Some snapshot ->
  covered pet -> covered snapshot ->
  pageRun pg pg' ->
  (forall q, In q (pets (store (world pg'))) ->
             has_insurance q = true /\ 20 <= health q)
  /\ (forall s, timerPet pg' = Some s ->
                has_insurance s = true /\ 20 <= health s)
  /\ petDied (world pg') = petDied (world pg)
  /\ deathStats (world pg') = deathStats (world pg).
Proof.
  intros Hr Hc Hs Hpet Hsnap Hrun.
  assert (Hgoal : Forall covered (pets (store (world pg')))
                  /\ (forall s, timerPet pg' = Some s -> covered s)
                  /\ petDied (world pg') = petDied (world pg)
                  /\ deathStats (world pg') = deathStats (world pg)).
  { induction Hrun as [| pg' e Hrun IH Hp He | pg' expenses Hrun IH].
    - destruct (page_current pg pet Hr Hc) as (Hps & _).
      rewrite Hps. split; [constructor; [exact Hpet | constructor] |].
      split; [| split; reflexivity].
      intros s E. rewrite Hs in E. injection E as <-. exact Hsnap.
    - destruct IH as (IHq & IHt & IHd & IHs).
      pose proof (pageReachable_ok pg' (pageRun_reachable pg pg' Hr Hrun))
        as Hok.
      destruct (pageStep_covered pg' e Hok Hp IHq IHt) as (Hq & Ht).
      split; [exact Hq |]. split; [exact Ht |].
      destruct (pageStep_keeps_record pg' e Hp) as (-> & ->);
        [| split; assumption].
      intros mid Hmid. left. unfold currentPet in Hmid.
      destruct (pets (store (world pg'))) as [| x l]; [discriminate |].
      injection Hmid as ->. inversion IHq as [| ? ? (_ & Hh) _]. lra.
    - destruct IH as (IHq & IHt & IHd & IHs).
      destruct (deathEffect_store pg' expenses) as (Hst & Htm).
      rewrite Hst, Htm. split; [exact IHq |]. split; [exact IHt |].
      destruct (deathEffect_keeps_record pg' expenses) as (-> & ->);
        [| split; assumption].
      intros mid Hmid. left. unfold currentPet in Hmid.
      destruct (pets (store (world pg'))) as [| x l]; [discriminate |].
      injection Hmid as ->. inversion IHq as [| ? ? (_ & Hh) _]. lra. }
  destruct Hgoal as (Hq & Ht & Hd & Hst).
  split; [| split; [exact Ht | split; assumption]].
  rewrite Forall_forall in Hq. exact Hq.
Qed.

Lemma reachable_insuredFed : pageReachable Scenario.insuredFed.
Proof.
  apply pageReachable_steps; [exact reachable_adoptedPage | events_ok].
Qed.

Lemma insured_pet_never_dies_witness :
  Forall (fun q => has_insurance q = true /\ 20 <= health q)
    (pets (store (world Scenario.insuredNeglectedPage)))
  /\ petDied (world Scenario.insuredNeglectedPage) = false.
Proof.
  destruct (currentPet (world Scenario.insuredFed)) as [pet |] eqn:Hc;
    [| vm_compute in Hc; discriminate].
  destruct (timerPet Scenario.insuredFed) as [snapshot |] eqn:Hs;
    [| vm_compute in Hs; discriminate].
  destruct (insured_pet_never_dies Scenario.insuredFed
              Scenario.insuredNeglectedPage pet snapshot)
    as (H & _ & Hd & _).
  - exact reachable_insuredFed.
  - exact Hc.
  - exact Hs.
  - vm_compute in Hc. injection Hc as <-.
    split; [reflexivity | vm_compute; discriminate].
  - vm_compute in Hs. injection Hs as <-.
    split; [reflexivity | vm_compute; discriminate].
  - destruct (idle_days_on_page Sample.high 9 draws_ok_high) as [H1 H2].
    apply pageRun_steps; [apply run_here | exact H1 | exact H2].
  - split; [apply Forall_forall; exact H | rewrite Hd; reflexivity].
Defined.

Lemma pageRun_keeps_record (pg pg' : Page) :
  petDied (world pg) = true -> pageRun pg pg' ->
  petDied (world pg') = true /\ deathStats (world pg') = deathStats (world pg).
Proof.
  intros Hd.
  induction 1 as [| pg' e Hrun [IH1 IH2] Hp He | pg' expenses Hrun [IH1 IH2]].
  - split; [exact Hd | reflexivity].
  - destruct (pageStep_keeps_record pg' e Hp) as [-> ->].
    + intros pet _. right. exact IH1.
    + split; assumption.
  - destruct (deathEffect_keeps_record pg' expenses) as [-> ->].
    + intros pet _. right. exact IH1.
    + split; assumption.
Qed.

(** X8.  A death is recorded once and for good.  When the death check
    meets a health of 0 it takes its record, whatever the expenses query
    holds at that moment: the name, the coins and the happiness of the
    stored pet, the number of its achievements and the days lived, at
    least 1.  Nothing that happens on the page afterwards, further
    day-advances and death checks included, changes the record or lifts
    the memorial screen. *)
Theorem death_record_is_final
    (pg pg' : Page) (pet : Pet) (expenses : list ExpenseData) :
  pageReachable pg -> currentPet (world pg) = Some pet ->
  petDied (world pg) = false -> health pet <= 0 ->
  pageRun (deathEffect pg expenses) pg' ->
  exists st,
    deathStats (world (deathEffect pg expenses)) = Some st
    /\ deathStats (world pg') = Some st
    /\ petDied (world pg') = true /\ deathScreen (world pg') = true
    /\ ds_name st = name pet
    /\ daysLived st = Z.max 1 (days_alive pet)
    /\ ds_happiness st = happiness pet
    /\ ds_coins st = coins pet
    /\ ds_achievements st = List.length (achievements pet).
Proof.
  intros Hr Hc Hd Hh Hrun.
  destruct (page_current pg pet Hr Hc) as (_ & Hok & _).
  destruct Hok as (_ & _ & _ & _ & _ & _ & _ & Hdays).
  assert (Hle : Js.le (health pet) 0 = true)
    by (unfold Js.le; apply Qle_bool_iff; exact Hh).
  assert (Hstep : petDied (world (deathEffect pg expenses)) = true
                  /\ exists st,
                       deathStats (world (deathEffect pg expenses)) = Some st
                       /\ ds_name st = name pet
                       /\ daysLived st = Z.max 1 (days_alive pet)
                       /\ ds_happiness st = happiness pet
                       /\ ds_coins st = coins pet
                       /\ ds_achievements st
                          = List.length (achievements pet)).
  { unfold deathEffect. rewrite Hc. cbn [render world].
    unfold deathCheck. rewrite Hle, Hd. cbn [negb andb].
    destruct (world pg) as [s died stats evolving trick log]. cbn.
    split; [reflexivity |]. eexists. split; [reflexivity |]. cbn.
    repeat split.
    destruct (days_alive pet =? 0)%Z eqn:E; lia. }
  destruct Hstep as (Hdied & st & Hst & Hfacts).
  destruct (pageRun_keeps_record _ pg' Hdied Hrun) as (Hd' & Hs').
  exists st. split; [exact Hst |]. rewrite Hs', Hst. split; [reflexivity |].
  split; [exact Hd' |]. split; [| exact Hfacts].
  unfold deathScreen. rewrite Hd', Hs', Hst. reflexivity.
Qed.

Lemma reachable_dyingPage : pageReachable Scenario.dyingPage.
Proof.
  apply pageReachable_steps; [exact reachable_adoptedPage | events_ok].
Qed.

Lemma death_record_is_final_witness :
  exists st,
    deathStats (world Scenario.mournedPage) = Some st
    /\ petDied (world Scenario.mournedPage) = true
    /\ daysLived st = 9%Z
    /\ option_map days_alive (currentPet (world Scenario.mournedPage))
       = Some 10%Z.
Proof.
  destruct (currentPet (world Scenario.dyingPage)) as [pet |] eqn:Hc;
    [| vm_compute in Hc; discriminate].
  destruct (death_record_is_final Scenario.dyingPage Scenario.mournedPage
              pet [])
    as (st & _ & Hst & Hd & _ & _ & Hdays & _).
  - exact reachable_dyingPage.
  - exact Hc.
  - vm_compute. reflexivity.
  - vm_compute in Hc. injection Hc as <-. vm_compute. discriminate.
  - apply pageRun_steps; [apply run_here | |]; events_ok.
  - exists st. split; [exact Hst |]. split; [exact Hd |].
    split; [| vm_compute; reflexivity].
    rewrite Hdays. vm_compute in Hc. injection Hc as <-. reflexivity.
Defined.



(** X17.  The insurance is billed in full, paid or not.  When the pet
    the day timer holds is insured and owns less than the daily cost,
    the day-advance leaves the stored pet 0 coins, leaves its insurance
    as it is, and files an expense over the whole cost: more than was
    paid. *)
Theorem insurance_billed_beyond_purse
    (pg : Page) (snapshot cur : Pet) (now : Z) (d : Draws) :
  pageReachable pg -> timerPet pg = Some snapshot ->
  currentPet (world pg) = Some cur ->
  has_insurance snapshot = true ->
  coins snapshot < getInsuranceCost snapshot ->
  exists q,
    pets (store (world (pageStep pg (DayTimeout now d)))) = [q]
    /\ coins q == 0 /\ has_insurance q = has_insurance cur
    /\ map fields (expenses (store (world (pageStep pg (DayTimeout now d)))))
       = map fields (expenses (store (world pg)))
         ++ [mkExpense (id cur) "insurance" (getInsuranceCost snapshot)
                       "Daily insurance payment"]
    /\ coins snapshot - coins q < getInsuranceCost snapshot.
Proof.
  intros Hr Hs Hc Hins Hpoor.
  destruct (page_timer pg snapshot cur (pageReachable_ok pg Hr) Hs Hc)
    as (Hw & _ & Hsnap & Hi & Hdays & _).
  destruct Hsnap as (_ & _ & _ & _ & _ & Hcoins & _).
  exists (applyUpdates cur (dayUpdates snapshot now d)).
  destruct (day_on_page pg snapshot cur now d Hs Hw Hi Hdays) as (Hn & _).
  destruct (day_writes cur snapshot now d)
    as (_ & _ & _ & _ & _ & _ & _ & Hq & _ & Hkeep & _).
  rewrite Hins in Hq.
  assert (Hzero : coins (applyUpdates cur (dayUpdates snapshot now d)) == 0).
  { rewrite Hq.
    destruct (JsFacts.max_cases 0 (coins snapshot - getInsuranceCost snapshot))
      as [[_ E] | [L E]]; [exact E | lra]. }
  split; [exact Hn |]. split; [exact Hzero |]. split; [exact Hkeep |]. split.
  - unfold pageStep. rewrite Hs. cbn [render world].
    destruct (run_expenses (progressDay snapshot now d) (world pg))
      as (more & -> & Hf).
    rewrite map_app, Hf, progressDay_expenses, Hins, Hi. reflexivity.
  - rewrite Hzero. lra.
Qed.

Lemma reachable_brokePage : pageReachable Scenario.brokePage.
Proof.
  apply pageReachable_steps; [exact reachable_adoptedPage | events_ok].
Qed.

Lemma insurance_billed_beyond_purse_witness :
  exists q,
    pets (store (world (pageStep Scenario.brokePage
                          (DayTimeout 2 Sample.half)))) = [q]
    /\ coins q == 0 /\ has_insurance q = true
    /\ List.length
         (expenses (store (world (pageStep Scenario.brokePage
                                    (DayTimeout 2 Sample.half)))))
       = S (List.length (expenses (store (world Scenario.brokePage)))).
Proof.
  destruct (currentPet (world Scenario.brokePage)) as [cur |] eqn:Hc;
    [| vm_compute in Hc; discriminate].
  destruct (timerPet Scenario.brokePage) as [snapshot |] eqn:Hs;
    [| vm_compute in Hs; discriminate].
  assert (Hsnap : has_insurance snapshot = true
                  /\ coins snapshot < getInsuranceCost snapshot).
  { vm_compute in Hs. injection Hs as <-. split; reflexivity. }
  destruct (insurance_billed_beyond_purse Scenario.brokePage snapshot cur 2
              Sample.half reachable_brokePage Hs Hc (proj1 Hsnap)
              (proj2 Hsnap))
    as (q & Hq & Hcoins & Hins & _).
  exists q. split; [exact Hq |]. split; [exact Hcoins |]. split.
  - rewrite Hins. vm_compute in Hc. injection Hc as <-. reflexivity.
  - vm_compute. reflexivity.
Defined.

(** X20.  Rest is free.  The Rest button is refused while an update of
    the pet is pending, as every care button is; otherwise a click is
    accepted whatever the coins and the age of the pet: it takes no
    coins, files no expense, and raises the energy by 40 and the
    happiness by 5, up to 100. *)
Theorem rest_is_free (pet : Pet) :
  pet_ok pet ->
  careClick pet true Act.rest = []
  /\ exists u,
       careClick pet false Act.rest = [Notify Rested; PetUpdate (id pet) u]
       /\ created_expenses (careClick pet false Act.rest) = []
       /\ coins (applyUpdates pet u) == coins pet
       /\ energy (applyUpdates pet u) = Js.min 100 (energy pet + 40)
       /\ happiness (applyUpdates pet u) = Js.min 100 (happiness pet + 5)
       /\ energy pet <= energy (applyUpdates pet u)
       /\ happiness pet <= happiness (applyUpdates pet u).
Proof.
  intros Hok. split; [reflexivity |].
  destruct Hok as (_ & (_ & Ha) & (_ & He) & _ & _ & Hcoins & _).
  set (m := getCostMultiplier pet).
  assert (Hceil : Js.ge (coins pet) (Js.ceil (Act.cost Act.rest * m)) = true).
  { apply JsFacts.ge_true. unfold Js.ceil.
    assert (Hz : Qceiling (Act.cost Act.rest * m) = Qceiling 0)
      by (apply Qceiling_comp; unfold Act.cost; lra).
    rewrite Hz. exact Hcoins. }
  assert (Hlt : Js.lt (coins pet) (Act.cost Act.rest * m) = false)
    by (apply JsFacts.lt_false; unfold Act.cost; lra).
  assert (Hgt : Js.gt (Act.cost Act.rest * m) 0 = false)
    by (apply JsFacts.gt_false; unfold Act.cost; lra).
  assert (Hh : careClick pet false Act.rest
               = [Notify Rested;
                  PetUpdate (id pet)
                    [SetCoins (coins pet - Act.cost Act.rest * m);
                     SetEnergy (Js.min 100 (energy pet + 40));
                     SetHappiness (Js.min 100 (happiness pet + 5));
                     SetAchievements (achievements pet)]]).
  { unfold careClick, CareActions.click, CareActions.canAfford,
      CareActions.actualCost.
    fold m. rewrite Hceil. cbn [negb orb].
    unfold handleCareAction. fold m. rewrite Hlt.
    cbv zeta iota beta. rewrite Hgt. reflexivity. }
  eexists. split; [exact Hh |]. rewrite Hh.
  split; [reflexivity |].
  split; [destruct pet; cbn in *; unfold Act.cost; lra |].
  split; [destruct pet; reflexivity |].
  split; [destruct pet; reflexivity |].
  split; destruct pet; cbn in *; apply min_up; solve [assumption | lra].
Qed.

Lemma rest_is_free_witness :
  careClick Sample.egg0 true Act.rest = []
  /\ exists u,
       careClick Sample.egg0 false Act.rest
       = [Notify Rested; PetUpdate (id Sample.egg0) u]
       /\ coins (applyUpdates Sample.egg0 u) == 50
       /\ energy (applyUpdates Sample.egg0 u) == 90.
Proof.
  destruct (rest_is_free Sample.egg0) as (H1 & u & H2 & _ & H3 & H4 & _).
  - unfold pet_ok, stat_ok. simpl. repeat split; try lra; lia.
  - split; [exact H1 |]. exists u. split; [exact H2 |].
    split; [rewrite H3; reflexivity | rewrite H4; reflexivity].
Defined.

(** X21.  A day wears the needs down from what they were when its timer
    was armed.  With the pet the timer holds and its age multiplier m
    (1, and a tenth more every 15 days), the day-advance sets the hunger
    of the stored pet to that pet's hunger less 5m to 13m, the hygiene
    to its hygiene less 4m to 10m, the energy to its energy less 3m to
    7m and the happiness to its happiness less 3, each no lower than 0:
    what care has added since the timer was armed is lost.  The day
    counter rises by one, the experience is that pet's and one more,
    the time of the advance is stored, and the coins stay when that pet
    has no insurance.  When the stored pet is the pet the timer holds,
    no need is raised. *)
Theorem day_wears_needs_down
    (pg : Page) (snapshot cur : Pet) (now : Z) (d : Draws) :
  pageReachable pg -> timerPet pg = Some snapshot ->
  currentPet (world pg) = Some cur -> draws_ok d ->
  let m := ageMultiplier snapshot in
  1 <= m
  /\ exists q,
       pets (store (world (pageStep pg (DayTimeout now d)))) = [q]
       /\ worn (hunger snapshot) (hunger q) (5 * m) (13 * m)
       /\ worn (hygiene snapshot) (hygiene q) (4 * m) (10 * m)
       /\ worn (energy snapshot) (energy q) (3 * m) (7 * m)
       /\ happiness q == Js.max 0 (happiness snapshot - 3)
       /\ happiness q <= happiness snapshot
       /\ days_alive q = (days_alive cur + 1)%Z
       /\ experience q = (experience snapshot + 1)%Z
       /\ last_fed q = Some now
       /\ (has_insurance snapshot = false -> coins q = coins cur)
       /\ (snapshot = cur ->
           hunger q <= hunger cur /\ hygiene q <= hygiene cur
           /\ energy q <= energy cur /\ happiness q <= happiness cur).
Proof.
  intros Hr Hs Hc (Hhu & Hhy & Hen & _). cbv zeta.
  destruct (page_timer pg snapshot cur (pageReachable_ok pg Hr) Hs Hc)
    as (Hw & _ & Hsnap & Hi & Hdays & _).
  destruct Hsnap as ((Hh0 & _) & (Ha0 & _) & (He0 & _) & (Hy0 & _) & _ & _ & _
                     & Hd0).
  assert (Hm : 1 <= ageMultiplier snapshot)
    by (apply (ageMultiplier_pos _ 15 Hd0 eq_refl)).
  split; [exact Hm |].
  exists (applyUpdates cur (dayUpdates snapshot now d)).
  destruct (day_on_page pg snapshot cur now d Hs Hw Hi Hdays) as (Hn & _).
  destruct (day_writes cur snapshot now d)
    as (Fd & Fx & Fl & Qh & Qy & Qe & Qa & Qc & _).
  assert (Wh : worn (hunger snapshot)
                 (hunger (applyUpdates cur (dayUpdates snapshot now d)))
                 (5 * ageMultiplier snapshot) (13 * ageMultiplier snapshot)).
  { rewrite Qh. replace (13 * ageMultiplier snapshot)
      with ((5 + 8) * ageMultiplier snapshot) by reflexivity.
    apply worn_by; try assumption; lra. }
  assert (Wy : worn (hygiene snapshot)
                 (hygiene (applyUpdates cur (dayUpdates snapshot now d)))
                 (4 * ageMultiplier snapshot) (10 * ageMultiplier snapshot)).
  { rewrite Qy. replace (10 * ageMultiplier snapshot)
      with ((4 + 6) * ageMultiplier snapshot) by reflexivity.
    apply worn_by; try assumption; lra. }
  assert (We : worn (energy snapshot)
                 (energy (applyUpdates cur (dayUpdates snapshot now d)))
                 (3 * ageMultiplier snapshot) (7 * ageMultiplier snapshot)).
  { rewrite Qe. replace (7 * ageMultiplier snapshot)
      with ((3 + 4) * ageMultiplier snapshot) by reflexivity.
    apply worn_by; try assumption; lra. }
  assert (Wa : happiness (applyUpdates cur (dayUpdates snapshot now d))
               <= happiness snapshot).
  { rewrite Qa.
    destruct (JsFacts.max_cases 0 (happiness snapshot - 3))
      as [[L E] | [L E]]; rewrite E; lra. }
  split; [exact Hn |]. split; [exact Wh |]. split; [exact Wy |].
  split; [exact We |]. split; [rewrite Qa; reflexivity |].
  split; [exact Wa |]. split; [rewrite Fd, Hdays; reflexivity |].
  split; [exact Fx |]. split; [exact Fl |]. split.
  - intros Hins. rewrite Hins in Qc. exact Qc.
  - intros <-. split; [apply Wh |]. split; [apply Wy |].
    split; [apply We | exact Wa].
Qed.

Lemma day_wears_needs_down_witness :
  exists q,
    pets (store (world (pageStep Scenario.caredLate
                          (DayTimeout 4 Sample.high)))) = [q]
    /\ hunger q < 12 /\ days_alive q = 4%Z.
Proof.
  destruct (currentPet (world Scenario.caredLate)) as [cur |] eqn:Hc;
    [| vm_compute in Hc; discriminate].
  destruct (timerPet Scenario.caredLate) as [snapshot |] eqn:Hs;
    [| vm_compute in Hs; discriminate].
  destruct (day_wears_needs_down Scenario.caredLate snapshot cur 4
              Sample.high reachable_caredLate Hs Hc draws_ok_high)
    as (_ & q & Hq & (_ & H1 & _) & _ & _ & _ & _ & Hd & _).
  exists q. split; [exact Hq |]. split.
  - eapply Qle_lt_trans; [exact H1 |].
    vm_compute in Hs. injection Hs as <-. vm_compute. reflexivity.
  - rewrite Hd. vm_compute in Hc. injection Hc as <-. reflexivity.
Defined.
